(** * MindSculpt: memory graph store, search, classification normalizer and
      prompt assembly

    A shallow embedding of

    - [src/types/memory.types.ts]              (module [Types]),
    - [src/services/ClassificationService.ts]  (module [Classification]),
    - the [MemoryManager] class                (module [MemoryStore]),
    - the [PromptBuilder] class                (module [Prompt]),
    - the [PersonalityManager] class           (module [PersonalityStore]),

    preceded by a model of the part of the ECMAScript runtime these classes
    rely on (module [JS]): numbers with [NaN] and the infinities,
    [Math.min]/[Math.max], truthiness, [ToNumber], [parseFloat],
    [JSON.parse], promises, and a few string and array methods.

    Conventions: a property that may be [undefined] is an [option]; an
    [async] method is a function to the outcome of its promise; randomness
    and the clock are arguments; calls on one manager are taken one at a
    time.  The properties come last, with the number of the statement of
    the specification each one settles. *)

From Stdlib Require Import ZArith QArith Lqa Ascii String List Bool Lia
  Permutation Sorted.
From stdpp Require Import base decidable option list gmap strings.

Local Open Scope string_scope.
Local Open Scope list_scope.
Local Open Scope Z_scope.

(* ===================================================================== *)
(** * The ECMAScript runtime, as far as the services use it               *)
(* ===================================================================== *)

Module JS.

(** ** Numbers

    A JavaScript number is an IEEE-754 double.  Every finite double is a
    rational, and the operations the services apply to numbers
    (comparison, [Math.min], [Math.max], the sign of a difference,
    truthiness) are exact on doubles, so a number is modelled as an
    extended rational: [NaN], the two infinities, or a finite rational.
    The two zeros are identified: no operation below tells them apart
    (both are falsy, both compare equal). *)

Inductive number : Type :=
| NaN
| NegInf
| Fin (q : Q)
| PosInf.

Definition num (z : Z) : number := Fin (inject_Z z).

Definition isNaN (x : number) : bool :=
  match x with NaN => true | _ => false end.

(** [x < y], [x <= y], [x >= y] as the language evaluates them: any
    comparison with [NaN] is [false]. *)
Definition lt (x y : number) : bool :=
  match x, y with
  | NaN, _ | _, NaN => false
  | _, NegInf => false
  | NegInf, _ => true
  | PosInf, _ => false
  | _, PosInf => true
  | Fin a, Fin b => match (a ?= b)%Q with Lt => true | _ => false end
  end.

Definition le (x y : number) : bool :=
  match x, y with
  | NaN, _ | _, NaN => false
  | NegInf, _ => true
  | _, PosInf => true
  | _, NegInf => false
  | PosInf, _ => false
  | Fin a, Fin b => Qle_bool a b
  end.

Definition ge (x y : number) : bool := le y x.

(** [x == y] on numbers: [NaN] equals nothing. *)
Definition equals (x y : number) : bool := le x y && le y x.

(** [Math.min(x, y)] and [Math.max(x, y)]: [NaN] as soon as one argument
    is [NaN], otherwise the smaller (larger) argument. *)
Definition Math_min (x y : number) : number :=
  match x, y with
  | NaN, _ | _, NaN => NaN
  | _, _ => if le x y then x else y
  end.

Definition Math_max (x y : number) : number :=
  match x, y with
  | NaN, _ | _, NaN => NaN
  | _, _ => if le x y then y else x
  end.

(** [x - y].  On doubles the difference is rounded, but its sign (and
    whether it is zero or [NaN]) is the one of the exact difference, and
    the sign is all that a sort comparator's caller looks at. *)
Definition sub (x y : number) : number :=
  match x, y with
  | NaN, _ | _, NaN => NaN
  | PosInf, PosInf | NegInf, NegInf => NaN
  | PosInf, _ | _, NegInf => PosInf
  | NegInf, _ | _, PosInf => NegInf
  | Fin a, Fin b => Fin (a - b)
  end.

(** [ToBoolean] on a number: zero and [NaN] are falsy. *)
Definition number_truthy (x : number) : bool :=
  match x with
  | NaN => false
  | Fin q => negb (Qeq_bool q 0)
  | _ => true
  end.

(** Membership of a closed interval with rational end points; [NaN] and
    the infinities belong to no such interval. *)
Definition in_range (lo hi : Q) (x : number) : Prop :=
  match x with
  | Fin q => (lo <= q)%Q /\ (q <= hi)%Q
  | _ => False
  end.

(** [ToIntegerOrInfinity]: truncation toward zero, [NaN] to [0]. *)
Inductive integer_or_infinity : Type :=
| IMinusInf
| IInt (z : Z)
| IPlusInf.

Definition ToIntegerOrInfinity (x : number) : integer_or_infinity :=
  match x with
  | NaN => IInt 0
  | NegInf => IMinusInf
  | PosInf => IPlusInf
  | Fin q => IInt (Z.quot (Qnum q) (Zpos (Qden q)))
  end.

(** *** Rounding a rational to the nearest double

    Numeric literals in texts ([JSON.parse], [parseFloat], [ToNumber] on
    a string) denote the double nearest to their decimal value, ties to
    even, overflowing to an infinity and underflowing to zero. *)

Definition round_half_even (n d : Z) : Z :=
  let q := n / d in
  let r := n mod d in
  match 2 * r ?= d with
  | Lt => q
  | Gt => q + 1
  | Eq => if Z.even q then q else q + 1
  end.

(** [n/d < 2^k], for [0 < n] and [0 < d]. *)
Definition below_pow2 (n d k : Z) : bool :=
  if 0 <=? k then n <? d * 2 ^ k else n * 2 ^ (- k) <? d.

Definition round_positive (n d : Z) : number :=
  let k := Z.log2 n - Z.log2 d in
  let fl := if below_pow2 n d k then k - 1 else k in
  let e := Z.max (fl - 52) (-1074) in
  let m := if 0 <=? e then round_half_even n (d * 2 ^ e)
           else round_half_even (n * 2 ^ (- e)) d in
  if (971 <? e) || ((e =? 971) && (m =? 2 ^ 53)) then PosInf
  else if 0 <=? e then Fin (inject_Z (m * 2 ^ e))
  else Fin (Qred (Qmake m (Z.to_pos (2 ^ (- e))))).

Definition negate (x : number) : number :=
  match x with
  | NaN => NaN
  | NegInf => PosInf
  | PosInf => NegInf
  | Fin q => Fin (Qred (- q))
  end.

Definition to_double (q : Q) : number :=
  match Qnum q with
  | Z0 => Fin 0
  | Zpos n => round_positive (Zpos n) (Zpos (Qden q))
  | Zneg n => negate (round_positive (Zpos n) (Zpos (Qden q)))
  end.

(** The value [m * 10^e] of a decimal literal. *)
Definition decimal (m e : Z) : number :=
  if 0 <=? e then to_double (inject_Z (m * 10 ^ e))
  else to_double (Qmake m (Z.to_pos (10 ^ (- e)))).

(** ** Strings

    A string is modelled by the bytes of its UTF-16 code units, each code
    unit below 128 as one byte and each other code unit in its UTF-8
    form. *)

Definition code (c : ascii) : Z := Z.of_N (N_of_ascii c).

Definition chr (z : Z) : ascii := ascii_of_N (Z.to_N z).

Definition is_digit (c : ascii) : bool := (48 <=? code c) && (code c <=? 57).

Definition digit_value (c : ascii) : Z := code c - 48.

Fixpoint skip (n : nat) (s : string) : string :=
  match n, s with
  | S n', String _ r => skip n' r
  | _, _ => s
  end.

(** [String.prototype.toLowerCase].  Only the letters [A]-[Z] are folded
    here; the language also folds the letters outside ASCII.  No result
    below depends on what this function does to its argument. *)
Definition lower_char (c : ascii) : ascii :=
  if (65 <=? code c) && (code c <=? 90) then chr (code c + 32) else c.

Fixpoint toLowerCase (s : string) : string :=
  match s with
  | EmptyString => EmptyString
  | String c r => String (lower_char c) (toLowerCase r)
  end.

(** [String.prototype.includes]: [sub] occurs in [s]. *)
Fixpoint includes (s sub : string) : bool :=
  String.prefix sub s ||
  match s with
  | EmptyString => false
  | String _ r => includes r sub
  end.

(** [Array.prototype.join] on an array of strings. *)
Fixpoint join (sep : string) (l : list string) : string :=
  match l with
  | [] => ""
  | [x] => x
  | x :: r => x ++ sep ++ join sep r
  end.

(** [Array.prototype.includes] on an array of strings. *)
Definition Array_includes (l : list string) (x : string) : bool :=
  bool_decide (x ∈ l).

(** [String.prototype.replace] with a string pattern: the first
    occurrence of the pattern is replaced, and in the replacement text
    [$$], [$&], [$`] and [$'] stand for a dollar sign, the matched text,
    the text before it and the text after it. *)
Fixpoint find (s pat : string) : option (string * string) :=
  if String.prefix pat s then Some ("", skip (String.length pat) s)
  else match s with
       | EmptyString => None
       | String c r =>
           match find r pat with
           | Some (before, after) => Some (String c before, after)
           | None => None
           end
       end.

Fixpoint GetSubstitution (matched before after template : string) : string :=
  match template with
  | EmptyString => ""
  | String c r =>
      if Ascii.eqb c "$" then
        match r with
        | String d r' =>
            if Ascii.eqb d "$" then
              String "$" (GetSubstitution matched before after r')
            else if Ascii.eqb d "&" then
              matched ++ GetSubstitution matched before after r'
            else if Ascii.eqb d "`" then
              before ++ GetSubstitution matched before after r'
            else if Ascii.eqb d "'" then
              after ++ GetSubstitution matched before after r'
            else String c (GetSubstitution matched before after r)
        | EmptyString => "$"
        end
      else String c (GetSubstitution matched before after r)
  end.

Definition replace (s pat replacement : string) : string :=
  match find s pat with
  | Some (before, after) =>
      before ++ GetSubstitution pat before after replacement ++ after
  | None => s
  end.

(** *** White space

    [white_space s] is the number of bytes of the white-space or
    line-terminator character [s] starts with, [0] when it starts with
    none: TAB, LF, VT, FF, CR, SP, U+00A0, U+1680, U+2000-U+200A, U+2028,
    U+2029, U+202F, U+205F, U+3000 and U+FEFF. *)
Definition white_space (s : string) : nat :=
  match s with
  | String a r =>
      let a := code a in
      if ((9 <=? a) && (a <=? 13)) || (a =? 32) then 1%nat
      else match r with
      | String b r' =>
          let b := code b in
          if (a =? 194) && (b =? 160) then 2%nat
          else match r' with
          | String c _ =>
              let c := code c in
              if (a =? 225) && (b =? 154) && (c =? 128) then 3%nat
              else if (a =? 226) && (b =? 128) &&
                      (((128 <=? c) && (c <=? 138)) || (c =? 168) ||
                       (c =? 169) || (c =? 175)) then 3%nat
              else if (a =? 226) && (b =? 129) && (c =? 159) then 3%nat
              else if (a =? 227) && (b =? 128) && (c =? 128) then 3%nat
              else if (a =? 239) && (b =? 187) && (c =? 191) then 3%nat
              else 0%nat
          | EmptyString => 0%nat
          end
      | EmptyString => 0%nat
      end
  | EmptyString => 0%nat
  end.

Fixpoint trimStart_fuel (fuel : nat) (s : string) : string :=
  match fuel with
  | O => s
  | S fuel' =>
      match white_space s with
      | O => s
      | n => trimStart_fuel fuel' (skip n s)
      end
  end.

Definition trimStart (s : string) : string :=
  trimStart_fuel (String.length s) s.

(** *** Numeric literals *)

Fixpoint scan_digits (s : string) (acc count : Z) : Z * Z * string :=
  match s with
  | String c r =>
      if is_digit c then scan_digits r (10 * acc + digit_value c) (count + 1)
      else (acc, count, s)
  | EmptyString => (acc, count, s)
  end.

(** An exponent part [e], [e+] or [e-] followed by digits; when there is
    none, nothing is consumed. *)
Definition scan_exponent (s : string) : Z * string :=
  match s with
  | String c r =>
      if Ascii.eqb c "e" || Ascii.eqb c "E" then
        let '(sign, r1) :=
          match r with
          | String d r' =>
              if Ascii.eqb d "+" then (1, r')
              else if Ascii.eqb d "-" then (-1, r')
              else (1, r)
          | EmptyString => (1, r)
          end in
        let '(v, n, r2) := scan_digits r1 0 0 in
        if n =? 0 then (0, s) else (sign * v, r2)
      else (0, s)
  | EmptyString => (0, s)
  end.

(** The longest prefix of [s] that is a [StrUnsignedDecimalLiteral]:
    [Infinity], or digits with an optional fraction and exponent. *)
Definition scan_unsigned_decimal (s : string) : option (number * string) :=
  if String.prefix "Infinity" s then Some (PosInf, skip 8 s)
  else
    let '(i, ni, r1) := scan_digits s 0 0 in
    let '(m, nf, r2) :=
      match r1 with
      | String c r =>
          if Ascii.eqb c "." then
            let '(m, nf, r') := scan_digits r i 0 in
            if (ni =? 0) && (nf =? 0) then (i, 0, r1) else (m, nf, r')
          else (i, 0, r1)
      | EmptyString => (i, 0, r1)
      end in
    if (ni =? 0) && (nf =? 0) then None
    else let '(e, r3) := scan_exponent r2 in
         Some (decimal m (e - nf), r3).

Definition scan_decimal (s : string) : option (number * string) :=
  match s with
  | String c r =>
      if Ascii.eqb c "+" then scan_unsigned_decimal r
      else if Ascii.eqb c "-" then
        match scan_unsigned_decimal r with
        | Some (v, r') => Some (negate v, r')
        | None => None
        end
      else scan_unsigned_decimal s
  | EmptyString => None
  end.

(** [parseFloat(s)]: leading white space is skipped, the longest prefix
    that is a decimal literal is converted, and [NaN] is returned when
    there is no such prefix. *)
Definition parseFloat (s : string) : number :=
  match scan_decimal (trimStart s) with
  | Some (v, _) => v
  | None => NaN
  end.

(** Digits in radix 2, 8 or 16, for the literals [0b..], [0o..], [0x..]. *)
Definition radix_digit (radix : Z) (c : ascii) : option Z :=
  let a := code c in
  let v := if (48 <=? a) && (a <=? 57) then a - 48
           else if (97 <=? a) && (a <=? 102) then a - 87
           else if (65 <=? a) && (a <=? 70) then a - 55
           else 99 in
  if v <? radix then Some v else None.

Fixpoint scan_radix (radix : Z) (s : string) (acc count : Z) : Z * Z * string :=
  match s with
  | String c r =>
      match radix_digit radix c with
      | Some v => scan_radix radix r (radix * acc + v) (count + 1)
      | None => (acc, count, s)
      end
  | EmptyString => (acc, count, s)
  end.

Definition scan_non_decimal (s : string) : option (number * string) :=
  match s with
  | String z (String x r) =>
      if Ascii.eqb z "0" then
        let radix :=
          if Ascii.eqb x "x" || Ascii.eqb x "X" then 16
          else if Ascii.eqb x "o" || Ascii.eqb x "O" then 8
          else if Ascii.eqb x "b" || Ascii.eqb x "B" then 2
          else 0 in
        if radix =? 0 then None
        else let '(v, n, r') := scan_radix radix r 0 0 in
             if n =? 0 then None else Some (to_double (inject_Z v), r')
      else None
  | _ => None
  end.

(** [StringToNumber]: the whole string, white space at both ends apart,
    must be a numeric literal; the empty string is [0]. *)
Definition StringToNumber (s : string) : number :=
  let t := trimStart s in
  match t with
  | EmptyString => num 0
  | _ =>
      match scan_non_decimal t with
      | Some (v, r) =>
          match trimStart r with EmptyString => v | _ => NaN end
      | None =>
          match scan_decimal t with
          | Some (v, r) =>
              match trimStart r with EmptyString => v | _ => NaN end
          | None => NaN
          end
      end
  end.

(** ** Values and [JSON.parse]

    The values [JSON.parse] produces.  The members of an object are kept
    in insertion order, one entry per key. *)

#[warnings="-register-all"]
Inductive JSON : Type :=
| JNull
| JBool (b : bool)
| JNumber (n : number)
| JString (s : string)
| JArray (elements : list JSON)
| JObject (members : list (string * JSON)).

Fixpoint lookup_member (k : string) (m : list (string * JSON)) : option JSON :=
  match m with
  | [] => None
  | (k', v) :: r => if String.eqb k k' then Some v else lookup_member k r
  end.

(** A repeated key keeps its first position and takes the last value. *)
Fixpoint set_member (m : list (string * JSON)) (k : string) (v : JSON)
  : list (string * JSON) :=
  match m with
  | [] => [(k, v)]
  | (k', v') :: r =>
      if String.eqb k k' then (k, v) :: r else (k', v') :: set_member r k v
  end.

(** [ToBoolean]. *)
Definition truthy (v : JSON) : bool :=
  match v with
  | JNull => false
  | JBool b => b
  | JNumber n => number_truthy n
  | JString s => negb (String.eqb s "")
  | JArray _ | JObject _ => true
  end.

(** Converting a parsed object to a primitive calls its [toString]; an
    object with a member of that name has no callable one, and the
    conversion throws a [TypeError].  An array converts its elements. *)
Fixpoint conversion_throws (v : JSON) : bool :=
  match v with
  | JObject m =>
      match lookup_member "toString" m with Some _ => true | None => false end
  | JArray l => existsb conversion_throws l
  | _ => false
  end.

(** [ToNumber] where the conversion does not throw.  An array is
    converted through its text, the texts of its elements separated by
    commas.  With two elements or more the text has a comma and is no
    numeric literal.  With one element it is the text of that element:
    empty for [null], and for a number a literal that reads back as the
    same number.  An object's text is ["[object Object]"]. *)
Fixpoint to_number (v : JSON) : number :=
  match v with
  | JNull => num 0
  | JBool b => if b then num 1 else num 0
  | JNumber n => n
  | JString s => StringToNumber s
  | JArray [] => num 0
  | JArray [x] =>
      match x with
      | JNull => num 0
      | JBool _ => NaN
      | JNumber n => n
      | JString s => StringToNumber s
      | JArray _ => to_number x
      | JObject _ => NaN
      end
  | JArray _ => NaN
  | JObject _ => NaN
  end.

(** [ToNumber]; [None] stands for a thrown [TypeError]. *)
Definition ToNumber (v : JSON) : option number :=
  if conversion_throws v then None else Some (to_number v).

(** Reading the property [k] of a parsed value, for a name [k] that no
    built-in prototype defines (all the names read by the services are
    such): [inl tt] is a thrown [TypeError] (the value is [null]),
    [inr None] is [undefined]. *)
Definition get (v : JSON) (k : string) : unit + option JSON :=
  match v with
  | JNull => inl tt
  | JObject m => inr (lookup_member k m)
  | _ => inr None
  end.

(** [v || d], for a possibly undefined [v]. *)
Definition or_else (v : option JSON) (d : JSON) : JSON :=
  match v with
  | Some j => if truthy j then j else d
  | None => d
  end.

(** *** The JSON grammar *)

Definition dquote : ascii := "034"%char.

Fixpoint skip_ws (s : string) : string :=
  match s with
  | String c r =>
      let a := code c in
      if (a =? 32) || (a =? 9) || (a =? 10) || (a =? 13) then skip_ws r else s
  | EmptyString => s
  end.

Definition hex4 (s : string) : option (Z * string) :=
  match s with
  | String a (String b (String c (String d r))) =>
      match radix_digit 16 a, radix_digit 16 b,
            radix_digit 16 c, radix_digit 16 d with
      | Some a, Some b, Some c, Some d =>
          Some (((a * 16 + b) * 16 + c) * 16 + d, r)
      | _, _, _, _ => None
      end
  | _ => None
  end.

(** The bytes that stand for the code unit [u]. *)
Definition code_unit (u : Z) : string :=
  if u <? 128 then String (chr u) ""
  else if u <? 2048 then
    String (chr (192 + u / 64)) (String (chr (128 + u mod 64)) "")
  else
    String (chr (224 + u / 4096))
      (String (chr (128 + (u / 64) mod 64))
         (String (chr (128 + u mod 64)) "")).

Definition simple_escape (c : ascii) : option ascii :=
  if Ascii.eqb c dquote then Some dquote
  else if Ascii.eqb c "\" then Some "\"%char
  else if Ascii.eqb c "/" then Some "/"%char
  else if Ascii.eqb c "b" then Some "008"%char
  else if Ascii.eqb c "f" then Some "012"%char
  else if Ascii.eqb c "n" then Some "010"%char
  else if Ascii.eqb c "r" then Some "013"%char
  else if Ascii.eqb c "t" then Some "009"%char
  else None.

(** The text of a string literal, from after its opening quote. *)
Fixpoint scan_string (fuel : nat) (s : string) : option (string * string) :=
  match fuel with
  | O => None
  | S fuel' =>
      match s with
      | EmptyString => None
      | String c r =>
          if Ascii.eqb c dquote then Some ("", r)
          else if code c <? 32 then None
          else if Ascii.eqb c "\" then
            match r with
            | EmptyString => None
            | String e r' =>
                match simple_escape e with
                | Some b =>
                    match scan_string fuel' r' with
                    | Some (t, rest) => Some (String b t, rest)
                    | None => None
                    end
                | None =>
                    if Ascii.eqb e "u" then
                      match hex4 r' with
                      | Some (u, r'') =>
                          match scan_string fuel' r'' with
                          | Some (t, rest) => Some ((code_unit u ++ t)%string, rest)
                          | None => None
                          end
                      | None => None
                      end
                    else None
                end
            end
          else
            match scan_string fuel' r with
            | Some (t, rest) => Some (String c t, rest)
            | None => None
            end
      end
  end.

(** A number: an optional minus sign, an integer part without a leading
    zero (unless it is [0] itself), an optional fraction of one digit or
    more, and an optional exponent of one digit or more. *)
Definition scan_json_number (s : string) : option (number * string) :=
  let '(negative, r0) :=
    match s with
    | String c r => if Ascii.eqb c "-" then (true, r) else (false, s)
    | EmptyString => (false, s)
    end in
  let '(i, ni, r1) := scan_digits r0 0 0 in
  if (ni =? 0) || (String.prefix "0" r0 && (1 <? ni)) then None
  else
    let fraction :=
      match r1 with
      | String c r =>
          if Ascii.eqb c "." then
            let '(m, nf, r') := scan_digits r i 0 in
            if nf =? 0 then None else Some (m, nf, r')
          else Some (i, 0, r1)
      | EmptyString => Some (i, 0, r1)
      end in
    match fraction with
    | None => None
    | Some (m, nf, r2) =>
        let exponent :=
          match r2 with
          | String c _ =>
              if Ascii.eqb c "e" || Ascii.eqb c "E" then
                let '(e, r3) := scan_exponent r2 in
                if String.eqb r3 r2 then None else Some (e, r3)
              else Some (0, r2)
          | EmptyString => Some (0, r2)
          end in
        match exponent with
        | None => None
        | Some (e, r3) =>
            let v := decimal m (e - nf) in
            Some (if negative : bool then negate v else v, r3)
        end
    end.

Fixpoint parse_value (fuel : nat) (s : string) : option (JSON * string) :=
  match fuel with
  | O => None
  | S fuel' =>
      match skip_ws s with
      | EmptyString => None
      | String c r as t =>
          if Ascii.eqb c "{" then
            if String.prefix "}" (skip_ws r) then Some (JObject [], skip 1 (skip_ws r))
            else parse_members fuel' r []
          else if Ascii.eqb c "[" then
            if String.prefix "]" (skip_ws r) then Some (JArray [], skip 1 (skip_ws r))
            else parse_elements fuel' r []
          else if Ascii.eqb c dquote then
            match scan_string (S (String.length r)) r with
            | Some (str, rest) => Some (JString str, rest)
            | None => None
            end
          else if String.prefix "true" t then Some (JBool true, skip 4 t)
          else if String.prefix "false" t then Some (JBool false, skip 5 t)
          else if String.prefix "null" t then Some (JNull, skip 4 t)
          else
            match scan_json_number t with
            | Some (n, rest) => Some (JNumber n, rest)
            | None => None
            end
      end
  end
with parse_elements (fuel : nat) (s : string) (acc : list JSON)
  : option (JSON * string) :=
  match fuel with
  | O => None
  | S fuel' =>
      match parse_value fuel' s with
      | Some (v, r) =>
          match skip_ws r with
          | String c r' =>
              if Ascii.eqb c "," then parse_elements fuel' r' (acc ++ [v])
              else if Ascii.eqb c "]" then Some (JArray (acc ++ [v]), r')
              else None
          | EmptyString => None
          end
      | None => None
      end
  end
with parse_members (fuel : nat) (s : string) (acc : list (string * JSON))
  : option (JSON * string) :=
  match fuel with
  | O => None
  | S fuel' =>
      match skip_ws s with
      | String q r =>
          if Ascii.eqb q dquote then
            match scan_string (S (String.length r)) r with
            | Some (k, r1) =>
                match skip_ws r1 with
                | String colon r2 =>
                    if Ascii.eqb colon ":" then
                      match parse_value fuel' r2 with
                      | Some (v, r3) =>
                          match skip_ws r3 with
                          | String c r4 =>
                              if Ascii.eqb c "," then
                                parse_members fuel' r4 (set_member acc k v)
                              else if Ascii.eqb c "}" then
                                Some (JObject (set_member acc k v), r4)
                              else None
                          | EmptyString => None
                          end
                      | None => None
                      end
                    else None
                | EmptyString => None
                end
            | None => None
            end
          else None
      | EmptyString => None
      end
  end.

(** [JSON.parse(text)]; [None] stands for a thrown [SyntaxError]. *)
Definition JSON_parse (text : string) : option JSON :=
  match parse_value (2 * String.length text + 2) text with
  | Some (v, r) =>
      match skip_ws r with
      | EmptyString => Some v
      | _ => None
      end
  | None => None
  end.

(** ** [Array.prototype.sort] and [Array.prototype.slice]

    [sort(comparefn)] is stable, and a [NaN] result of [comparefn] counts
    as zero: [x] goes before [y] exactly when [comparefn(x, y) < 0].
    Where the comparator is consistent this fixes the result, and it is
    the one computed here by insertion from the right. *)
Definition sorts_before {A : Type} (comparefn : A -> A -> number) (x y : A)
  : bool :=
  lt (comparefn x y) (num 0).

Fixpoint insert_sorted {A : Type} (comparefn : A -> A -> number) (x : A)
    (l : list A) : list A :=
  match l with
  | [] => [x]
  | y :: r =>
      if sorts_before comparefn y x then y :: insert_sorted comparefn x r
      else x :: y :: r
  end.

Definition sort {A : Type} (comparefn : A -> A -> number) (l : list A)
  : list A :=
  fold_right (insert_sorted comparefn) [] l.

(** [slice(0, end)]: a negative [end] counts from the end of the array. *)
Definition slice_end (len : Z) (end_ : number) : Z :=
  match ToIntegerOrInfinity end_ with
  | IMinusInf => 0
  | IInt z => if z <? 0 then Z.max (len + z) 0 else Z.min z len
  | IPlusInf => len
  end.

Definition slice0 {A : Type} (l : list A) (end_ : number) : list A :=
  firstn (Z.to_nat (slice_end (Z.of_nat (length l)) end_)) l.

(** [ToBoolean] on a string. *)
Definition nonempty (s : string) : bool := negb (String.eqb s "").

(** ** Promises

    The outcome of awaiting a promise: it was rejected, or it resolved to
    a value. *)
Inductive promise (A : Type) : Type :=
| Rejected
| Resolved (value : A).

Arguments Rejected {A}.
Arguments Resolved {A} value.

End JS.

(* ===================================================================== *)
(** * [memory.types.ts]                                                   *)
(* ===================================================================== *)

Module Types.
Import JS.

(** A [linked_memories] field holds a reference to an array, and the
    memory manager changes such arrays in place ([push]) or replaces the
    reference (after [filter]).  Two records, or a record and its caller,
    may hold the same array, so the arrays live in a heap of their own
    and a record holds a reference into it. *)
Definition ref : Type := nat.

Record Conversation : Type := {
  agent_messages : list string;
  user_messages : list string
}.

Record Context : Type := {
  focus_area : string;
  user_state : string;
  scene_details : string;
  interaction_type : string;
  extension : list (string * JSON)
}.

Record Memory : Type := {
  id : string;
  text : string;
  glimpse_id : string;
  observation : string;
  conversation : Conversation;
  context : Context;
  importance : number;
  emotion_score : number;
  linked_memories : ref;
  created_at : number;
  last_accessed : option number;
  metadata : option (list (string * JSON))
}.

(** [AgentPersonality].  [formatPersonality] tests its four parts for
    presence, so each may be missing; [traits] lists the entries in the
    order of [Object.entries]. *)
Record Agent : Type := {
  agent_id : string;
  name : string;
  description : string
}.

Record Communication : Type := {
  style : string;
  tone : string;
  patterns : list string
}.

Record AgentPersonality : Type := {
  agent : option Agent;
  traits : option (list (string * number));
  values : option (list string);
  communication : option Communication
}.

Record PromptTemplate : Type := {
  system : string;
  context_template : string;
  memory_prefix : string;
  memory_suffix : string;
  personality_prefix : string;
  personality_suffix : string
}.

(** [MemorySearchParams]: every criterion may be missing. *)
Record MemorySearchParams : Type := {
  p_query : option string;
  p_importance_threshold : option number;
  p_emotion_threshold : option number;
  p_focus_area : option string;
  p_limit : option number;
  p_from_date : option number;
  p_to_date : option number;
  p_memories : option (list Memory);
  p_personality : option AgentPersonality
}.

End Types.

(* ===================================================================== *)
(** * [ClassificationService]                                             *)
(* ===================================================================== *)

Module Classification.
Import JS.
Local Open Scope string_scope.

(** The completion capability, [LLMProvider.generateCompletion]: given a
    prompt it returns a promise of a text. *)
Definition LLMProvider : Type := string -> promise string.

(** [NarrativeClassification].  The text fields are copied from the
    parsed response without a check of their type, so they hold values;
    the two scores are the results of [Math.max] and hold numbers. *)
Record NarrativeClassification : Type := {
  observation : JSON;
  user_state : option JSON;
  scene_details : option JSON;
  glimpse_id : option JSON;
  importance : number;
  emotion_score : number;
  focus_area : JSON;
  interaction_type : JSON;
  suggested_links : list JSON
}.

(** A computation that may throw is an [option]; the exception itself is
    only logged by the handlers, so it is not recorded.  Sequencing is
    the bind [x ← m; k] of the option monad. *)
Abbreviation throws := option (only parsing).

(** [try m catch => handler]. *)
Definition try_catch {A : Type} (m : throws A) (handler : A) : A :=
  match m with
  | Some a => a
  | None => handler
  end.

(** Awaiting a rejected promise throws. *)
Definition await {A : Type} (p : promise A) : throws A :=
  match p with
  | Resolved value => Some value
  | Rejected => None
  end.

Definition read (v : JSON) (k : string) : throws (option JSON) :=
  match get v k with
  | inl _ => None
  | inr r => Some r
  end.

Definition half : number := Fin (1 # 2).

(** [clamp(value, min, max)]. *)
Definition clamp (value min max : number) : number :=
  Math_max min (Math_min max value).

(** [getDefaultClassification()]. *)
Definition getDefaultClassification : NarrativeClassification := {|
  observation := JString "";
  user_state := None;
  scene_details := None;
  glimpse_id := None;
  importance := half;
  emotion_score := num 0;
  focus_area := JString "general";
  interaction_type := JString "general";
  suggested_links := []
|}.

Definition q : string := String dquote "".

Definition contextPrompt (text : string) (userContext : option string) : string :=
  match userContext with
  | Some u =>
      if nonempty u then
        "User message: " ++ q ++ u ++ q ++ "
AI response: " ++ q ++ text ++ q
      else "Text to analyze: " ++ q ++ text ++ q
  | None => "Text to analyze: " ++ q ++ text ++ q
  end.

Definition classificationPrompt (text : string) (userContext : option string)
  : string :=
  "Analyze the following interaction and provide a JSON response. Only respond with valid JSON, no markdown:
    {
      " ++ q ++ "observation" ++ q ++ ": " ++ q ++ "Write a narrative description of the interaction, including behavioral and emotional observations" ++ q ++ ",
      " ++ q ++ "user_state" ++ q ++ ": " ++ q ++ "A simple string describing user's emotional and behavioral state" ++ q ++ ",
      " ++ q ++ "scene_details" ++ q ++ ": " ++ q ++ "A simple string describing contextual and environmental details" ++ q ++ ",
      " ++ q ++ "importance" ++ q ++ ": 0.5,
      " ++ q ++ "emotion_score" ++ q ++ ": 0,
      " ++ q ++ "focus_area" ++ q ++ ": " ++ q ++ "general" ++ q ++ ",
      " ++ q ++ "interaction_type" ++ q ++ ": " ++ q ++ "general" ++ q ++ ",
      " ++ q ++ "suggested_links" ++ q ++ ": []
    }
    
    " ++ contextPrompt text userContext ++ "
    ".

(** The object literal of [classifyWithLLM]: each field of the parsed
    response with its default; the two scores go through [Math.min] and
    [Math.max], which convert their argument to a number first. *)
Definition normalize (result : JSON) : throws NarrativeClassification :=
  obs ← read result "observation";
  ust ← read result "user_state";
  scn ← read result "scene_details";
  imp ← read result "importance";
  imp ← ToNumber (or_else imp (JNumber half));
  emo ← read result "emotion_score";
  emo ← ToNumber (or_else emo (JNumber (num 0)));
  foc ← read result "focus_area";
  itt ← read result "interaction_type";
  lnk ← read result "suggested_links";
  Some {|
    observation := or_else obs (JString "User and AI engaged in conversation.");
    user_state := Some (or_else ust (JString "Neutral, engaging in conversation"));
    scene_details := Some (or_else scn (JString
      "The interaction is at an early stage, with no specific context established yet."));
    glimpse_id := None;
    importance := clamp imp (num 0) (num 1);
    emotion_score := clamp emo (num (-1)) (num 1);
    focus_area := or_else foc (JString "general");
    interaction_type := or_else itt (JString "general");
    suggested_links :=
      match lnk with
      | Some (JArray l) => l
      | _ => []
      end
  |}.

(** [classifyWithLLM(text, userContext)]. *)
Definition classifyWithLLM (llm : LLMProvider) (text : string)
    (userContext : option string) : throws NarrativeClassification :=
  let prompt := classificationPrompt text userContext in
  Some (try_catch
          (response ← await (llm prompt);
           result ← JSON_parse response;
           normalize result)
          getDefaultClassification).

(** [classifyMemory(text, userContext)]. *)
Definition classifyMemory (llm : LLMProvider) (text : string)
    (userContext : option string) : NarrativeClassification :=
  try_catch (classifyWithLLM llm text userContext) getDefaultClassification.

(** [classifyBatch(texts)]. *)
Definition classifyBatch (llm : LLMProvider) (texts : list string)
  : list NarrativeClassification :=
  map (fun text => classifyMemory llm text None) texts.

Definition similarityPrompt (text1 text2 : string) : string :=
  "Compare these two texts and rate their similarity from 0 to 1, where 1 means identical in meaning and 0 means completely unrelated:

Text 1: " ++ q ++ text1 ++ q ++ "
Text 2: " ++ q ++ text2 ++ q ++ "

Respond with only a number between 0 and 1.".

(** [analyzeSimilarity(text1, text2)]. *)
Definition analyzeSimilarity (llm : LLMProvider) (text1 text2 : string)
  : number :=
  try_catch
    (response ← await (llm (similarityPrompt text1 text2));
     let similarity := parseFloat response in
     Some (clamp similarity (num 0) (num 1)))
    (num 0).

(** A field of the response that is missing, or holds a number. *)
Definition numeric_or_missing (v : option JSON) : Prop :=
  match v with
  | None => True
  | Some (JNumber n) => isNaN n = false
  | Some _ => False
  end.

(** A response that is valid JSON and gives [importance] as a text. *)
Definition importance_as_text : string :=
  "{" ++ q ++ "importance" ++ q ++ ":" ++ q ++ "high" ++ q ++ "}".

End Classification.

(* ===================================================================== *)
(** * [MemoryManager]                                                     *)
(* ===================================================================== *)

Module MemoryStore.
Import JS Types.

(** ** Arguments and state *)

(** An array of identifiers handed in by a caller: one that is already
    in the heap (the caller kept it, or took it from a record), or a new
    one with the given contents. *)
Inductive array_argument : Type :=
| Existing (r : ref)
| Literal (contents : list string).

(** The argument of [createMemory]: a [Memory] without [id],
    [created_at] and [glimpse_id].  The three fields the method defaults
    may be missing. *)
Record Draft : Type := {
  d_text : string;
  d_observation : option string;
  d_conversation : option Conversation;
  d_context : Context;
  d_importance : number;
  d_emotion_score : number;
  d_linked_memories : option array_argument;
  d_last_accessed : option number;
  d_metadata : option (list (string * JSON))
}.

(** [Partial<Memory>]: every field may be missing. *)
Record Partial : Type := {
  u_id : option string;
  u_text : option string;
  u_glimpse_id : option string;
  u_observation : option string;
  u_conversation : option Conversation;
  u_context : option Context;
  u_importance : option number;
  u_emotion_score : option number;
  u_linked_memories : option array_argument;
  u_created_at : option number;
  u_last_accessed : option number;
  u_metadata : option (list (string * JSON))
}.

(** The state: the arrays, and [this.memories], a [Map] from identifiers
    to records, which keeps its entries in insertion order. *)
Record Store : Type := {
  arrays : gmap ref (list string);
  memories : list (string * Memory)
}.

(** ** [Map] *)

Fixpoint Map_get (k : string) (m : list (string * Memory)) : option Memory :=
  match m with
  | [] => None
  | (k', v) :: r => if String.eqb k k' then Some v else Map_get k r
  end.

(** [set] replaces the value of a key that is present, in place, and
    appends a key that is not. *)
Fixpoint Map_set (k : string) (v : Memory) (m : list (string * Memory))
  : list (string * Memory) :=
  match m with
  | [] => [(k, v)]
  | (k', v') :: r =>
      if String.eqb k k' then (k, v) :: r else (k', v') :: Map_set k v r
  end.

Fixpoint Map_delete (k : string) (m : list (string * Memory))
  : list (string * Memory) :=
  match m with
  | [] => []
  | (k', v') :: r =>
      if String.eqb k k' then Map_delete k r else (k', v') :: Map_delete k r
  end.

Definition Map_values (m : list (string * Memory)) : list Memory :=
  map snd m.

(** ** Arrays *)

(** The contents of the array at [r]. *)
Definition contents (h : gmap ref (list string)) (r : ref) : list string :=
  default [] (h !! r).

(** [array.push(x)]. *)
Definition push (h : gmap ref (list string)) (r : ref) (x : string)
  : gmap ref (list string) :=
  <[r := contents h r ++ [x]]> h.

(** [if (!array.includes(x)) array.push(x)]. *)
Definition push_unless_included (h : gmap ref (list string)) (r : ref)
    (x : string) : gmap ref (list string) :=
  if Array_includes (contents h r) x then h else push h r x.

(** A new array. *)
Definition allocate (h : gmap ref (list string)) (l : list string)
  : gmap ref (list string) * ref :=
  let r := fresh (dom h) in (<[r := l]> h, r).

Definition pass (h : gmap ref (list string)) (a : array_argument)
  : gmap ref (list string) * ref :=
  match a with
  | Existing r => (h, r)
  | Literal l => allocate h l
  end.

(** The linked identifiers of a record of the store. *)
Definition linked (s : Store) (m : Memory) : list string :=
  contents (arrays s) (linked_memories m).

(** ** The operations

    Each operation gives the state of the manager after the call.
    [None] stands for the rejection with "not found", which happens
    before any change of the state.  [saveMemories] hands the values of
    the map to the storage provider and [emit] notifies the listeners;
    neither changes the map or the arrays, and when the storage provider
    fails the state has been changed already, to the one given here. *)

(** [initialize()], from the array the storage provider loads. *)
Definition initialize (loaded : list Memory) : list (string * Memory) :=
  fold_left (fun m memory => Map_set (id memory) memory m) loaded [].

(** [createMemory(memory)].  [new_id], [new_glimpse_id] and [now] are the
    values of the expressions built from [Date.now()] and
    [Math.random()]. *)
Definition createMemory (memory : Draft) (new_id new_glimpse_id : string)
    (now : number) (s : Store) : Store * Memory :=
  let '(h, links) :=
    match d_linked_memories memory with
    | Some a => pass (arrays s) a
    | None => allocate (arrays s) []
    end in
  let newMemory := {|
    id := new_id;
    text := d_text memory;
    glimpse_id := new_glimpse_id;
    observation := default "" (d_observation memory);
    conversation :=
      default {| agent_messages := []; user_messages := [] |}
              (d_conversation memory);
    context := d_context memory;
    importance := d_importance memory;
    emotion_score := d_emotion_score memory;
    linked_memories := links;
    created_at := now;
    last_accessed := d_last_accessed memory;
    metadata := d_metadata memory
  |} in
  ({| arrays := h; memories := Map_set new_id newMemory (memories s) |},
   newMemory).

(** [updateMemory(id, updates)]. *)
Definition updateMemory (id0 : string) (updates : Partial) (s : Store)
  : option (Store * Memory) :=
  match Map_get id0 (memories s) with
  | None => None
  | Some memory =>
      let '(h, links) :=
        match u_linked_memories updates with
        | Some a => pass (arrays s) a
        | None => (arrays s, linked_memories memory)
        end in
      let updatedMemory := {|
        id := id0;
        text := default (text memory) (u_text updates);
        glimpse_id := glimpse_id memory;
        observation := default (observation memory) (u_observation updates);
        conversation := default (conversation memory) (u_conversation updates);
        context := default (context memory) (u_context updates);
        importance := default (importance memory) (u_importance updates);
        emotion_score :=
          default (emotion_score memory) (u_emotion_score updates);
        linked_memories := links;
        created_at := created_at memory;
        last_accessed :=
          match u_last_accessed updates with
          | Some t => Some t
          | None => last_accessed memory
          end;
        metadata :=
          match u_metadata updates with
          | Some t => Some t
          | None => metadata memory
          end
      |} in
      Some ({| arrays := h; memories := Map_set id0 updatedMemory (memories s) |},
            updatedMemory)
  end.

Definition set_linked_memories (m : Memory) (r : ref) : Memory := {|
  id := id m;
  text := text m;
  glimpse_id := glimpse_id m;
  observation := observation m;
  conversation := conversation m;
  context := context m;
  importance := importance m;
  emotion_score := emotion_score m;
  linked_memories := r;
  created_at := created_at m;
  last_accessed := last_accessed m;
  metadata := metadata m
|}.

(** The loop of [deleteMemory] over the remaining entries: a record whose
    array holds [id0] gets a new, filtered array. *)
Fixpoint cascade (id0 : string) (h : gmap ref (list string))
    (entries : list (string * Memory))
  : gmap ref (list string) * list (string * Memory) :=
  match entries with
  | [] => (h, [])
  | (k, mem) :: rest =>
      let links := contents h (linked_memories mem) in
      if Array_includes links id0 then
        let '(h1, r) :=
          allocate h
            (List.filter (fun linkId => negb (String.eqb linkId id0)) links) in
        let '(h2, rest') := cascade id0 h1 rest in
        (h2, (k, set_linked_memories mem r) :: rest')
      else
        let '(h2, rest') := cascade id0 h rest in
        (h2, (k, mem) :: rest')
  end.

(** [deleteMemory(id)]. *)
Definition deleteMemory (id0 : string) (s : Store) : option Store :=
  match Map_get id0 (memories s) with
  | None => None
  | Some _ =>
      let '(h, entries) :=
        cascade id0 (arrays s) (Map_delete id0 (memories s)) in
      Some {| arrays := h; memories := entries |}
  end.

(** [linkMemories(sourceId, targetId)]. *)
Definition linkMemories (sourceId targetId : string) (s : Store)
  : option Store :=
  match Map_get sourceId (memories s), Map_get targetId (memories s) with
  | Some sourceMemory, Some targetMemory =>
      let h := arrays s in
      let h1 := push_unless_included h (linked_memories sourceMemory) targetId in
      let h2 := push_unless_included h1 (linked_memories targetMemory) sourceId in
      Some {| arrays := h2; memories := memories s |}
  | _, _ => None
  end.

Definition set_last_accessed (m : Memory) (t : number) : Memory := {|
  id := id m;
  text := text m;
  glimpse_id := glimpse_id m;
  observation := observation m;
  conversation := conversation m;
  context := context m;
  importance := importance m;
  emotion_score := emotion_score m;
  linked_memories := linked_memories m;
  created_at := created_at m;
  last_accessed := Some t;
  metadata := metadata m
|}.

(** [getMemory(id)]. *)
Definition getMemory (id0 : string) (now : number) (s : Store)
  : Store * option Memory :=
  match Map_get id0 (memories s) with
  | Some memory =>
      let memory' := set_last_accessed memory now in
      ({| arrays := arrays s; memories := Map_set id0 memory' (memories s) |},
       Some memory')
  | None => (s, None)
  end.

(** [getAllMemories()]. *)
Definition getAllMemories (s : Store) : list Memory := Map_values (memories s).

(** ** [searchMemories] *)

Definition matches_query (query : string) (memory : Memory) : bool :=
  includes (toLowerCase (text memory)) query
  || includes (toLowerCase (focus_area (context memory))) query
  || (nonempty (observation memory)
      && includes (toLowerCase (observation memory)) query).

(** The comparator [(a, b) => b.importance - a.importance]. *)
Definition by_importance (a b : Memory) : number :=
  sub (importance b) (importance a).

(** One [if (criterion) results = results.filter(...)] statement. *)
Definition filter_if {C : Type} (criterion : option C) (applies : C -> bool)
    (keep : C -> Memory -> bool) (results : list Memory) : list Memory :=
  match criterion with
  | Some c => if applies c then List.filter (keep c) results else results
  | None => results
  end.

Definition defined {C : Type} (_ : C) : bool := true.

(** The filters of [searchMemories], in the order of the source. *)
Definition filtered (params : MemorySearchParams) (results : list Memory)
  : list Memory :=
  let results :=
    filter_if (p_query params) nonempty
      (fun q memory => matches_query (toLowerCase q) memory) results in
  let results :=
    filter_if (p_importance_threshold params) defined
      (fun t memory => ge (importance memory) t) results in
  let results :=
    filter_if (p_emotion_threshold params) defined
      (fun t memory => ge (emotion_score memory) t) results in
  let results :=
    filter_if (p_focus_area params) nonempty
      (fun f memory => String.eqb (focus_area (context memory)) f) results in
  let results :=
    filter_if (p_from_date params) number_truthy
      (fun d memory => ge (created_at memory) d) results in
  filter_if (p_to_date params) number_truthy
    (fun d memory => le (created_at memory) d) results.

(** [searchMemories(params)]. *)
Definition searchMemories (params : MemorySearchParams) (s : Store)
  : list Memory :=
  let results :=
    match p_memories params with
    | Some l => l
    | None => Map_values (memories s)
    end in
  let results := filtered params results in
  let results := sort by_importance results in
  match p_limit params with
  | Some n => if number_truthy n then slice0 results n else results
  | None => results
  end.

(** The order of a search result: importance does not increase. *)
Definition ranked_before (x y : Memory) : Prop :=
  ge (importance x) (importance y) = true.

(** The records of a list whose importance is equal to [v], in the order
    of the list. *)
Definition with_importance (v : number) (l : list Memory) : list Memory :=
  List.filter (fun memory => equals (importance memory) v) l.

(** The collection a search starts from. *)
Definition collection (params : MemorySearchParams) (s : Store) : list Memory :=
  match p_memories params with
  | Some l => l
  | None => Map_values (memories s)
  end.

(** ** Sequences of operations *)

Inductive operation : Type :=
| Create (memory : Draft) (new_id new_glimpse_id : string) (now : number)
| Update (id0 : string) (updates : Partial)
| Delete (id0 : string)
| Link (sourceId targetId : string)
| Get (id0 : string) (now : number).

(** The state after one call; a call rejected with "not found" leaves it
    as it was. *)
Definition step (s : Store) (op : operation) : Store :=
  match op with
  | Create memory new_id new_glimpse_id now =>
      fst (createMemory memory new_id new_glimpse_id now s)
  | Update id0 updates =>
      match updateMemory id0 updates s with
      | Some (s', _) => s'
      | None => s
      end
  | Delete id0 =>
      match deleteMemory id0 s with
      | Some s' => s'
      | None => s
      end
  | Link sourceId targetId =>
      match linkMemories sourceId targetId s with
      | Some s' => s'
      | None => s
      end
  | Get id0 now => fst (getMemory id0 now s)
  end.

Definition run (ops : list operation) (s : Store) : Store :=
  fold_left step ops s.

(** What the cascade does to the entries: the keys stay, a record changes
    in its [linked_memories] reference only, and where the references
    are allocated the new array is the old one without the deleted
    identifier. *)
Definition cascaded (id0 : string) (h h' : gmap ref (list string))
    (e e' : string * Memory) : Prop :=
  e'.1 = e.1
  /\ e'.2 = set_linked_memories e.2 (linked_memories e'.2)
  /\ (linked_memories e.2 ∈ dom h ->
      linked_memories e'.2 ∈ dom h'
      /\ contents h' (linked_memories e'.2)
         = List.filter (fun linkId => negb (String.eqb linkId id0))
                       (contents h (linked_memories e.2))).

(** ** Properties of a state *)

(** Every record is stored under its own [id]. *)
Definition keyed_by_id (s : Store) : Prop :=
  forall k m, Map_get k (memories s) = Some m -> id m = k.

(** Every record has its importance in [0,1] and its emotion score in
    [-1,1]. *)
Definition scores_in_range (s : Store) : Prop :=
  forall k m, Map_get k (memories s) = Some m ->
    in_range 0 1 (importance m) /\ in_range (-1) 1 (emotion_score m).

(** The scores a call supplies, in a draft or in an update, are in their
    intervals. *)
Definition supplies_scores_in_range (op : operation) : Prop :=
  match op with
  | Create memory _ _ _ =>
      in_range 0 1 (d_importance memory)
      /\ in_range (-1) 1 (d_emotion_score memory)
  | Update _ updates =>
      (forall x, u_importance updates = Some x -> in_range 0 1 x)
      /\ (forall x, u_emotion_score updates = Some x -> in_range (-1) 1 x)
  | _ => True
  end.

(** The references of the records are allocated, no record has an
    identifier twice among its linked memories, and none has its own. *)
Definition references_allocated (s : Store) : Prop :=
  forall k m, Map_get k (memories s) = Some m ->
    linked_memories m ∈ dom (arrays s).

Definition no_duplicate_links (s : Store) : Prop :=
  forall k m, Map_get k (memories s) = Some m -> NoDup (linked s m).

Definition no_self_link (s : Store) : Prop :=
  forall k m, Map_get k (memories s) = Some m -> k ∉ linked s m.

Definition links_well_formed (s : Store) : Prop :=
  references_allocated s /\ no_duplicate_links s /\ no_self_link s.

(** An array handed in for the record [own] is well formed itself. *)
Definition well_formed_array (h : gmap ref (list string)) (own : string)
    (a : option array_argument) : Prop :=
  match a with
  | None => True
  | Some (Literal l) => NoDup l /\ own ∉ l
  | Some (Existing r) => r ∈ dom h /\ NoDup (contents h r) /\ own ∉ contents h r
  end.

(** A call respects the links: the array it hands in is well formed, and
    it links two records that hold different arrays (so, two different
    records). *)
Definition respects_links (s : Store) (op : operation) : Prop :=
  match op with
  | Create memory new_id _ _ =>
      well_formed_array (arrays s) new_id (d_linked_memories memory)
  | Update id0 updates =>
      well_formed_array (arrays s) id0 (u_linked_memories updates)
  | Link sourceId targetId =>
      forall ma mb,
        Map_get sourceId (memories s) = Some ma ->
        Map_get targetId (memories s) = Some mb ->
        linked_memories ma <> linked_memories mb
  | Delete _ | Get _ _ => True
  end.

Fixpoint respects_links_throughout (s : Store) (ops : list operation) : Prop :=
  match ops with
  | [] => True
  | op :: rest =>
      respects_links s op /\ respects_links_throughout (step s op) rest
  end.

End MemoryStore.

(* ===================================================================== *)
(** * [PromptBuilder]                                                     *)
(* ===================================================================== *)

Module Prompt.
Import JS Types.
Local Open Scope string_scope.

Definition nl : string := String "010"%char "".

(** [DEFAULT_TEMPLATE]. *)
Definition DEFAULT_TEMPLATE : PromptTemplate := {|
  system := "You are an AI assistant with a persistent memory and personality. 
    1. NEVER greet the user if ANY previous interaction exists in Relevant Memories
    2. ALWAYS check memories before responding
    3. If memories contain ANY greeting, respond without new greeting
    
    Your Personality:
    {personality}
    
    Current Context: 
    {context}";
  context_template := "CONVERSATION HISTORY:" ++ nl ++ "{context}";
  memory_prefix := nl ++ "RELEVANT MEMORIES:" ++ nl;
  memory_suffix := nl ++ "END MEMORIES" ++ nl;
  personality_prefix := nl ++ "PERSONALITY TRAITS:" ++ nl;
  personality_suffix := ""
|}.

(** The two capabilities a builder is constructed with, and its
    template.  [getPersonality] is the outcome of the call
    [personalityProvider.getPersonality()]. *)
Record PromptBuilder : Type := {
  template : PromptTemplate;
  searchMemories : MemorySearchParams -> promise (list Memory);
  getPersonality : promise AgentPersonality
}.

Section Formatting.

(** The text of [new Date(t).toLocaleDateString()], which depends on the
    locale of the host, and the text of a number in a template literal. *)
Variable toLocaleDateString : number -> string.
Variable numberToString : number -> string.

(** [formatMemory(memory)]. *)
Definition formatMemory (memory : Memory) : string :=
  let date := toLocaleDateString (created_at memory) in
  "- " ++ date ++ ": " ++ text memory
  ++ " (Importance: " ++ numberToString (importance memory)
  ++ ", Emotional: " ++ numberToString (emotion_score memory) ++ ")".

(** [s || 'undefined']. *)
Definition or_undefined (s : string) : string :=
  if nonempty s then s else "undefined".

(** [formatPersonality(personality)]. *)
Definition formatPersonality (personality : AgentPersonality) : string :=
  let name :=
    match agent personality with
    | Some a => or_undefined (Types.name a)
    | None => "undefined"
    end in
  let description :=
    match agent personality with
    | Some a => or_undefined (Types.description a)
    | None => "undefined"
    end in
  let traits :=
    match Types.traits personality with
    | Some entries =>
        join nl
          (map (fun '(trait, value) =>
                  "- " ++ trait ++ ": " ++ numberToString value) entries)
    | None => "No traits defined"
    end in
  let values :=
    match Types.values personality with
    | Some (v :: vs) => join ", " (v :: vs)
    | _ => "No values defined"
    end in
  let communication :=
    match Types.communication personality with
    | Some c =>
        "- Style: " ++ or_undefined (style c) ++ "
    - Tone: " ++ or_undefined (tone c) ++ "
    - Patterns: " ++ or_undefined (join ", " (patterns c))
    | None =>
        "- Style: undefined" ++ nl ++ "- Tone: undefined" ++ nl
        ++ "- Patterns: undefined"
    end in
  "Name: " ++ name ++ "
    Description: " ++ description ++ "
    Traits:
    " ++ traits ++ "
    Values: " ++ values ++ "
    Communication:
    " ++ communication.

(** The default of the third parameter of [buildPrompt]. *)
Definition default_params : MemorySearchParams := {|
  p_query := None;
  p_importance_threshold := Some (Fin (1 # 2));
  p_emotion_threshold := None;
  p_focus_area := None;
  p_limit := Some (num 5);
  p_from_date := None;
  p_to_date := None;
  p_memories := None;
  p_personality := None
|}.

(** [Promise.all] of two promises. *)
Definition Promise_all {A B : Type} (a : promise A) (b : promise B)
  : promise (A * B) :=
  match a, b with
  | Resolved x, Resolved y => Resolved (x, y)
  | _, _ => Rejected
  end.

Definition systemMessage (t : PromptTemplate) (personality : AgentPersonality)
    (context : string) : string :=
  replace (replace (system t) "{personality}" (formatPersonality personality))
          "{context}" context.

Definition contextMessage (t : PromptTemplate)
    (relevantMemories : list Memory) (personality : AgentPersonality)
    (context : string) : string :=
  let memoriesText :=
    match relevantMemories with
    | [] => ""
    | _ =>
        memory_prefix t ++ nl ++ join nl (map formatMemory relevantMemories)
        ++ memory_suffix t
    end in
  let personalityText :=
    personality_prefix t ++ nl ++ formatPersonality personality
    ++ personality_suffix t in
  replace (context_template t) "{context}" context
  ++ memoriesText ++ personalityText.

(** [buildPrompt(userMessage, context, memoryParams)]; a missing second
    or third argument takes its default. *)
Definition buildPrompt (this : PromptBuilder) (userMessage : string)
    (context : option string) (memoryParams : option MemorySearchParams)
  : promise (list string) :=
  let context := default "" context in
  let memoryParams := default default_params memoryParams in
  match Promise_all
          (searchMemories this memoryParams)
          (match p_personality memoryParams with
           | Some personality => Resolved personality
           | None => getPersonality this
           end) with
  | Rejected => Rejected
  | Resolved (relevantMemories, personality) =>
      Resolved
        [ systemMessage (template this) personality context;
          contextMessage (template this) relevantMemories personality context;
          userMessage ]
  end.

End Formatting.

(** The personality [buildPrompt] formats: the override carried by the
    criteria, or else what the personality capability returns. *)
Definition personality_source (this : PromptBuilder)
    (memoryParams : option MemorySearchParams) : promise AgentPersonality :=
  match p_personality (default default_params memoryParams) with
  | Some personality => Resolved personality
  | None => getPersonality this
  end.

(** [LocalStorageMemoryProvider.filterMemories(memories, params)]. *)
Definition filterMemories (memories : list Memory)
    (params : MemorySearchParams) : list Memory :=
  let results :=
    MemoryStore.filter_if (p_query params) nonempty
      (fun q memory =>
         includes (toLowerCase (text memory)) (toLowerCase q)
         || includes (toLowerCase (focus_area (context memory)))
                     (toLowerCase q))
      memories in
  let results :=
    MemoryStore.filter_if (p_importance_threshold params) MemoryStore.defined
      (fun t memory => ge (importance memory) t) results in
  let results := sort MemoryStore.by_importance results in
  match p_limit params with
  | Some n => if number_truthy n then slice0 results n else results
  | None => results
  end.

End Prompt.

(* ===================================================================== *)
(** * Concrete stores and arguments, for the examples below               *)
(* ===================================================================== *)

Module Scenario.
Import JS Types.
Local Open Scope string_scope.

Definition no_personality : AgentPersonality := {|
  agent := None;
  traits := None;
  values := None;
  communication := None
|}.

Definition silent_builder : Prompt.PromptBuilder := {|
  Prompt.template := Prompt.DEFAULT_TEMPLATE;
  Prompt.searchMemories := fun _ => JS.Resolved [];
  Prompt.getPersonality := JS.Resolved no_personality
|}.

Import MemoryStore.

Definition empty_store : Store := {| arrays := ∅; memories := [] |}.

Definition general : Context := {|
  focus_area := "general";
  user_state := "";
  scene_details := "";
  interaction_type := "general";
  extension := []
|}.

(** A draft with the text and the two scores given. *)
Definition draft (text : string) (importance emotion_score : number) : Draft := {|
  d_text := text;
  d_observation := None;
  d_conversation := None;
  d_context := general;
  d_importance := importance;
  d_emotion_score := emotion_score;
  d_linked_memories := None;
  d_last_accessed := None;
  d_metadata := None
|}.

(** The draft [{text: "A", importance: 1.4, emotion_score: -5}]. *)
Definition out_of_range : Draft := draft "A" (decimal 14 (-1)) (num (-5)).

(** A store with the two memories [m1] and [m2]. *)
Definition two_memories : Store :=
  run [ Create (draft "A" (decimal 9 (-1)) (num 0)) "m1" ">gl0001" (num 1000);
        Create (draft "B" (decimal 9 (-1)) (num 0)) "m2" ">gl0002" (num 2000) ]
      empty_store.

(** An update that tries to change the three fixed fields. *)
Definition rename : Partial := {|
  u_id := Some "other";
  u_text := Some "A, revised";
  u_glimpse_id := Some ">glffff";
  u_observation := None;
  u_conversation := None;
  u_context := None;
  u_importance := None;
  u_emotion_score := None;
  u_linked_memories := None;
  u_created_at := Some (num 0);
  u_last_accessed := None;
  u_metadata := None
|}.

(** An update that sets the importance to 0.5. *)
Definition rescore : Partial := {|
  u_id := None;
  u_text := None;
  u_glimpse_id := None;
  u_observation := None;
  u_conversation := None;
  u_context := None;
  u_importance := Some (decimal 5 (-1));
  u_emotion_score := None;
  u_linked_memories := None;
  u_created_at := None;
  u_last_accessed := None;
  u_metadata := None
|}.

(** The criteria [{importance_threshold: t, limit: n}]. *)
Definition threshold_and_limit (t n : number) : MemorySearchParams := {|
  p_query := None;
  p_importance_threshold := Some t;
  p_emotion_threshold := None;
  p_focus_area := None;
  p_limit := Some n;
  p_from_date := None;
  p_to_date := None;
  p_memories := None;
  p_personality := None
|}.

(** The criteria [{focus_area: "general", limit: 1}]. *)
Definition general_first : MemorySearchParams := {|
  p_query := None;
  p_importance_threshold := None;
  p_emotion_threshold := None;
  p_focus_area := Some "general";
  p_limit := Some (num 1);
  p_from_date := None;
  p_to_date := None;
  p_memories := None;
  p_personality := None
|}.

(** The two memories, linked. *)
Definition linked_pair : Store := run [ Link "m1" "m2" ] two_memories.

End Scenario.

(* ===================================================================== *)
(** * The memory graph as a whole                                         *)
(* ===================================================================== *)

Module MemoryGraph.
Import JS Types MemoryStore.

(** The last record of a loaded array that has the identifier [k]. *)
Definition last_with_id (k : string) (loaded : list Memory) : option Memory :=
  last (List.filter (fun memory => String.eqb (id memory) k) loaded).

(** The keys of the map, in the order of iteration. *)
Definition keys (ms : list (string * Memory)) : list string := map fst ms.

(** The array references of the records of the map. *)
Definition references (ms : list (string * Memory)) : list ref :=
  map (fun e => linked_memories e.2) ms.

(** No key occurs twice, and no two records hold the same array. *)
Definition keys_unique (s : Store) : Prop := NoDup (keys (memories s)).

Definition arrays_unshared (s : Store) : Prop :=
  NoDup (references (memories s)).

(** Links go both ways: where [b] is among the linked memories of [a]
    and [b] is in the store, [a] is among those of [b]. *)
Definition links_symmetric (s : Store) : Prop :=
  forall a b ma mb,
    Map_get a (memories s) = Some ma ->
    Map_get b (memories s) = Some mb ->
    b ∈ linked s ma -> a ∈ linked s mb.

(** Links are closed: every linked identifier is in the store. *)
Definition links_closed (s : Store) : Prop :=
  forall a b ma,
    Map_get a (memories s) = Some ma ->
    b ∈ linked s ma -> is_Some (Map_get b (memories s)).

Definition graph_well_formed (s : Store) : Prop :=
  keys_unique s /\ references_allocated s /\ arrays_unshared s
  /\ links_closed s /\ links_symmetric s.

(** A call that leaves the links to [linkMemories] and [deleteMemory]: a
    draft without an array or with a new empty one, stored under an
    identifier that is not in use, or an update without an array. *)
Definition leaves_links_alone (s : Store) (op : operation) : Prop :=
  match op with
  | Create memory new_id _ _ =>
      (d_linked_memories memory = None
       \/ d_linked_memories memory = Some (Literal []))
      /\ Map_get new_id (memories s) = None
  | Update _ updates => u_linked_memories updates = None
  | Delete _ | Link _ _ | Get _ _ => True
  end.

Fixpoint leaves_links_alone_throughout (s : Store) (ops : list operation)
  : Prop :=
  match ops with
  | [] => True
  | op :: rest =>
      leaves_links_alone s op /\ leaves_links_alone_throughout (step s op) rest
  end.

(** The update [{linked_memories: array}], for the array at [r]. *)
Definition with_array (r : ref) : Partial := {|
  u_id := None;
  u_text := None;
  u_glimpse_id := None;
  u_observation := None;
  u_conversation := None;
  u_context := None;
  u_importance := None;
  u_emotion_score := None;
  u_linked_memories := Some (Existing r);
  u_created_at := None;
  u_last_accessed := None;
  u_metadata := None
|}.

End MemoryGraph.

(* ===================================================================== *)
(** * The criteria of a search, taken together                            *)
(* ===================================================================== *)

Module SearchCriteria.
Import JS Types MemoryStore.

(** What one criterion asks of a record: nothing when it is missing or
    its guard does not let it apply. *)
Definition holds {C : Type} (criterion : option C) (applies : C -> bool)
    (keep : C -> Memory -> bool) (memory : Memory) : bool :=
  match criterion with
  | Some c => if applies c then keep c memory else true
  | None => true
  end.

(** The record passes every criterion of [params] that applies. *)
Definition satisfies (params : MemorySearchParams) (memory : Memory) : bool :=
  holds (p_query params) nonempty
        (fun q memory => matches_query (toLowerCase q) memory) memory
  && holds (p_importance_threshold params) defined
           (fun t memory => ge (importance memory) t) memory
  && holds (p_emotion_threshold params) defined
           (fun t memory => ge (emotion_score memory) t) memory
  && holds (p_focus_area params) nonempty
           (fun f memory => String.eqb (focus_area (context memory)) f) memory
  && holds (p_from_date params) number_truthy
           (fun d memory => ge (created_at memory) d) memory
  && holds (p_to_date params) number_truthy
           (fun d memory => le (created_at memory) d) memory.

(** A criterion that is missing, or that its guard skips. *)
Definition inactive {C : Type} (criterion : option C) (applies : C -> bool)
  : Prop :=
  match criterion with
  | Some c => applies c = false
  | None => True
  end.

(** No limit, or one that the test [if (params.limit)] skips. *)
Definition unlimited (params : MemorySearchParams) : Prop :=
  inactive (p_limit params) number_truthy.

(** The sorted list of all the matches, before the truncation. *)
Definition ranked (params : MemorySearchParams) (s : Store) : list Memory :=
  sort by_importance (filtered params (collection params s)).

End SearchCriteria.

(* ===================================================================== *)
(** * The default template, piece by piece                                *)
(* ===================================================================== *)

Module Placeholders.
Import JS Types Prompt.
Local Open Scope string_scope.

(** The text of the default system template before [{personality}], and
    the text between [{personality}] and [{context}]. *)
Definition before_personality : string :=
  "You are an AI assistant with a persistent memory and personality. 
    1. NEVER greet the user if ANY previous interaction exists in Relevant Memories
    2. ALWAYS check memories before responding
    3. If memories contain ANY greeting, respond without new greeting
    
    Your Personality:
    ".

Definition before_context : string :=
  "
    
    Current Context: 
    ".

(** A text that [replace] inserts as it is: it has no dollar sign. *)
Definition plain (replacement : string) : Prop :=
  includes replacement "$" = false.

(** A text without an opening brace, in which no placeholder starts. *)
Definition braceless (s : string) : Prop := includes s "{" = false.

End Placeholders.

(* ===================================================================== *)
(** * [PersonalityManager]                                                *)
(* ===================================================================== *)

Module PersonalityStore.
Import JS Types.
Local Open Scope string_scope.

(** ** Objects

    A personality object holds its [agent] and its [communication] by
    value: the manager never changes such an object in place, it puts a
    new one in its place.  The [traits] object and the [values] array
    are changed in place ([updateTrait], [addValue]) and the spread of
    [updatePersonality] copies the reference to them, so several
    personality objects can hold the same one: they live in a heap.  The
    property [gender] of the default agent is declared by no type and
    read by no method; it is left out. *)
Record PersonalityObject : Type := {
  o_agent : Agent;
  o_traits : ref;
  o_values : ref;
  o_communication : Communication
}.

(** The contents of a personality object, as the storage provider
    exchanges them: an [AgentPersonality] with its four parts.  [traits]
    lists the properties in the order of [Object.entries]. *)
Record Contents : Type := {
  c_agent : Agent;
  c_traits : list (string * number);
  c_values : list string;
  c_communication : Communication
}.

Record Heap : Type := {
  tables : gmap ref (list (string * number));
  arrays : gmap ref (list string)
}.

Definition table_at (h : Heap) (r : ref) : list (string * number) :=
  default [] (tables h !! r).

Definition array_at (h : Heap) (r : ref) : list string :=
  default [] (arrays h !! r).

Definition allocate_table (h : Heap) (t : list (string * number)) : Heap * ref :=
  let r := fresh (dom (tables h)) in
  ({| tables := <[r := t]> (tables h); arrays := arrays h |}, r).

Definition allocate_array (h : Heap) (l : list string) : Heap * ref :=
  let r := fresh (dom (arrays h)) in
  ({| tables := tables h; arrays := <[r := l]> (arrays h) |}, r).

(** ** Properties of a plain object

    The own properties of an object are listed with the array indices
    first, in ascending order, and the other names after them, in the
    order of their creation.  An array index is the decimal text,
    without a leading zero, of an integer from 0 to 2^32 - 2. *)
Fixpoint digits_value (s : string) (acc : Z) : option Z :=
  match s with
  | EmptyString => Some acc
  | String c r =>
      if is_digit c then digits_value r (acc * 10 + digit_value c) else None
  end.

Definition array_index (k : string) : option Z :=
  match k with
  | EmptyString => None
  | String c r =>
      if Ascii.eqb c "0" && nonempty r then None
      else
        match digits_value k 0 with
        | Some z => if (z <=? 4294967294)%Z then Some z else None
        | None => None
        end
  end.

Fixpoint lookup_property (k : string) (t : list (string * number))
  : option number :=
  match t with
  | [] => None
  | (k', v) :: r => if String.eqb k k' then Some v else lookup_property k r
  end.

Fixpoint update_property (k : string) (v : number) (t : list (string * number))
  : list (string * number) :=
  match t with
  | [] => []
  | (k', v') :: r =>
      if String.eqb k k' then (k, v) :: r else (k', v') :: update_property k v r
  end.

(** A new property whose name is the array index [i]. *)
Fixpoint insert_index (i : Z) (k : string) (v : number)
    (t : list (string * number)) : list (string * number) :=
  match t with
  | [] => [(k, v)]
  | (k', v') :: r =>
      match array_index k' with
      | Some j => if (j <? i)%Z then (k', v') :: insert_index i k v r
                  else (k, v) :: t
      | None => (k, v) :: t
      end
  end.

(** [object[k] = v] for a number [v].  A property that is there takes
    the value and keeps its place.  The name [__proto__], where the
    object has no property of its own of that name, reaches the setter
    of [Object.prototype], which ignores a number.  Every other name
    becomes a new property. *)
Definition set_property (t : list (string * number)) (k : string) (v : number)
  : list (string * number) :=
  match lookup_property k t with
  | Some _ => update_property k v t
  | None =>
      if String.eqb k "__proto__" then t
      else
        match array_index k with
        | Some i => insert_index i k v t
        | None => (t ++ [(k, v)])%list
        end
  end.

(** ** The storage provider *)

(** [PersonalityStorageProvider]: an implementation has a state of its
    own; a call gives the outcome of the promise and the next state.
    [loadPersonality] resolves to the contents of a personality, of
    which the manager gets an object that nothing else holds (as the
    one [JSON.parse] makes for the local-storage provider), or to
    [null]; [savePersonality] gets the contents the object has at the
    time of the call. *)
Class PersonalityStorageProvider (S : Type) : Type := {
  loadPersonality : S -> promise (option Contents) * S;
  savePersonality : Contents -> S -> promise unit * S
}.

(** ** The state *)

(** What [this.personality] refers to, once set: the exported constant
    [ARIA_FROST_PERSONALITY] itself, or an object of the manager. *)
Inductive personality_reference : Type :=
| TheDefault
| Own (object : PersonalityObject).

(** The object of the exported constant, the heap, the field
    [this.personality] ([None] is [null]) and the storage provider. *)
Record State (S : Type) : Type := {
  ARIA_FROST_PERSONALITY : PersonalityObject;
  heap : Heap;
  personality : option personality_reference;
  storageProvider : S
}.

Arguments ARIA_FROST_PERSONALITY {S} _.
Arguments heap {S} _.
Arguments personality {S} _.
Arguments storageProvider {S} _.

(** The program at its start: the constant as its literal has it, in a
    heap with the [traits] object and the [values] array of the literal,
    and a manager whose field is still [null]. *)
Definition start {S : Type} (storage : S) : State S := {|
  ARIA_FROST_PERSONALITY := {|
    o_agent := {|
      agent_id := "default_agent";
      name := "Aria Frost";
      description := "A graceful and perceptive AI companion with a knack for empathy, curiosity, and problem-solving."
    |};
    o_traits := 0%nat;
    o_values := 0%nat;
    o_communication := {|
      style := "friendly";
      tone := "warm";
      patterns := [ "asks reflective questions"; "provides examples";
                    "encourages collaboration" ]
    |}
  |};
  heap := {|
    tables := {[ 0%nat := [ ("empathy", decimal 8 (-1));
                            ("humor", decimal 6 (-1));
                            ("curiosity", decimal 9 (-1)) ] ]};
    arrays := {[ 0%nat := [ "learning"; "emotional_support";
                            "problem_solving" ] ]}
  |};
  personality := None;
  storageProvider := storage
|}.

Section Manager.
Context {S : Type} `{PersonalityStorageProvider S}.

(** The object a reference leads to. *)
Definition the_object (st : State S) (p : personality_reference)
  : PersonalityObject :=
  match p with
  | TheDefault => ARIA_FROST_PERSONALITY st
  | Own object => object
  end.

Definition contents_of (h : Heap) (object : PersonalityObject) : Contents := {|
  c_agent := o_agent object;
  c_traits := table_at h (o_traits object);
  c_values := array_at h (o_values object);
  c_communication := o_communication object
|}.

(** An assignment to a field of the object [this.personality] leads
    to. *)
Definition assign (st : State S) (p : personality_reference)
    (change : PersonalityObject -> PersonalityObject) (h : Heap) : State S :=
  match p with
  | TheDefault =>
      {| ARIA_FROST_PERSONALITY := change (ARIA_FROST_PERSONALITY st);
         heap := h;
         personality := Some TheDefault;
         storageProvider := storageProvider st |}
  | Own object =>
      {| ARIA_FROST_PERSONALITY := ARIA_FROST_PERSONALITY st;
         heap := h;
         personality := Some (Own (change object));
         storageProvider := storageProvider st |}
  end.

(** [this.personality = p]. *)
Definition refer (st : State S) (p : personality_reference) (storage : S)
  : State S := {|
  ARIA_FROST_PERSONALITY := ARIA_FROST_PERSONALITY st;
  heap := heap st;
  personality := Some p;
  storageProvider := storage
|}.

(** The object made of loaded contents. *)
Definition adopt (h : Heap) (c : Contents) : Heap * PersonalityObject :=
  let '(h1, t) := allocate_table h (c_traits c) in
  let '(h2, a) := allocate_array h1 (c_values c) in
  (h2, {| o_agent := c_agent c; o_traits := t; o_values := a;
          o_communication := c_communication c |}).

(** The private [savePersonality()]. *)
Definition save (st : State S) : promise unit * State S :=
  match personality st with
  | Some p =>
      let '(outcome, storage) :=
        savePersonality (contents_of (heap st) (the_object st p))
                        (storageProvider st) in
      (outcome, {| ARIA_FROST_PERSONALITY := ARIA_FROST_PERSONALITY st;
                   heap := heap st;
                   personality := personality st;
                   storageProvider := storage |})
  | None => (Resolved tt, st)
  end.

(** [initialize()]: the reference it leaves in [this.personality], and
    the state.  Its promise always resolves. *)
Definition initialize (st : State S) : personality_reference * State S :=
  let '(stored, storage) := loadPersonality (storageProvider st) in
  match stored with
  | Rejected => (TheDefault, refer st TheDefault storage)
  | Resolved stored =>
      let '(h, p) :=
        match stored with
        | Some c => let '(h, object) := adopt (heap st) c in (h, Own object)
        | None => (heap st, TheDefault)
        end in
      let st1 := {| ARIA_FROST_PERSONALITY := ARIA_FROST_PERSONALITY st;
                    heap := h;
                    personality := Some p;
                    storageProvider := storage |} in
      let '(saved, st2) := save st1 in
      match saved with
      | Resolved _ => (p, st2)
      | Rejected => (TheDefault, refer st2 TheDefault (storageProvider st2))
      end
  end.

(** [new PersonalityManager(storageProvider)], once the initialization
    it starts has settled. *)
Definition construct (storage : S) : State S := (initialize (start storage)).2.

(** [if (!this.personality) await this.initialize()]. *)
Definition ensure (st : State S) : personality_reference * State S :=
  match personality st with
  | Some p => (p, st)
  | None => initialize st
  end.

(** [getPersonality()]. *)
Definition getPersonality (st : State S) : PersonalityObject * State S :=
  let '(p, st) := ensure st in
  (the_object st p, st).

(** An object or array handed in by a caller: one of the heap, or a new
    one. *)
Inductive argument (A : Type) : Type :=
| Existing (r : ref)
| Literal (contents : A).

Arguments Existing {A} r.
Arguments Literal {A} contents.

(** [Partial<AgentPersonality>]. *)
Record Updates : Type := {
  u_agent : option Agent;
  u_traits : option (argument (list (string * number)));
  u_values : option (argument (list string));
  u_communication : option Communication
}.

(** [updatePersonality(updates)]. *)
Definition updatePersonality (updates : Updates) (st : State S)
  : promise PersonalityObject * State S :=
  let '(p, st) := ensure st in
  let old := the_object st p in
  let '(h, traits) :=
    match u_traits updates with
    | Some (Existing r) => (heap st, r)
    | Some (Literal t) => allocate_table (heap st) t
    | None => (heap st, o_traits old)
    end in
  let '(h, values) :=
    match u_values updates with
    | Some (Existing r) => (h, r)
    | Some (Literal l) => allocate_array h l
    | None => (h, o_values old)
    end in
  let object := {|
    o_agent := {|
      agent_id := agent_id (o_agent old);
      name := name (default (o_agent old) (u_agent updates));
      description := description (default (o_agent old) (u_agent updates))
    |};
    o_traits := traits;
    o_values := values;
    o_communication := default (o_communication old) (u_communication updates)
  |} in
  let st1 := {| ARIA_FROST_PERSONALITY := ARIA_FROST_PERSONALITY st;
                heap := h;
                personality := Some (Own object);
                storageProvider := storageProvider st |} in
  let '(saved, st2) := save st1 in
  (match saved with
   | Resolved _ => Resolved object
   | Rejected => Rejected
   end, st2).

(** [updateTrait(traitName, value)]. *)
Definition updateTrait (traitName : string) (value : number) (st : State S)
  : promise unit * State S :=
  let '(p, st) := ensure st in
  if lt value (num 0) || lt (num 1) value then (Rejected, st)
  else
    let r := o_traits (the_object st p) in
    let h := {| tables :=
                  <[r := set_property (table_at (heap st) r) traitName value]>
                    (tables (heap st));
                arrays := arrays (heap st) |} in
    save (assign st p (fun object => object) h).

(** [addValue(value)]. *)
Definition addValue (value : string) (st : State S) : promise unit * State S :=
  let '(p, st) := ensure st in
  let r := o_values (the_object st p) in
  if Array_includes (array_at (heap st) r) value then (Resolved tt, st)
  else
    let h := {| tables := tables (heap st);
                arrays := <[r := (array_at (heap st) r ++ [value])%list]>
                            (arrays (heap st)) |} in
    save (assign st p (fun object => object) h).

Definition set_values (object : PersonalityObject) (r : ref)
  : PersonalityObject := {|
  o_agent := o_agent object;
  o_traits := o_traits object;
  o_values := r;
  o_communication := o_communication object
|}.

(** [removeValue(value)]. *)
Definition removeValue (value : string) (st : State S)
  : promise unit * State S :=
  let '(p, st) := ensure st in
  let '(h, r) :=
    allocate_array (heap st)
      (List.filter (fun v => negb (String.eqb v value))
                   (array_at (heap st) (o_values (the_object st p)))) in
  save (assign st p (fun object => set_values object r) h).

(** [Partial<AgentPersonality['communication']>]. *)
Record Style : Type := {
  s_style : option string;
  s_tone : option string;
  s_patterns : option (list string)
}.

Definition set_communication (object : PersonalityObject) (c : Communication)
  : PersonalityObject := {|
  o_agent := o_agent object;
  o_traits := o_traits object;
  o_values := o_values object;
  o_communication := c
|}.

(** [updateCommunicationStyle(style)]. *)
Definition updateCommunicationStyle (style : Style) (st : State S)
  : promise unit * State S :=
  let '(p, st) := ensure st in
  let old := o_communication (the_object st p) in
  let communication := {|
    Types.style := default (Types.style old) (s_style style);
    tone := default (tone old) (s_tone style);
    patterns := default (patterns old) (s_patterns style)
  |} in
  save (assign st p (fun object => set_communication object communication)
               (heap st)).

(** ** Sequences of calls *)

Inductive operation : Type :=
| GetPersonality
| UpdatePersonality (updates : Updates)
| UpdateTrait (traitName : string) (value : number)
| AddValue (value : string)
| RemoveValue (value : string)
| UpdateCommunicationStyle (style : Style).

(** The state after a call, whether its promise resolves or not. *)
Definition step (st : State S) (op : operation) : State S :=
  match op with
  | GetPersonality => (getPersonality st).2
  | UpdatePersonality updates => (updatePersonality updates st).2
  | UpdateTrait traitName value => (updateTrait traitName value st).2
  | AddValue value => (addValue value st).2
  | RemoveValue value => (removeValue value st).2
  | UpdateCommunicationStyle style => (updateCommunicationStyle style st).2
  end.

Definition run (ops : list operation) (st : State S) : State S :=
  fold_left step ops st.

(** ** What the manager holds *)

(** The object [this.personality] leads to. *)
Definition current (st : State S) : option PersonalityObject :=
  the_object st <$> personality st.

Definition current_traits (st : State S) : list (string * number) :=
  match current st with
  | Some object => table_at (heap st) (o_traits object)
  | None => []
  end.

Definition current_values (st : State S) : list string :=
  match current st with
  | Some object => array_at (heap st) (o_values object)
  | None => []
  end.

(** The traits and the values of the exported constant. *)
Definition default_traits (st : State S) : list (string * number) :=
  table_at (heap st) (o_traits (ARIA_FROST_PERSONALITY st)).

Definition default_values (st : State S) : list string :=
  array_at (heap st) (o_values (ARIA_FROST_PERSONALITY st)).

(** The guard of [updateTrait]. *)
Definition refused (value : number) : bool :=
  lt value (num 0) || lt (num 1) value.

(** The manager works on the [traits] object of the exported constant. *)
Definition shares_default_traits (st : State S) : Prop :=
  exists object,
    current st = Some object
    /\ o_traits object = o_traits (ARIA_FROST_PERSONALITY st).

(** A call that does not hand in a [traits] object. *)
Definition keeps_traits (op : operation) : Prop :=
  match op with
  | UpdatePersonality updates => u_traits updates = None
  | _ => True
  end.

End Manager.

Arguments Existing {A} r.
Arguments Literal {A} contents.

(** ** Two storage providers, for the examples *)

(** One that keeps what it is given, and one that always fails. *)
Definition in_memory : PersonalityStorageProvider (option Contents) := {|
  loadPersonality := fun kept => (Resolved kept, kept);
  savePersonality := fun c _ => (Resolved tt, Some c)
|}.

Definition unavailable : PersonalityStorageProvider unit := {|
  loadPersonality := fun _ => (Rejected, tt);
  savePersonality := fun _ _ => (Rejected, tt)
|}.

(** A manager on an empty store that keeps what it is given, and a
    few arguments. *)
Definition fresh_manager : State (option Contents) :=
  construct (H := in_memory) None.

Definition another_agent : Updates := {|
  u_agent := Some {| agent_id := "other"; name := "Nova";
                     description := "Another agent." |};
  u_traits := None;
  u_values := None;
  u_communication := None
|}.

End PersonalityStore.

(* ===================================================================== *)
(** * Properties                                                          *)
(* ===================================================================== *)

(** ** Numbers and [clamp] *)

Section NumberFacts.
Import JS.

Lemma le_Fin (a b : Q) : le (Fin a) (Fin b) = true <-> (a <= b)%Q.
Proof. apply Qle_bool_iff. Qed.

Lemma le_Fin_false (a b : Q) : le (Fin a) (Fin b) = false -> (b <= a)%Q.
Proof.
  simpl. intros H. destruct (Qlt_le_dec b a) as [Hlt | Hle].
  - apply Qlt_le_weak, Hlt.
  - apply Qle_bool_iff in Hle. congruence.
Qed.

Lemma lt_Fin (a b : Q) : lt (Fin a) (Fin b) = true <-> (a < b)%Q.
Proof.
  simpl. rewrite Qlt_alt. destruct (a ?= b)%Q; split; congruence.
Qed.

Lemma Math_min_NaN_r (x : number) : Math_min x NaN = NaN.
Proof. destruct x; reflexivity. Qed.

Lemma Math_max_NaN_r (x : number) : Math_max x NaN = NaN.
Proof. destruct x; reflexivity. Qed.

(** [clamp] lets [NaN] through. *)
Lemma clamp_NaN (lo hi : number) : Classification.clamp NaN lo hi = NaN.
Proof.
  unfold Classification.clamp. rewrite Math_min_NaN_r. apply Math_max_NaN_r.
Qed.

(** On every other number, infinite ones included, [clamp] lands in the
    interval. *)
Lemma clamp_in_range (lo hi : Q) (v : number) :
  (lo <= hi)%Q -> v <> NaN ->
  in_range lo hi (Classification.clamp v (Fin lo) (Fin hi)).
Proof.
  intros Hlh Hv. unfold Classification.clamp.
  destruct v as [ | | q | ]; try congruence; cbn -[Qle_bool].
  - destruct (Qle_bool lo hi) eqn:E; cbn; split;
      try apply Qle_refl; assumption.
  - destruct (Qle_bool hi q) eqn:E1; cbn -[Qle_bool].
    + destruct (Qle_bool lo hi) eqn:E2; cbn; split;
        try apply Qle_refl; assumption.
    + apply (le_Fin_false hi q) in E1.
      destruct (Qle_bool lo q) eqn:E2; cbn.
      * apply Qle_bool_iff in E2. split; assumption.
      * split; [apply Qle_refl | assumption].
  - destruct (Qle_bool lo hi) eqn:E; cbn; split;
      try apply Qle_refl; assumption.
Qed.

Lemma not_in_range_NaN (lo hi : Q) : ~ in_range lo hi NaN.
Proof. intros []. Qed.

End NumberFacts.

(** ** The classification normalizer *)

Section ClassificationFacts.
Import JS Classification.
Local Open Scope string_scope.

Lemma half_in_range : in_range 0 1 half.
Proof. cbn. split; discriminate. Qed.

Lemma zero_in_range : in_range (-1) 1 (num 0).
Proof. cbn. split; discriminate. Qed.

(** What [normalize] returns, when it returns: the scores are the clamped
    conversions of the two fields. *)
Lemma normalize_scores (result : JSON) (c : NarrativeClassification) :
  normalize result = Some c ->
  exists imp emo : number,
    importance c = clamp imp (num 0) (num 1) /\
    emotion_score c = clamp emo (num (-1)) (num 1).
Proof.
  unfold normalize. intros H.
  destruct (read result "observation"); [ | discriminate ].
  destruct (read result "user_state"); [ | discriminate ].
  destruct (read result "scene_details"); [ | discriminate ].
  destruct (read result "importance") as [imp | ]; [ | discriminate ].
  cbn [mbind option_bind] in H.
  destruct (ToNumber (or_else imp (JNumber half))) as [i | ]; [ | discriminate ].
  destruct (read result "emotion_score") as [emo | ]; [ | discriminate ].
  cbn [mbind option_bind] in H.
  destruct (ToNumber (or_else emo (JNumber (num 0)))) as [e | ];
    [ | discriminate ].
  destruct (read result "focus_area"); [ | discriminate ].
  destruct (read result "interaction_type"); [ | discriminate ].
  destruct (read result "suggested_links"); [ | discriminate ].
  cbn [mbind option_bind] in H. injection H as <-.
  exists i, e. split; reflexivity.
Qed.

(** The scores [classifyMemory] returns are in their intervals, or
    [NaN]: the one value [clamp] does not bound. *)
Lemma classifyMemory_scores (llm : LLMProvider) (text : string)
    (userContext : option string) :
  let c := classifyMemory llm text userContext in
  (in_range 0 1 (importance c) \/ importance c = NaN) /\
  (in_range (-1) 1 (emotion_score c) \/ emotion_score c = NaN).
Proof.
  unfold classifyMemory, classifyWithLLM. cbn [try_catch].
  destruct (llm (classificationPrompt text userContext)) as [ | response];
    cbn; [ split; left; [apply half_in_range | apply zero_in_range] | ].
  destruct (JSON_parse response) as [result | ];
    cbn; [ | split; left; [apply half_in_range | apply zero_in_range] ].
  destruct (normalize result) as [c | ] eqn:E;
    cbn; [ | split; left; [apply half_in_range | apply zero_in_range] ].
  destruct (normalize_scores result c E) as (i & e & -> & ->).
  split.
  - destruct i as [ | | x | ];
      try (left; apply (clamp_in_range 0 1); [discriminate | discriminate]).
    right. apply clamp_NaN.
  - destruct e as [ | | x | ];
      try (left; apply (clamp_in_range (-1) 1); [discriminate | discriminate]).
    right. apply clamp_NaN.
Qed.

Lemma ToNumber_numeric_or_missing (v : option JSON) (d : number) :
  numeric_or_missing v -> isNaN d = false ->
  exists n, ToNumber (or_else v (JNumber d)) = Some n /\ n <> NaN.
Proof.
  intros Hv Hd.
  assert (Hd' : d <> NaN) by (intros ->; discriminate).
  destruct v as [[ | | n | | | ] | ]; cbn in Hv; try contradiction.
  - unfold or_else. destruct (truthy (JNumber n)).
    + exists n. split; [reflexivity | ]. intros ->. discriminate.
    + exists d. split; [reflexivity | exact Hd'].
  - exists d. split; [reflexivity | exact Hd'].
Qed.

(** Where the response is valid JSON and each of the two scores is
    missing from it or given as a number, the scores returned are in
    their intervals, whatever the magnitude and the sign of the numbers. *)
Lemma classifyMemory_numeric_scores (llm : LLMProvider) (text : string)
    (userContext : option string) (response : string) (result : JSON) :
  llm (classificationPrompt text userContext) = Resolved response ->
  JSON_parse response = Some result ->
  (forall v, get result "importance" = inr v -> numeric_or_missing v) ->
  (forall v, get result "emotion_score" = inr v -> numeric_or_missing v) ->
  in_range 0 1 (importance (classifyMemory llm text userContext))
  /\ in_range (-1) 1 (emotion_score (classifyMemory llm text userContext)).
Proof.
  intros Hllm Hparse Himp Hemo. unfold classifyMemory, classifyWithLLM.
  rewrite Hllm. cbn [try_catch await mbind option_bind]. rewrite Hparse.
  destruct result as [ | b | n | t | l | members];
    [ split; [apply half_in_range | apply zero_in_range] | .. ];
    unfold normalize, read; cbn [get mbind option_bind];
    specialize (Himp _ eq_refl); specialize (Hemo _ eq_refl);
    destruct (ToNumber_numeric_or_missing _ half Himp eq_refl)
      as (i & -> & Hi);
    cbn [mbind option_bind];
    destruct (ToNumber_numeric_or_missing _ (num 0) Hemo eq_refl)
      as (e & -> & He);
    cbn [mbind option_bind try_catch importance emotion_score];
    (split; [ apply (clamp_in_range 0 1); [discriminate | exact Hi]
            | apply (clamp_in_range (-1) 1); [discriminate | exact He] ]).
Qed.

Lemma importance_as_text_parsed :
  JSON_parse importance_as_text
  = Some (JObject [("importance", JString "high")]).
Proof. vm_compute. reflexivity. Qed.

(** C4.  The specification states that the importance [classifyMemory]
    returns is in [0,1] and the emotion score in [-1,1] for every
    response of the completion capability.  On the response [{"importance":"high"}] the
    returned importance is [NaN]: the text is truthy, so the default 0.5
    is not taken, [Math.min] converts it to [NaN], and [clamp] hands
    [NaN] through.  [NaN] is not in [0,1]. *)
Theorem C4_importance_not_clamped (text : string) (userContext : option string) :
  importance (classifyMemory (fun _ => Resolved importance_as_text)
                             text userContext) = NaN
  /\ ~ in_range 0 1
       (importance (classifyMemory (fun _ => Resolved importance_as_text)
                                   text userContext)).
Proof.
  assert (E : importance (classifyMemory (fun _ => Resolved importance_as_text)
                                         text userContext) = NaN).
  { unfold classifyMemory, classifyWithLLM. cbn [try_catch await].
    cbn [mbind option_bind]. rewrite importance_as_text_parsed.
    vm_compute. reflexivity. }
  rewrite E. split; [reflexivity | apply not_in_range_NaN].
Qed.

(** C7.  When the response of the completion capability is not parseable
    as JSON, or parses to [null] so that reading its first field throws,
    [classifyMemory] returns the fixed default record: empty observation,
    importance 0.5, emotion score 0, focus area and interaction type
    ["general"], no suggested links (and no user state, scene details or
    glimpse reference). *)
Theorem C7_unparseable_response_gives_default (llm : LLMProvider)
    (text : string) (userContext : option string) (response : string) :
  llm (classificationPrompt text userContext) = Resolved response ->
  JSON_parse response = None \/ JSON_parse response = Some JNull ->
  classifyMemory llm text userContext
  = {| observation := JString "";
       user_state := None;
       scene_details := None;
       glimpse_id := None;
       importance := Fin (1 # 2);
       emotion_score := Fin 0;
       focus_area := JString "general";
       interaction_type := JString "general";
       suggested_links := [] |}.
Proof.
  intros Hllm Hparse. unfold classifyMemory, classifyWithLLM.
  rewrite Hllm. cbn [try_catch await mbind option_bind].
  destruct Hparse as [-> | ->]; reflexivity.
Qed.

Lemma C7_unparseable_response_gives_default_witness :
  classifyMemory (fun _ => Resolved "I cannot answer that.") "hello" None
  = {| observation := JString "";
       user_state := None;
       scene_details := None;
       glimpse_id := None;
       importance := Fin (1 # 2);
       emotion_score := Fin 0;
       focus_area := JString "general";
       interaction_type := JString "general";
       suggested_links := [] |}.
Proof.
  apply (C7_unparseable_response_gives_default _ _ _ "I cannot answer that.").
  - reflexivity.
  - left. vm_compute. reflexivity.
Defined.

(** The same default is returned when the capability itself fails. *)
Lemma classifyMemory_transport_failure (llm : LLMProvider) (text : string)
    (userContext : option string) :
  llm (classificationPrompt text userContext) = Rejected ->
  classifyMemory llm text userContext = getDefaultClassification.
Proof.
  intros H. unfold classifyMemory, classifyWithLLM. rewrite H. reflexivity.
Qed.

(** So it is when a field, once read, cannot be converted to a number. *)
Lemma classifyMemory_failed_conversion (llm : LLMProvider) (text : string)
    (userContext : option string) (response : string) (result : JSON) :
  llm (classificationPrompt text userContext) = Resolved response ->
  JSON_parse response = Some result ->
  normalize result = None ->
  classifyMemory llm text userContext = getDefaultClassification.
Proof.
  intros Hllm Hparse Hnormalize. unfold classifyMemory, classifyWithLLM.
  rewrite Hllm. cbn [await mbind option_bind].
  rewrite Hparse. cbn [mbind option_bind]. rewrite Hnormalize. reflexivity.
Qed.

Example importance_without_callable_toString (text : string) :
  classifyMemory
    (fun _ => Resolved
       ("{" ++ q ++ "importance" ++ q ++ ":{" ++ q ++ "toString" ++ q ++ ":1}}"))
    text None
  = getDefaultClassification.
Proof.
  eapply (classifyMemory_failed_conversion _ _ _ _
            (JObject [("importance", JObject [("toString", JNumber (num 1))])]));
    [reflexivity | vm_compute; reflexivity | vm_compute; reflexivity].
Qed.

(** The similarity is in [0,1] or [NaN], and [0] on a transport failure. *)
Lemma analyzeSimilarity_range (llm : LLMProvider) (text1 text2 : string) :
  in_range 0 1 (analyzeSimilarity llm text1 text2)
  \/ analyzeSimilarity llm text1 text2 = NaN.
Proof.
  unfold analyzeSimilarity.
  destruct (llm (similarityPrompt text1 text2)) as [ | response];
    cbn [try_catch await mbind option_bind].
  - left. split; discriminate.
  - destruct (parseFloat response) as [ | | x | ];
      try (left; apply (clamp_in_range 0 1); [discriminate | discriminate]).
    right. apply clamp_NaN.
Qed.

Lemma analyzeSimilarity_transport_failure (llm : LLMProvider)
    (text1 text2 : string) :
  llm (similarityPrompt text1 text2) = Rejected ->
  analyzeSimilarity llm text1 text2 = num 0.
Proof. intros H. unfold analyzeSimilarity. rewrite H. reflexivity. Qed.

(** C8.  The specification states that [analyzeSimilarity] returns a
    number in [0,1] and exactly [0] on any failure, a response that is
    no number included.  On the response ["abc"] [parseFloat] returns [NaN]
    without throwing, the handler that returns [0] is not entered, and
    [clamp] hands [NaN] through: the result is [NaN], neither [0] nor in
    [0,1]. *)
Theorem C8_similarity_of_non_numeric_response (text1 text2 : string) :
  analyzeSimilarity (fun _ => Resolved "abc") text1 text2 = NaN
  /\ analyzeSimilarity (fun _ => Resolved "abc") text1 text2 <> num 0
  /\ ~ in_range 0 1 (analyzeSimilarity (fun _ => Resolved "abc") text1 text2).
Proof.
  assert (E : analyzeSimilarity (fun _ => Resolved "abc") text1 text2 = NaN).
  { unfold analyzeSimilarity. cbn [try_catch await mbind option_bind].
    vm_compute. reflexivity. }
  rewrite E. split; [reflexivity | split; [discriminate | apply not_in_range_NaN]].
Qed.

End ClassificationFacts.

(** ** Prompt assembly *)

Section PromptFacts.
Import JS Types Prompt.

Variable toLocaleDateString : number -> string.
Variable numberToString : number -> string.

(** [buildPrompt] is rejected exactly when one of the two retrievals is. *)
Lemma buildPrompt_rejected (this : PromptBuilder) (userMessage : string)
    (context : option string) (memoryParams : option MemorySearchParams) :
  buildPrompt toLocaleDateString numberToString this userMessage context
              memoryParams = Rejected
  <-> searchMemories this (default default_params memoryParams) = Rejected
      \/ personality_source this memoryParams = Rejected.
Proof.
  unfold buildPrompt, personality_source, Promise_all.
  destruct (searchMemories this _);
    destruct (match p_personality _ with Some _ => _ | None => _ end);
    split; intros H; try discriminate; auto; destruct H; discriminate.
Qed.

(** C10.  Whatever the user message, the context and the search
    criteria, once the memory search and the personality retrieval have
    resolved [buildPrompt] returns exactly three elements, the system
    segment, the context segment and the user segment in this order, and
    the third is the user message itself, unchanged. *)
Theorem C10_prompt_has_three_segments (this : PromptBuilder)
    (userMessage : string) (context : option string)
    (memoryParams : option MemorySearchParams)
    (relevantMemories : list Memory) (personality : AgentPersonality) :
  searchMemories this (default default_params memoryParams)
    = Resolved relevantMemories ->
  personality_source this memoryParams = Resolved personality ->
  exists segments : list string,
    buildPrompt toLocaleDateString numberToString this userMessage context
                memoryParams = Resolved segments
    /\ length segments = 3%nat
    /\ segments
       = [ systemMessage numberToString (template this) personality
                         (default "" context);
           contextMessage toLocaleDateString numberToString (template this)
                          relevantMemories personality (default "" context);
           userMessage ]
    /\ nth_error segments 2 = Some userMessage.
Proof.
  intros Hsearch Hpersonality. unfold buildPrompt.
  unfold personality_source in Hpersonality.
  rewrite Hsearch, Hpersonality. cbn [Promise_all].
  eexists. split; [reflexivity | ]. split; [reflexivity | ].
  split; reflexivity.
Qed.

End PromptFacts.

Lemma C10_prompt_has_three_segments_witness :
  exists segments : list string,
    Prompt.buildPrompt (fun _ => "1/1/2024") (fun _ => "0.5") Scenario.silent_builder
                       "What were we discussing?" None None
    = JS.Resolved segments
    /\ length segments = 3%nat
    /\ segments
       = [ Prompt.systemMessage (fun _ => "0.5") Prompt.DEFAULT_TEMPLATE
                                Scenario.no_personality "";
           Prompt.contextMessage (fun _ => "1/1/2024") (fun _ => "0.5")
                                 Prompt.DEFAULT_TEMPLATE [] Scenario.no_personality "";
           "What were we discussing?" ]
    /\ nth_error segments 2 = Some "What were we discussing?".
Proof.
  apply (C10_prompt_has_three_segments (fun _ => "1/1/2024") (fun _ => "0.5")
           Scenario.silent_builder "What were we discussing?" None None [] Scenario.no_personality);
    reflexivity.
Defined.

(** ** The memory graph store *)

Section StoreFacts.
Import JS Types MemoryStore.

Implicit Types (s : Store) (h : gmap ref (list string)) (r : ref).
Implicit Types (m memory : Memory) (k a b : string).

(** *** The map *)

Lemma Map_get_set (k : string) (v : Memory) (ms : list (string * Memory))
    (k' : string) :
  Map_get k' (Map_set k v ms) = if String.eqb k' k then Some v else Map_get k' ms.
Proof.
  induction ms as [ | [k0 v0] ms IH]; cbn.
  - reflexivity.
  - destruct (String.eqb_spec k k0) as [-> | Hk]; cbn.
    + destruct (String.eqb_spec k' k0); reflexivity.
    + rewrite IH. destruct (String.eqb_spec k' k0) as [-> | ].
      * destruct (String.eqb_spec k0 k); congruence.
      * reflexivity.
Qed.

Lemma Map_get_delete (k : string) (ms : list (string * Memory)) (k' : string) :
  Map_get k' (Map_delete k ms) = if String.eqb k' k then None else Map_get k' ms.
Proof.
  induction ms as [ | [k0 v0] ms IH]; cbn.
  - destruct (String.eqb k' k); reflexivity.
  - destruct (String.eqb_spec k k0) as [-> | Hk]; cbn.
    + rewrite IH. destruct (String.eqb_spec k' k0); reflexivity.
    + rewrite IH. destruct (String.eqb_spec k' k0) as [-> | ].
      * destruct (String.eqb_spec k0 k); congruence.
      * reflexivity.
Qed.

Lemma Map_get_elem_of (k : string) (ms : list (string * Memory)) (m : Memory) :
  Map_get k ms = Some m -> (k, m) ∈ ms.
Proof.
  induction ms as [ | [k0 v0] ms IH]; cbn; [discriminate | ].
  destruct (String.eqb_spec k k0) as [-> | Hk].
  - intros [= ->]. left.
  - intros H. right. auto.
Qed.

(** *** The arrays *)

Lemma contents_insert h r (l : list string) r' :
  contents (<[r := l]> h) r' = if decide (r = r') then l else contents h r'.
Proof.
  unfold contents. rewrite lookup_insert. destruct (decide (r = r')); reflexivity.
Qed.

Lemma contents_push h r (x : string) r' :
  contents (push h r x) r'
  = if decide (r = r') then contents h r ++ [x] else contents h r'.
Proof. unfold push. apply contents_insert. Qed.

Lemma Array_includes_true (l : list string) (x : string) :
  Array_includes l x = true <-> x ∈ l.
Proof. unfold Array_includes. apply bool_decide_eq_true. Qed.

Lemma Array_includes_false (l : list string) (x : string) :
  Array_includes l x = false <-> x ∉ l.
Proof. unfold Array_includes. apply bool_decide_eq_false. Qed.

Lemma push_unless_included_elem h r (x : string) :
  x ∈ contents (push_unless_included h r x) r.
Proof.
  unfold push_unless_included.
  destruct (Array_includes (contents h r) x) eqn:E.
  - apply Array_includes_true, E.
  - rewrite contents_push, decide_True by reflexivity.
    apply elem_of_app. right. apply list_elem_of_singleton. reflexivity.
Qed.

Lemma push_unless_included_mono h r (x : string) r' (y : string) :
  y ∈ contents h r' -> y ∈ contents (push_unless_included h r x) r'.
Proof.
  intros Hy. unfold push_unless_included.
  destruct (Array_includes (contents h r) x); [assumption | ].
  rewrite contents_push. destruct (decide (r = r')) as [-> | ]; [ | assumption].
  apply elem_of_app. left. assumption.
Qed.

Lemma push_unless_included_inv h r (x : string) r' (y : string) :
  y ∈ contents (push_unless_included h r x) r' ->
  y ∈ contents h r' \/ (r' = r /\ y = x).
Proof.
  unfold push_unless_included.
  destruct (Array_includes (contents h r) x); [auto | ].
  rewrite contents_push. destruct (decide (r = r')) as [-> | ]; [ | auto].
  intros [H | H]%elem_of_app; [auto | ].
  apply list_elem_of_singleton in H. auto.
Qed.

Lemma push_unless_included_NoDup h r (x : string) r' :
  NoDup (contents h r') -> NoDup (contents (push_unless_included h r x) r').
Proof.
  intros Hnd. unfold push_unless_included.
  destruct (Array_includes (contents h r) x) eqn:E; [assumption | ].
  apply Array_includes_false in E.
  rewrite contents_push. destruct (decide (r = r')) as [-> | ]; [ | assumption].
  apply NoDup_app. split; [assumption | ]. split.
  - intros y Hy Hx. apply list_elem_of_singleton in Hx. congruence.
  - apply NoDup_singleton.
Qed.

Lemma push_unless_included_id h r (x : string) :
  x ∈ contents h r -> push_unless_included h r x = h.
Proof.
  intros H. unfold push_unless_included.
  apply Array_includes_true in H. rewrite H. reflexivity.
Qed.

Lemma push_unless_included_dom h r (x : string) :
  dom h ⊆ dom (push_unless_included h r x).
Proof.
  unfold push_unless_included, push.
  destruct (Array_includes (contents h r) x); [reflexivity | ].
  apply dom_insert_subseteq.
Qed.

Lemma linkMemories_unfold s a b ma mb :
  Map_get a (memories s) = Some ma ->
  Map_get b (memories s) = Some mb ->
  linkMemories a b s
  = Some {| arrays :=
              push_unless_included
                (push_unless_included (arrays s) (linked_memories ma) b)
                (linked_memories mb) a;
            memories := memories s |}.
Proof. intros Ha Hb. unfold linkMemories. rewrite Ha, Hb. reflexivity. Qed.

(** C2.  For existing memories [a] and [b] (which may be the same),
    [linkMemories(a, b)] succeeds, afterwards [b] is among the linked
    memories of [a] and [a] among those of [b], and a second
    [linkMemories(a, b)] leaves the state as the first one left it. *)
Theorem C2_link_is_symmetric_and_idempotent s a b ma mb :
  Map_get a (memories s) = Some ma ->
  Map_get b (memories s) = Some mb ->
  exists s',
    linkMemories a b s = Some s'
    /\ Map_get a (memories s') = Some ma
    /\ Map_get b (memories s') = Some mb
    /\ b ∈ linked s' ma
    /\ a ∈ linked s' mb
    /\ linkMemories a b s' = Some s'.
Proof.
  intros Ha Hb. eexists. split; [apply (linkMemories_unfold s a b ma mb Ha Hb) | ].
  cbn [memories]. split; [exact Ha | ]. split; [exact Hb | ].
  assert (H1 : b ∈ contents
                 (push_unless_included
                    (push_unless_included (arrays s) (linked_memories ma) b)
                    (linked_memories mb) a) (linked_memories ma)).
  { apply push_unless_included_mono, push_unless_included_elem. }
  assert (H2 : a ∈ contents
                 (push_unless_included
                    (push_unless_included (arrays s) (linked_memories ma) b)
                    (linked_memories mb) a) (linked_memories mb)).
  { apply push_unless_included_elem. }
  split; [exact H1 | ]. split; [exact H2 | ].
  rewrite (linkMemories_unfold _ a b ma mb) by assumption.
  cbn [arrays memories].
  rewrite (push_unless_included_id _ (linked_memories ma) b) by exact H1.
  rewrite (push_unless_included_id _ (linked_memories mb) a) by exact H2.
  reflexivity.
Qed.

Lemma C2_link_is_symmetric_and_idempotent_witness :
  exists ma mb s',
    Map_get "m1" (memories Scenario.two_memories) = Some ma
    /\ Map_get "m2" (memories Scenario.two_memories) = Some mb
    /\ linkMemories "m1" "m2" Scenario.two_memories = Some s'
    /\ "m2" ∈ linked s' ma
    /\ "m1" ∈ linked s' mb
    /\ linkMemories "m1" "m2" s' = Some s'.
Proof.
  destruct (Map_get "m1" (memories Scenario.two_memories)) as [ma | ] eqn:Ea;
    [ | vm_compute in Ea; discriminate].
  destruct (Map_get "m2" (memories Scenario.two_memories)) as [mb | ] eqn:Eb;
    [ | vm_compute in Eb; discriminate].
  destruct (C2_link_is_symmetric_and_idempotent
              Scenario.two_memories "m1" "m2" ma mb Ea Eb)
    as (s' & H1 & _ & _ & H4 & H5 & H6).
  exists ma, mb, s'. repeat split; assumption.
Defined.

(** *** [deleteMemory] *)

Lemma not_elem_of_filter_out (x : string) (l : list string) :
  x ∉ List.filter (fun linkId => negb (String.eqb linkId x)) l.
Proof.
  intros H. apply list_elem_of_In, filter_In in H as [_ H].
  rewrite String.eqb_refl in H. discriminate.
Qed.

Lemma filter_out_absent (x : string) (l : list string) :
  x ∉ l -> List.filter (fun linkId => negb (String.eqb linkId x)) l = l.
Proof.
  induction l as [ | y l IH]; cbn; [reflexivity | ].
  intros H. apply not_elem_of_cons in H as [Hxy Hl].
  destruct (String.eqb_spec y x) as [-> | _]; [congruence | ].
  cbn. rewrite IH by assumption. reflexivity.
Qed.

Lemma elem_of_filter_out (x y : string) (l : list string) :
  y ∈ List.filter (fun linkId => negb (String.eqb linkId x)) l -> y ∈ l.
Proof. intros H. apply list_elem_of_In, filter_In in H as [H _]. apply list_elem_of_In, H. Qed.

Lemma NoDup_filter_out (x : string) (l : list string) :
  NoDup l -> NoDup (List.filter (fun linkId => negb (String.eqb linkId x)) l).
Proof.
  induction l as [ | y l IH]; cbn; [auto | ].
  intros [Hy Hl]%NoDup_cons.
  destruct (negb (String.eqb y x)); [ | auto].
  apply NoDup_cons. split; [ | auto].
  intros Hin. apply Hy, (elem_of_filter_out x y l Hin).
Qed.

Lemma set_linked_memories_same m :
  m = set_linked_memories m (linked_memories m).
Proof. destruct m; reflexivity. Qed.

(** The cascade leaves no array reachable from a remaining record with
    the deleted identifier in it, whatever the sharing of arrays. *)
Lemma cascade_absent (id0 : string) (entries : list (string * Memory)) :
  forall h h' entries',
    cascade id0 h entries = (h', entries') ->
    (forall r, id0 ∉ contents h r -> id0 ∉ contents h' r)
    /\ Forall (fun e => id0 ∉ contents h' (linked_memories e.2)) entries'.
Proof.
  induction entries as [ | [k mem] rest IH]; intros h h' entries' H; cbn in H.
  - injection H as <- <-. split; [auto | constructor].
  - destruct (Array_includes (contents h (linked_memories mem)) id0) eqn:E.
    + unfold allocate in H.
      set (r0 := fresh (dom h)) in *.
      set (l0 := List.filter _ _) in *.
      destruct (cascade id0 (<[r0 := l0]> h) rest) as [h2 rest'] eqn:Erest.
      injection H as <- <-.
      destruct (IH _ _ _ Erest) as [IH1 IH2].
      assert (Hstep : forall r, id0 ∉ contents h r ->
                                id0 ∉ contents (<[r0 := l0]> h) r).
      { intros r Hr. rewrite contents_insert.
        destruct (decide (r0 = r)); [apply not_elem_of_filter_out | exact Hr]. }
      split.
      * intros r Hr. apply IH1, Hstep, Hr.
      * constructor; [ | exact IH2]. cbn. apply IH1.
        rewrite contents_insert, decide_True by reflexivity.
        apply not_elem_of_filter_out.
    + destruct (cascade id0 h rest) as [h2 rest'] eqn:Erest.
      injection H as <- <-.
      destruct (IH _ _ _ Erest) as [IH1 IH2].
      split; [exact IH1 | ].
      constructor; [ | exact IH2]. cbn. apply IH1.
      apply Array_includes_false, E.
Qed.

Lemma cascade_spec (id0 : string) (entries : list (string * Memory)) :
  forall h h' entries',
    cascade id0 h entries = (h', entries') ->
    dom h ⊆ dom h'
    /\ (forall r, r ∈ dom h -> contents h' r = contents h r)
    /\ Forall2 (cascaded id0 h h') entries entries'.
Proof.
  induction entries as [ | [k mem] rest IH]; intros h h' entries' H; cbn in H.
  - injection H as <- <-. split; [reflexivity | ]. split; [auto | constructor].
  - destruct (Array_includes (contents h (linked_memories mem)) id0) eqn:E.
    + unfold allocate in H.
      pose proof (is_fresh (dom h)) as Hfresh.
      set (r0 := fresh (dom h)) in *.
      set (l0 := List.filter _ _) in *.
      destruct (cascade id0 (<[r0 := l0]> h) rest) as [h2 rest'] eqn:Erest.
      injection H as <- <-.
      destruct (IH _ _ _ Erest) as (IHdom & IHcontents & IHentries).
      assert (Hdom1 : dom h ⊆ dom (<[r0 := l0]> h)).
      { apply dom_insert_subseteq. }
      assert (Hr0 : r0 ∈ dom (<[r0 := l0]> h)).
      { apply elem_of_dom. rewrite lookup_insert_eq. eexists. reflexivity. }
      assert (Hold : forall r, r ∈ dom h ->
                               contents (<[r0 := l0]> h) r = contents h r).
      { intros r Hr. rewrite contents_insert.
        destruct (decide (r0 = r)) as [<- | ]; [contradiction | reflexivity]. }
      split; [etrans; [exact Hdom1 | exact IHdom] | ]. split.
      * intros r Hr. rewrite IHcontents by apply Hdom1, Hr. apply Hold, Hr.
      * constructor.
        -- split; [reflexivity | ]. split; [reflexivity | ]. cbn. intros _.
           split; [apply IHdom, Hr0 | ].
           rewrite IHcontents by exact Hr0.
           rewrite contents_insert, decide_True by reflexivity. reflexivity.
        -- eapply Forall2_impl; [exact IHentries | ].
           intros e e' (H1 & H2 & H3). split; [exact H1 | ].
           split; [exact H2 | ]. intros He.
           destruct (H3 (Hdom1 _ He)) as [H4 H5].
           split; [exact H4 | ]. rewrite H5, Hold by exact He. reflexivity.
    + destruct (cascade id0 h rest) as [h2 rest'] eqn:Erest.
      injection H as <- <-.
      destruct (IH _ _ _ Erest) as (IHdom & IHcontents & IHentries).
      split; [exact IHdom | ]. split; [exact IHcontents | ].
      constructor; [ | exact IHentries].
      split; [reflexivity | ]. split; [apply set_linked_memories_same | ].
      cbn. intros Hmem. split; [apply IHdom, Hmem | ].
      rewrite IHcontents by exact Hmem.
      symmetry. apply filter_out_absent, Array_includes_false, E.
Qed.

Lemma Forall2_Map_get {R : string * Memory -> string * Memory -> Prop}
    (entries entries' : list (string * Memory)) (k : string) :
  Forall2 (fun e e' => e'.1 = e.1 /\ R e e') entries entries' ->
  match Map_get k entries, Map_get k entries' with
  | Some m, Some m' => R (k, m) (k, m')
  | None, None => True
  | _, _ => False
  end.
Proof.
  induction 1 as [ | [k0 m0] [k1 m1] l l' [Hk HR] _ IH]; cbn; [exact I | ].
  cbn in Hk. subst k1.
  destruct (String.eqb_spec k k0) as [-> | _]; [exact HR | exact IH].
Qed.

Lemma deleteMemory_unfold s a ma :
  Map_get a (memories s) = Some ma ->
  deleteMemory a s
  = Some {| arrays := (cascade a (arrays s) (Map_delete a (memories s))).1;
            memories := (cascade a (arrays s) (Map_delete a (memories s))).2 |}.
Proof.
  intros Ha. unfold deleteMemory. rewrite Ha.
  destruct (cascade a (arrays s) (Map_delete a (memories s))). reflexivity.
Qed.

(** C3.  After a successful [deleteMemory(a)] the record of [a] is gone,
    the other records are still there, and the identifier [a] is in the
    linked memories of no remaining record. *)
Theorem C3_delete_cascades_to_links s a ma :
  Map_get a (memories s) = Some ma ->
  exists s',
    deleteMemory a s = Some s'
    /\ Map_get a (memories s') = None
    /\ (forall b, b <> a ->
          is_Some (Map_get b (memories s')) <-> is_Some (Map_get b (memories s)))
    /\ (forall b mb, Map_get b (memories s') = Some mb -> a ∉ linked s' mb).
Proof.
  intros Ha. eexists. split; [apply (deleteMemory_unfold s a ma Ha) | ].
  cbn [memories arrays]. unfold linked. cbn [memories arrays].
  destruct (cascade a (arrays s) (Map_delete a (memories s)))
    as [h' entries'] eqn:E. cbn [fst snd].
  destruct (cascade_spec _ _ _ _ _ E) as (_ & _ & Hentries).
  assert (Hkeys : forall b,
             match Map_get b (Map_delete a (memories s)), Map_get b entries' with
             | Some m, Some m' => True
             | None, None => True
             | _, _ => False
             end).
  { intros b.
    apply (Forall2_Map_get (R := fun _ _ => True)
             (Map_delete a (memories s)) entries' b).
    eapply Forall2_impl; [exact Hentries | ].
    intros e e' (H1 & _). auto. }
  split; [ | split].
  - specialize (Hkeys a). rewrite Map_get_delete, String.eqb_refl in Hkeys.
    destruct (Map_get a entries'); [contradiction | reflexivity].
  - intros b Hb. specialize (Hkeys b). rewrite Map_get_delete in Hkeys.
    destruct (String.eqb_spec b a) as [Heq | _]; [congruence | ].
    destruct (Map_get b (memories s)), (Map_get b entries');
      try contradiction; split; intros H; try (eexists; reflexivity);
      destruct H; discriminate.
  - intros b mb Hb.
    destruct (cascade_absent _ _ _ _ _ E) as [_ Hall].
    apply Map_get_elem_of in Hb.
    rewrite Forall_forall in Hall. apply (Hall (b, mb)), Hb.
Qed.

Lemma C3_delete_cascades_to_links_witness :
  exists s',
    deleteMemory "m1" Scenario.linked_pair = Some s'
    /\ Map_get "m1" (memories s') = None
    /\ (forall b mb, Map_get b (memories s') = Some mb -> "m1" ∉ linked s' mb).
Proof.
  destruct (Map_get "m1" (memories Scenario.linked_pair)) as [ma | ] eqn:Ea;
    [ | vm_compute in Ea; discriminate].
  destruct (C3_delete_cascades_to_links Scenario.linked_pair "m1" ma Ea)
    as (s' & H1 & H2 & _ & H4).
  exists s'. repeat split; assumption.
Defined.

(** The records of the state after [deleteMemory]. *)
Lemma deleteMemory_record s a s' k m' :
  deleteMemory a s = Some s' ->
  Map_get k (memories s') = Some m' ->
  k <> a
  /\ exists m,
       Map_get k (memories s) = Some m
       /\ m' = set_linked_memories m (linked_memories m')
       /\ (linked_memories m ∈ dom (arrays s) ->
           linked_memories m' ∈ dom (arrays s')
           /\ linked s' m'
              = List.filter (fun linkId => negb (String.eqb linkId a))
                            (linked s m)).
Proof.
  unfold deleteMemory. destruct (Map_get a (memories s)); [ | discriminate].
  destruct (cascade a (arrays s) (Map_delete a (memories s)))
    as [h' entries'] eqn:E.
  intros [= <-]. cbn [memories arrays]. unfold linked. cbn [arrays].
  intros Hk.
  destruct (cascade_spec _ _ _ _ _ E) as (_ & _ & Hentries).
  pose proof (Forall2_Map_get
                (R := fun e e' =>
                        e'.2 = set_linked_memories e.2 (linked_memories e'.2)
                        /\ (linked_memories e.2 ∈ dom (arrays s) ->
                            linked_memories e'.2 ∈ dom h'
                            /\ contents h' (linked_memories e'.2)
                               = List.filter
                                   (fun linkId => negb (String.eqb linkId a))
                                   (contents (arrays s) (linked_memories e.2))))
                (Map_delete a (memories s)) entries' k) as H.
  rewrite Hk, Map_get_delete in H.
  destruct (String.eqb_spec k a) as [Heq | Hne].
  - exfalso. apply H. eapply Forall2_impl; [exact Hentries | ].
    intros e e' (H1 & H2 & H3). auto.
  - split; [exact Hne | ].
    destruct (Map_get k (memories s)) as [m0 | ].
    + exists m0. split; [reflexivity | ]. apply H.
      eapply Forall2_impl; [exact Hentries | ].
      intros e e' (H1 & H2 & H3). auto.
    + exfalso. apply H. eapply Forall2_impl; [exact Hentries | ].
      intros e e' (H1 & H2 & H3). auto.
Qed.

Lemma deleteMemory_dom s a s' :
  deleteMemory a s = Some s' -> dom (arrays s) ⊆ dom (arrays s').
Proof.
  unfold deleteMemory. destruct (Map_get a (memories s)); [ | discriminate].
  destruct (cascade a (arrays s) (Map_delete a (memories s)))
    as [h' entries'] eqn:E.
  intros [= <-]. cbn [arrays].
  apply (cascade_spec _ _ _ _ _ E).
Qed.

(** *** Records are stored under their own identifier *)

Lemma keyed_by_id_empty h : keyed_by_id {| arrays := h; memories := [] |}.
Proof. intros k m. cbn. discriminate. Qed.

Lemma keyed_by_id_initialize h (loaded : list Memory) :
  keyed_by_id {| arrays := h; memories := initialize loaded |}.
Proof.
  unfold initialize, keyed_by_id. cbn [memories].
  assert (G : forall (l : list Memory) (acc : list (string * Memory)),
             (forall k m, Map_get k acc = Some m -> id m = k) ->
             forall k m,
               Map_get k (fold_left (fun ms memory => Map_set (id memory) memory ms)
                                    l acc) = Some m -> id m = k).
  { induction l as [ | x l IH]; intros acc Hacc k m; cbn; [apply Hacc | ].
    apply IH. intros k' m'. rewrite Map_get_set.
    destruct (String.eqb_spec k' (id x)) as [-> | _]; [ | apply Hacc].
    intros [= <-]. reflexivity. }
  apply G. intros k m. cbn. discriminate.
Qed.

Lemma keyed_by_id_step s op : keyed_by_id s -> keyed_by_id (step s op).
Proof.
  intros Hs k m'. destruct op as [memory new_id g now | id0 updates | id0 | a b | id0 now];
    cbn [step].
  - unfold createMemory.
    destruct (match d_linked_memories memory with
              | Some a => pass (arrays s) a
              | None => allocate (arrays s) []
              end) as [h links].
    cbn [fst memories]. rewrite Map_get_set.
    destruct (String.eqb_spec k new_id) as [-> | _]; [ | apply Hs].
    intros [= <-]. reflexivity.
  - unfold updateMemory.
    destruct (Map_get id0 (memories s)) as [memory | ] eqn:E; [ | apply Hs].
    destruct (match u_linked_memories updates with
              | Some a => pass (arrays s) a
              | None => (arrays s, linked_memories memory)
              end) as [h links].
    cbn [memories]. rewrite Map_get_set.
    destruct (String.eqb_spec k id0) as [-> | _]; [ | apply Hs].
    intros [= <-]. reflexivity.
  - destruct (deleteMemory id0 s) as [s' | ] eqn:E; [ | apply Hs].
    intros Hk. destruct (deleteMemory_record _ _ _ _ _ E Hk) as (_ & m & Hm & -> & _).
    cbn. apply (Hs k m Hm).
  - unfold linkMemories.
    destruct (Map_get a (memories s)), (Map_get b (memories s)); apply Hs.
  - unfold getMemory.
    destruct (Map_get id0 (memories s)) as [memory | ] eqn:E; [ | apply Hs].
    cbn [fst memories]. rewrite Map_get_set.
    destruct (String.eqb_spec k id0) as [-> | _]; [ | apply Hs].
    intros [= <-]. cbn. apply (Hs id0 memory E).
Qed.

Lemma keyed_by_id_run (ops : list operation) s :
  keyed_by_id s -> keyed_by_id (run ops s).
Proof.
  revert s. induction ops as [ | op ops IH]; intros s Hs; cbn; [exact Hs | ].
  apply IH, keyed_by_id_step, Hs.
Qed.

(** *** [updateMemory] *)

(** C6.  For an existing memory and any update, also one that sets
    [id], [created_at] or [glimpse_id], the record stored afterwards has
    the [id], [created_at] and [glimpse_id] of the record stored before,
    and each other field is the one of the update where the update has
    it and the one of the record stored before where it has not. *)
Theorem C6_update_keeps_id_created_at_glimpse_id s (id0 : string)
    (updates : Partial) memory :
  keyed_by_id s ->
  Map_get id0 (memories s) = Some memory ->
  exists s' updated,
    updateMemory id0 updates s = Some (s', updated)
    /\ Map_get id0 (memories s') = Some updated
    /\ id updated = id memory
    /\ created_at updated = created_at memory
    /\ glimpse_id updated = glimpse_id memory
    /\ text updated = default (text memory) (u_text updates)
    /\ observation updated = default (observation memory) (u_observation updates)
    /\ conversation updated
       = default (conversation memory) (u_conversation updates)
    /\ context updated = default (context memory) (u_context updates)
    /\ importance updated = default (importance memory) (u_importance updates)
    /\ emotion_score updated
       = default (emotion_score memory) (u_emotion_score updates)
    /\ last_accessed updated
       = match u_last_accessed updates with
         | Some t => Some t
         | None => last_accessed memory
         end
    /\ metadata updated
       = match u_metadata updates with
         | Some t => Some t
         | None => metadata memory
         end
    /\ linked s' updated
       = match u_linked_memories updates with
         | Some (Existing r) => contents (arrays s) r
         | Some (Literal l) => l
         | None => linked s memory
         end.
Proof.
  intros Hkeys Hget. unfold updateMemory. rewrite Hget.
  pose proof (Hkeys id0 memory Hget) as Hid.
  destruct (u_linked_memories updates) as [[r | l] | ] eqn:E;
    cbn [pass allocate]; eexists; eexists;
    (split; [reflexivity | ]); cbn [memories];
    rewrite Map_get_set, String.eqb_refl;
    (split; [reflexivity | ]); cbn;
    repeat (split; [first [reflexivity | symmetry; exact Hid] | ]);
    unfold linked; cbn; try reflexivity.
  rewrite contents_insert, decide_True by reflexivity. reflexivity.
Qed.

Lemma C6_update_keeps_id_created_at_glimpse_id_witness :
  exists memory s' updated,
    Map_get "m1" (memories Scenario.two_memories) = Some memory
    /\ updateMemory "m1" Scenario.rename Scenario.two_memories
       = Some (s', updated)
    /\ id updated = id memory
    /\ created_at updated = created_at memory
    /\ glimpse_id updated = glimpse_id memory.
Proof.
  destruct (Map_get "m1" (memories Scenario.two_memories)) as [memory | ] eqn:E;
    [ | vm_compute in E; discriminate].
  destruct (C6_update_keeps_id_created_at_glimpse_id
              Scenario.two_memories "m1" Scenario.rename memory
              (keyed_by_id_run _ _ (keyed_by_id_empty ∅)) E)
    as (s' & updated & H1 & _ & H2 & H3 & H4 & _).
  exists memory, s', updated. auto.
Defined.

(** *** The scores *)

(** [createMemory] and [updateMemory] store the scores they are given. *)
Lemma createMemory_stores_scores_as_given s (memory : Draft)
    (new_id new_glimpse_id : string) (now : number) :
  let (s', newMemory) := createMemory memory new_id new_glimpse_id now s in
  Map_get new_id (memories s') = Some newMemory
  /\ importance newMemory = d_importance memory
  /\ emotion_score newMemory = d_emotion_score memory.
Proof.
  unfold createMemory.
  destruct (match d_linked_memories memory with
            | Some a => pass (arrays s) a
            | None => allocate (arrays s) []
            end) as [h links].
  cbn [memories]. rewrite Map_get_set, String.eqb_refl. auto.
Qed.

Lemma updateMemory_stores_scores_as_given s (id0 : string) (updates : Partial)
    s' updated (x y : number) :
  updateMemory id0 updates s = Some (s', updated) ->
  u_importance updates = Some x ->
  u_emotion_score updates = Some y ->
  Map_get id0 (memories s') = Some updated
  /\ importance updated = x
  /\ emotion_score updated = y.
Proof.
  unfold updateMemory. destruct (Map_get id0 (memories s)) as [memory | ];
    [ | discriminate].
  destruct (match u_linked_memories updates with
            | Some a => pass (arrays s) a
            | None => (arrays s, linked_memories memory)
            end) as [h links].
  intros [= <- <-] Hx Hy. cbn [memories].
  rewrite Map_get_set, String.eqb_refl, Hx, Hy. auto.
Qed.

Lemma scores_in_range_step s op :
  scores_in_range s -> supplies_scores_in_range op ->
  scores_in_range (step s op).
Proof.
  intros Hs Hop k m'.
  destruct op as [memory new_id g now | id0 updates | id0 | a b | id0 now];
    cbn [step].
  - unfold createMemory.
    destruct (match d_linked_memories memory with
              | Some a => pass (arrays s) a
              | None => allocate (arrays s) []
              end) as [h links].
    cbn [fst memories]. rewrite Map_get_set.
    destruct (String.eqb_spec k new_id) as [-> | _]; [ | apply Hs].
    intros [= <-]. exact Hop.
  - unfold updateMemory.
    destruct (Map_get id0 (memories s)) as [memory | ] eqn:E; [ | apply Hs].
    destruct (match u_linked_memories updates with
              | Some a => pass (arrays s) a
              | None => (arrays s, linked_memories memory)
              end) as [h links].
    cbn [memories]. rewrite Map_get_set.
    destruct (String.eqb_spec k id0) as [-> | _]; [ | apply Hs].
    intros [= <-]. cbn. destruct Hop as [Hi He].
    destruct (Hs id0 memory E) as [Hi0 He0]. split.
    + destruct (u_importance updates); cbn; [apply Hi; reflexivity | exact Hi0].
    + destruct (u_emotion_score updates); cbn; [apply He; reflexivity | exact He0].
  - destruct (deleteMemory id0 s) as [s' | ] eqn:E; [ | apply Hs].
    intros Hk.
    destruct (deleteMemory_record _ _ _ _ _ E Hk) as (_ & m0 & Hm & -> & _).
    cbn. apply (Hs k m0 Hm).
  - unfold linkMemories.
    destruct (Map_get a (memories s)), (Map_get b (memories s)); apply Hs.
  - unfold getMemory.
    destruct (Map_get id0 (memories s)) as [memory | ] eqn:E; [ | apply Hs].
    cbn [fst memories]. rewrite Map_get_set.
    destruct (String.eqb_spec k id0) as [-> | _]; [ | apply Hs].
    intros [= <-]. cbn. apply (Hs id0 memory E).
Qed.

(** C1, as the store has it.  The store does not clamp: [createMemory]
    and [updateMemory] store the importance and the emotion score they
    are given, and the other operations leave the two fields alone.  So
    after any sequence of operations every record has its importance in
    [0,1] and its emotion score in [-1,1], provided the records had
    before and every draft and every update of the sequence supplies
    scores in these intervals. *)
Theorem C1_scores_in_range_when_supplied_in_range s (ops : list operation) :
  scores_in_range s ->
  Forall supplies_scores_in_range ops ->
  scores_in_range (run ops s).
Proof.
  revert s. induction ops as [ | op ops IH]; intros s Hs Hops; cbn.
  - exact Hs.
  - apply Forall_cons in Hops as [Hop Hops].
    apply IH; [apply scores_in_range_step; assumption | exact Hops].
Qed.

Lemma C1_scores_in_range_when_supplied_in_range_witness :
  scores_in_range
    (run [ Create (Scenario.draft "A" (decimal 9 (-1)) (num 0))
                  "m1" ">gl0001" (num 1000);
           Update "m1" Scenario.rescore ]
         Scenario.empty_store).
Proof.
  apply C1_scores_in_range_when_supplied_in_range.
  - intros k m. cbn. discriminate.
  - repeat constructor; try (vm_compute; discriminate).
    intros x [= <-]. vm_compute. split; discriminate.
Defined.

(** C1, as the specification states it, fails: the draft with importance
    1.4 and emotion score -5 is stored with these two values. *)
Lemma C1_counterexample :
  ~ scores_in_range
      (run [ Create Scenario.out_of_range "m1" ">gl0001" (num 1000) ]
           Scenario.empty_store).
Proof.
  intros H.
  destruct (Map_get "m1"
              (memories (run [ Create Scenario.out_of_range "m1" ">gl0001"
                                      (num 1000) ]
                             Scenario.empty_store))) as [m0 | ] eqn:E;
    [ | vm_compute in E; discriminate].
  pose proof (H "m1" m0 E) as Hm.
  vm_compute in E. injection E as <-.
  vm_compute in Hm. destruct Hm as [[_ Hi] _]. apply Hi. reflexivity.
Qed.

(** *** The linked memories *)

Lemma allocate_spec h (l : list string) :
  dom h ⊆ dom (allocate h l).1
  /\ (forall r, r ∈ dom h -> contents (allocate h l).1 r = contents h r)
  /\ (allocate h l).2 ∈ dom (allocate h l).1
  /\ contents (allocate h l).1 (allocate h l).2 = l.
Proof.
  unfold allocate. cbn [fst snd].
  pose proof (is_fresh (dom h)) as Hfresh.
  set (r0 := fresh (dom h)) in *.
  split; [apply dom_insert_subseteq | ]. split; [ | split].
  - intros r Hr. rewrite contents_insert.
    destruct (decide (r0 = r)) as [<- | ]; [contradiction | reflexivity].
  - apply elem_of_dom. rewrite lookup_insert_eq. eexists. reflexivity.
  - rewrite contents_insert, decide_True by reflexivity. reflexivity.
Qed.

(** A well-formed array handed in for [own], or the new empty array that
    stands for a missing one, is allocated and well formed in the new
    heap, which keeps the arrays of the old one. *)
Lemma argument_spec h (own : string) (a : option array_argument) :
  well_formed_array h own a ->
  let hr := match a with
            | Some a => pass h a
            | None => allocate h []
            end in
  dom h ⊆ dom hr.1
  /\ (forall r, r ∈ dom h -> contents hr.1 r = contents h r)
  /\ hr.2 ∈ dom hr.1
  /\ NoDup (contents hr.1 hr.2)
  /\ own ∉ contents hr.1 hr.2.
Proof.
  destruct a as [[r | l] | ]; cbn [well_formed_array pass].
  - intros (Hr & Hnd & Hown). cbn. auto.
  - intros (Hnd & Hown). cbn zeta.
    destruct (allocate_spec h l) as (H1 & H2 & H3 & H4).
    rewrite H4. auto.
  - intros _. cbn zeta.
    destruct (allocate_spec h []) as (H1 & H2 & H3 & H4).
    rewrite H4. split; [exact H1 | ]. split; [exact H2 | ].
    split; [exact H3 | ]. split; [apply NoDup_nil_2 | apply not_elem_of_nil].
Qed.

(** What a state with well-formed links needs of a changed one: the
    arrays of the old records are kept, and the one new or changed
    record has a well-formed array. *)
Lemma links_well_formed_set s h' (k0 : string) (m0 : Memory) :
  links_well_formed s ->
  dom (arrays s) ⊆ dom h' ->
  (forall r, r ∈ dom (arrays s) -> contents h' r = contents (arrays s) r) ->
  linked_memories m0 ∈ dom h' ->
  NoDup (contents h' (linked_memories m0)) ->
  k0 ∉ contents h' (linked_memories m0) ->
  links_well_formed {| arrays := h'; memories := Map_set k0 m0 (memories s) |}.
Proof.
  intros (Hrefs & Hnd & Hself) Hdom Hkeep Hr0 Hnd0 Hself0.
  split; [ | split]; intros k m; unfold linked; cbn [memories arrays];
    rewrite Map_get_set;
    destruct (String.eqb_spec k k0) as [-> | _]; intros Hk.
  - injection Hk as <-. exact Hr0.
  - apply Hdom, (Hrefs k m Hk).
  - injection Hk as <-. exact Hnd0.
  - rewrite Hkeep by apply (Hrefs k m Hk). apply (Hnd k m Hk).
  - injection Hk as <-. exact Hself0.
  - rewrite Hkeep by apply (Hrefs k m Hk). apply (Hself k m Hk).
Qed.

Lemma links_well_formed_step s op :
  links_well_formed s -> respects_links s op -> links_well_formed (step s op).
Proof.
  intros Hs Hop.
  destruct op as [memory new_id g now | id0 updates | id0 | a b | id0 now];
    cbn [step respects_links] in *.
  - (* create *)
    unfold createMemory.
    pose proof (argument_spec (arrays s) new_id (d_linked_memories memory) Hop)
      as H. cbn zeta in H.
    destruct (match d_linked_memories memory with
              | Some a => pass (arrays s) a
              | None => allocate (arrays s) []
              end) as [h links].
    cbn [fst snd] in *. destruct H as (H1 & H2 & H3 & H4 & H5).
    apply links_well_formed_set; assumption.
  - (* update *)
    unfold updateMemory.
    destruct (Map_get id0 (memories s)) as [memory | ] eqn:E; [ | exact Hs].
    destruct (u_linked_memories updates) as [a | ] eqn:Ea.
    + pose proof (argument_spec (arrays s) id0 (Some a) Hop) as H.
      cbn zeta in H.
      destruct (pass (arrays s) a) as [h links].
      cbn [fst snd] in *. destruct H as (H1 & H2 & H3 & H4 & H5).
      apply links_well_formed_set; assumption.
    + destruct Hs as (Hrefs & Hnd & Hself).
      apply links_well_formed_set;
        [ split; [ | split]; assumption | reflexivity | reflexivity | | | ];
        cbn [linked_memories].
      * apply (Hrefs id0 memory E).
      * apply (Hnd id0 memory E).
      * apply (Hself id0 memory E).
  - (* delete *)
    destruct (deleteMemory id0 s) as [s' | ] eqn:E; [ | exact Hs].
    destruct Hs as (Hrefs & Hnd & Hself).
    split; [ | split]; intros k m' Hk;
      destruct (deleteMemory_record _ _ _ _ _ E Hk) as (_ & m0 & Hm & _ & H);
      destruct (H (Hrefs k m0 Hm)) as [H1 H2].
    + exact H1.
    + rewrite H2. apply NoDup_filter_out, (Hnd k m0 Hm).
    + rewrite H2. intros Hin. apply elem_of_filter_out in Hin.
      apply (Hself k m0 Hm Hin).
  - (* link *)
    destruct (Map_get a (memories s)) as [ma | ] eqn:Ea;
      [ | unfold linkMemories; rewrite Ea; exact Hs].
    destruct (Map_get b (memories s)) as [mb | ] eqn:Eb;
      [ | unfold linkMemories; rewrite Ea, Eb; exact Hs].
    rewrite (linkMemories_unfold s a b ma mb Ea Eb).
    destruct Hs as (Hrefs & Hnd & Hself).
    specialize (Hop ma mb eq_refl eq_refl).
    split; [ | split]; intros k m Hk; unfold linked; cbn [memories arrays] in *.
    + apply push_unless_included_dom, push_unless_included_dom, (Hrefs k m Hk).
    + apply push_unless_included_NoDup, push_unless_included_NoDup, (Hnd k m Hk).
    + intros Hin.
      apply push_unless_included_inv in Hin as [Hin | [Hr ->]].
      * apply push_unless_included_inv in Hin as [Hin | [Hr ->]].
        -- apply (Hself k m Hk Hin).
        -- rewrite Eb in Hk. injection Hk as <-. congruence.
      * rewrite Ea in Hk. injection Hk as <-. congruence.
  - (* get *)
    unfold getMemory.
    destruct (Map_get id0 (memories s)) as [memory | ] eqn:E; [ | exact Hs].
    cbn [fst].
    destruct Hs as (Hrefs & Hnd & Hself).
    apply links_well_formed_set;
      [ split; [ | split]; assumption | reflexivity | reflexivity | | | ];
      cbn [set_last_accessed linked_memories].
    + apply (Hrefs id0 memory E).
    + apply (Hnd id0 memory E).
    + apply (Hself id0 memory E).
Qed.

(** C9, as the store has it.  No operation checks that a linked
    identifier is not the record's own, and [createMemory] and
    [updateMemory] store the array they are given.  What holds is this:
    a sequence of operations keeps every record's linked memories free
    of its own identifier and of duplicates, provided each array handed
    in with a draft or an update is itself free of them and each
    [linkMemories] is between two records that hold different arrays
    (which excludes [linkMemories(a, a)]). *)
Theorem C9_links_stay_well_formed s (ops : list operation) :
  links_well_formed s ->
  respects_links_throughout s ops ->
  links_well_formed (run ops s).
Proof.
  revert s. induction ops as [ | op ops IH]; intros s Hs Hops; cbn.
  - exact Hs.
  - destruct Hops as [Hop Hops].
    apply IH; [apply links_well_formed_step; assumption | exact Hops].
Qed.

(** [linkMemories] alone never adds an identifier a second time, for
    every pair of arguments. *)
Lemma linkMemories_adds_no_duplicate s a b s' :
  linkMemories a b s = Some s' -> no_duplicate_links s -> no_duplicate_links s'.
Proof.
  unfold linkMemories.
  destruct (Map_get a (memories s)) as [ma | ]; [ | discriminate].
  destruct (Map_get b (memories s)) as [mb | ]; [ | discriminate].
  intros [= <-] Hnd k m Hk. unfold linked. cbn [memories arrays] in *.
  apply (push_unless_included_NoDup _ _ _ _
           (push_unless_included_NoDup _ _ _ _ (Hnd k m Hk))).
Qed.

Lemma links_well_formed_empty : links_well_formed Scenario.empty_store.
Proof. split; [ | split]; intros k m; cbn; discriminate. Qed.

Lemma C9_links_stay_well_formed_witness :
  links_well_formed
    (run [ Link "m1" "m2"; Link "m2" "m1"; Delete "m1" ] Scenario.two_memories).
Proof.
  unfold Scenario.two_memories.
  change (links_well_formed
            (run ([ Create (Scenario.draft "A" (decimal 9 (-1)) (num 0))
                           "m1" ">gl0001" (num 1000);
                    Create (Scenario.draft "B" (decimal 9 (-1)) (num 0))
                           "m2" ">gl0002" (num 2000) ]
                  ++ [ Link "m1" "m2"; Link "m2" "m1"; Delete "m1" ])
                 Scenario.empty_store)).
  apply C9_links_stay_well_formed; [apply links_well_formed_empty | ].
  cbn [respects_links_throughout app]. repeat split.
  - intros ma mb Ha Hb. vm_compute in Ha, Hb.
    injection Ha as <-. injection Hb as <-. vm_compute. discriminate.
  - intros ma mb Ha Hb. vm_compute in Ha, Hb.
    injection Ha as <-. injection Hb as <-. vm_compute. discriminate.
Defined.

(** C9, as the specification states it, fails: [linkMemories("m1", "m1")]
    puts ["m1"] among the linked memories of ["m1"]. *)
Lemma C9_counterexample :
  ~ no_self_link (run [ Link "m1" "m1" ] Scenario.two_memories).
Proof.
  intros H.
  destruct (Map_get "m1" (memories (run [ Link "m1" "m1" ] Scenario.two_memories)))
    as [m0 | ] eqn:E; [ | vm_compute in E; discriminate].
  pose proof (H "m1" m0 E) as Hm.
  vm_compute in E. injection E as <-.
  apply Hm. vm_compute. left.
Qed.

End StoreFacts.

(** ** Search *)

Section SearchFacts.
Import JS Types MemoryStore.

Lemma lt_sub_zero (x y : number) : lt (sub x y) (num 0) = lt x y.
Proof.
  destruct x as [ | | a | ], y as [ | | b | ]; try reflexivity.
  destruct (lt (Fin a) (Fin b)) eqn:E.
  - apply lt_Fin in E. apply lt_Fin. unfold inject_Z. lra.
  - destruct (lt (sub (Fin a) (Fin b)) (num 0)) eqn:E'; [ | reflexivity].
    apply lt_Fin in E'. unfold inject_Z in E'.
    assert (H : (a < b)%Q) by lra. apply lt_Fin in H. congruence.
Qed.

Lemma le_not_NaN (x y : number) :
  le x y = true -> isNaN x = false /\ isNaN y = false.
Proof. destruct x, y; cbn; intros H; try discriminate; auto. Qed.

Lemma le_trans (x y z : number) :
  le x y = true -> le y z = true -> le x z = true.
Proof.
  destruct x as [ | | a | ], y as [ | | b | ], z as [ | | c | ];
    cbn; try discriminate; try reflexivity.
  intros H1%Qle_bool_iff H2%Qle_bool_iff. apply Qle_bool_iff. lra.
Qed.

Lemma lt_le (x y : number) : lt x y = true -> le x y = true.
Proof.
  destruct x as [ | | a | ], y as [ | | b | ]; try discriminate; try reflexivity.
  intros H%lt_Fin. apply le_Fin. lra.
Qed.

Lemma not_lt_ge (x y : number) :
  isNaN x = false -> isNaN y = false -> lt x y = false -> ge x y = true.
Proof.
  unfold ge.
  destruct x as [ | | a | ], y as [ | | b | ]; try discriminate; try reflexivity.
  intros _ _ H. apply le_Fin. destruct (Qlt_le_dec a b) as [Hlt | Hle]; [ | exact Hle].
  apply lt_Fin in Hlt. congruence.
Qed.

Lemma lt_not_equals (x y v : number) :
  lt x y = true -> equals x v = true -> equals y v = false.
Proof.
  unfold equals.
  destruct x as [ | | a | ], y as [ | | b | ], v as [ | | c | ];
    try discriminate; try reflexivity.
  intros H%lt_Fin [H1%Qle_bool_iff H2%Qle_bool_iff]%andb_prop.
  apply andb_false_iff. left. cbn.
  destruct (Qle_bool b c) eqn:E; [ | reflexivity].
  apply Qle_bool_iff in E. lra.
Qed.

(** *** The filters *)

Lemma Forall_List_filter {A : Type} (P : A -> Prop) (f : A -> bool) (l : list A) :
  Forall P l -> Forall P (List.filter f l).
Proof.
  induction 1 as [ | x l Hx _ IH]; cbn; [constructor | ].
  destruct (f x); [constructor; assumption | assumption].
Qed.

Lemma Forall_List_filter_true {A : Type} (f : A -> bool) (l : list A) :
  Forall (fun x => f x = true) (List.filter f l).
Proof.
  induction l as [ | x l IH]; cbn; [constructor | ].
  destruct (f x) eqn:E; [constructor; assumption | assumption].
Qed.

Lemma sublist_List_filter {A : Type} (f : A -> bool) (l : list A) :
  sublist (List.filter f l) l.
Proof.
  induction l as [ | x l IH]; cbn; [constructor | ].
  destruct (f x); [apply sublist_skip | apply sublist_cons]; exact IH.
Qed.

Lemma Forall_filter_if {C : Type} (P : Memory -> Prop) (criterion : option C)
    (applies : C -> bool) (keep : C -> Memory -> bool) (l : list Memory) :
  Forall P l -> Forall P (filter_if criterion applies keep l).
Proof.
  intros H. unfold filter_if. destruct criterion as [c | ]; [ | exact H].
  destruct (applies c); [apply Forall_List_filter, H | exact H].
Qed.

Lemma sublist_filter_if {C : Type} (criterion : option C)
    (applies : C -> bool) (keep : C -> Memory -> bool) (l : list Memory) :
  sublist (filter_if criterion applies keep l) l.
Proof.
  unfold filter_if. destruct criterion as [c | ]; [ | reflexivity].
  destruct (applies c); [apply sublist_List_filter | reflexivity].
Qed.

(** With an importance threshold [t], every record the filters keep has
    an importance of [t] or more. *)
Lemma filtered_importance (params : MemorySearchParams) (t : number)
    (l : list Memory) :
  p_importance_threshold params = Some t ->
  Forall (fun memory => ge (importance memory) t = true) (filtered params l).
Proof.
  intros Ht. unfold filtered. rewrite Ht.
  do 4 apply Forall_filter_if.
  cbn [filter_if defined]. apply Forall_List_filter_true.
Qed.

(** The filters keep the order of the collection. *)
Lemma filtered_sublist (params : MemorySearchParams) (l : list Memory) :
  sublist (filtered params l) l.
Proof.
  unfold filtered.
  repeat (etrans; [apply sublist_filter_if | ]). reflexivity.
Qed.

(** *** The sort *)

Lemma insert_sorted_Permutation {A : Type} (comparefn : A -> A -> number)
    (x : A) (l : list A) :
  Permutation (insert_sorted comparefn x l) (x :: l).
Proof.
  induction l as [ | y l IH]; cbn; [reflexivity | ].
  destruct (sorts_before comparefn y x); [ | reflexivity].
  rewrite IH. apply perm_swap.
Qed.

Lemma sort_Permutation {A : Type} (comparefn : A -> A -> number) (l : list A) :
  Permutation (sort comparefn l) l.
Proof.
  induction l as [ | x l IH]; cbn; [reflexivity | ].
  rewrite insert_sorted_Permutation. apply perm_skip, IH.
Qed.

Lemma sorts_before_by_importance (y x : Memory) :
  sorts_before by_importance y x = lt (importance x) (importance y).
Proof. unfold sorts_before, by_importance. apply lt_sub_zero. Qed.

Lemma insert_sorted_ranked (x : Memory) (l : list Memory) :
  isNaN (importance x) = false ->
  Forall (fun m => isNaN (importance m) = false) l ->
  StronglySorted ranked_before l ->
  StronglySorted ranked_before (insert_sorted by_importance x l).
Proof.
  intros Hx Hl Hsorted.
  induction Hsorted as [ | y r Hr IH Hy]; cbn.
  - constructor; constructor.
  - apply Forall_cons in Hl as [Hy0 Hl].
    rewrite sorts_before_by_importance.
    destruct (lt (importance x) (importance y)) eqn:E.
    + constructor; [apply IH, Hl | ].
      apply (Permutation_Forall (Permutation_sym (insert_sorted_Permutation _ x r))).
      constructor; [ | exact Hy].
      apply lt_le, E.
    + assert (Hxy : ranked_before x y) by (apply not_lt_ge; assumption).
      constructor; [constructor; assumption | ].
      constructor; [exact Hxy | ].
      eapply Forall_impl; [exact Hy | ].
      intros z Hz. unfold ranked_before, ge in *.
      apply (le_trans _ (importance y)); assumption.
Qed.

Lemma sort_ranked (l : list Memory) :
  Forall (fun m => isNaN (importance m) = false) l ->
  StronglySorted ranked_before (sort by_importance l).
Proof.
  induction 1 as [ | x l Hx Hl IH]; cbn; [constructor | ].
  apply insert_sorted_ranked; [exact Hx | | exact IH].
  apply (Permutation_Forall (Permutation_sym (sort_Permutation _ l))), Hl.
Qed.

Lemma insert_sorted_stable (v : number) (x : Memory) (l : list Memory) :
  with_importance v (insert_sorted by_importance x l)
  = with_importance v (x :: l).
Proof.
  unfold with_importance.
  induction l as [ | y r IH]; cbn; [reflexivity | ].
  rewrite sorts_before_by_importance.
  destruct (lt (importance x) (importance y)) eqn:E; [ | reflexivity].
  cbn. rewrite IH. cbn.
  destruct (equals (importance x) v) eqn:Ex; [ | reflexivity].
  rewrite (lt_not_equals _ _ _ E Ex). reflexivity.
Qed.

Lemma sort_stable (v : number) (l : list Memory) :
  with_importance v (sort by_importance l) = with_importance v l.
Proof.
  induction l as [ | x l IH]; [reflexivity | ].
  change (sort by_importance (x :: l))
    with (insert_sorted by_importance x (sort by_importance l)).
  rewrite insert_sorted_stable. unfold with_importance in *.
  cbn [List.filter]. rewrite IH. reflexivity.
Qed.

(** *** The truncation *)

Lemma slice0_length {A : Type} (l : list A) (n : number) :
  lt (num 0) n = true ->
  le (num (Z.of_nat (length (slice0 l n)))) n = true.
Proof.
  destruct n as [ | | q | ]; try discriminate; [ | reflexivity].
  intros Hq%lt_Fin. unfold slice0, slice_end, ToIntegerOrInfinity.
  destruct q as [a d]. unfold Qlt in Hq. cbn in Hq.
  assert (Ha : (0 < a)%Z) by lia.
  assert (Hquot : (0 <= a ÷ Z.pos d)%Z) by (apply Z.quot_pos; lia).
  cbn [Qnum Qden]. destruct (Z.ltb_spec (a ÷ Z.pos d) 0) as [Hneg | _]; [lia | ].
  apply le_Fin. unfold Qle. cbn.
  rewrite length_firstn.
  assert (Hmul : (Z.pos d * (a ÷ Z.pos d) <= a)%Z).
  { rewrite Z.quot_div_nonneg by lia. apply Z.mul_div_le. lia. }
  nia.
Qed.

Lemma number_truthy_positive (n : number) :
  lt (num 0) n = true -> number_truthy n = true.
Proof.
  destruct n as [ | | q | ]; try discriminate; try reflexivity.
  intros Hq%lt_Fin. cbn. destruct (Qeq_bool q 0) eqn:E; [ | reflexivity].
  apply Qeq_bool_iff in E. unfold inject_Z in Hq. lra.
Qed.

Lemma StronglySorted_firstn {A : Type} (R : A -> A -> Prop) (k : nat)
    (l : list A) :
  StronglySorted R l -> StronglySorted R (firstn k l).
Proof.
  intros H. revert k.
  induction H as [ | x l Hl IH Hx]; intros [ | k]; cbn; try constructor.
  - apply IH.
  - apply Forall_take, Hx.
Qed.

Lemma firstn_length_firstn {A : Type} (k : nat) (l : list A) :
  firstn (length (firstn k l)) l = firstn k l.
Proof.
  rewrite length_firstn. destruct (Nat.le_ge_cases k (length l)).
  - rewrite Nat.min_l by lia. reflexivity.
  - rewrite Nat.min_r by lia. rewrite firstn_all, firstn_all2 by lia.
    reflexivity.
Qed.

(** C5, as the search has it.  With an importance threshold [t] and a
    limit [n] greater than zero, [searchMemories] returns at most [n]
    records, each of importance [t] or more, in order of non-increasing
    importance.  They are the first records of the sorted list of all
    the records that pass the filters: the truncation comes after the
    sort.  The sort is stable: the records of one importance are in the
    sorted list in the order they have in the collection searched. *)
Theorem C5_search_with_threshold_and_positive_limit
    (params : MemorySearchParams) (s : Store) (t n : number) :
  p_importance_threshold params = Some t ->
  p_limit params = Some n ->
  lt (num 0) n = true ->
  let candidates := filtered params (collection params s) in
  let ranked := sort by_importance candidates in
  let results := searchMemories params s in
  le (num (Z.of_nat (length results))) n = true
  /\ Forall (fun memory => ge (importance memory) t = true) results
  /\ StronglySorted ranked_before results
  /\ results = slice0 ranked n
  /\ results = firstn (length results) ranked
  /\ Permutation ranked candidates
  /\ sublist candidates (collection params s)
  /\ forall v, with_importance v ranked = with_importance v candidates.
Proof.
  intros Ht Hn Hpos candidates ranked results.
  assert (Hresults : results = slice0 ranked n).
  { unfold results, searchMemories. rewrite Hn.
    rewrite (number_truthy_positive n Hpos). reflexivity. }
  assert (Hcandidates : Forall (fun memory => ge (importance memory) t = true)
                               candidates).
  { apply filtered_importance, Ht. }
  assert (Hperm : Permutation ranked candidates) by apply sort_Permutation.
  assert (Hranked : StronglySorted ranked_before ranked).
  { apply sort_ranked. eapply Forall_impl; [exact Hcandidates | ].
    intros m Hm. apply (le_not_NaN _ _ Hm). }
  split; [rewrite Hresults; apply slice0_length, Hpos | ].
  split.
  { rewrite Hresults. unfold slice0. apply Forall_take.
    apply (Permutation_Forall (Permutation_sym Hperm)), Hcandidates. }
  split; [rewrite Hresults; apply StronglySorted_firstn, Hranked | ].
  split; [exact Hresults | ].
  split.
  { rewrite Hresults. unfold slice0. symmetry. apply firstn_length_firstn. }
  split; [exact Hperm | ].
  split; [apply filtered_sublist | ].
  intros v. apply sort_stable.
Qed.

Lemma C5_search_with_threshold_and_positive_limit_witness :
  let results :=
    searchMemories (Scenario.threshold_and_limit (decimal 5 (-1)) (num 1))
                   Scenario.two_memories in
  le (num (Z.of_nat (length results))) (num 1) = true
  /\ Forall (fun memory => ge (importance memory) (decimal 5 (-1)) = true)
            results
  /\ StronglySorted ranked_before results.
Proof.
  destruct (C5_search_with_threshold_and_positive_limit
              (Scenario.threshold_and_limit (decimal 5 (-1)) (num 1))
              Scenario.two_memories (decimal 5 (-1)) (num 1)
              eq_refl eq_refl eq_refl) as (H1 & H2 & H3 & _).
  cbn zeta. auto.
Defined.

(** C5, as the specification states it, fails for the limit 0: the test
    [if (params.limit)] takes it for a missing limit, and both records of
    the store are returned. *)
Lemma C5_counterexample :
  le (num (Z.of_nat (length
        (searchMemories (Scenario.threshold_and_limit (decimal 5 (-1)) (num 0))
                        Scenario.two_memories))))
     (num 0) <> true.
Proof. vm_compute. discriminate. Qed.

(** Of two records of importance 0.9 that match, a search with limit 1
    returns the one inserted first. *)
Example search_returns_first_of_equals :
  map id (searchMemories Scenario.general_first Scenario.two_memories) = ["m1"].
Proof. vm_compute. reflexivity. Qed.

End SearchFacts.

(** ** The memory manager: loading, keys *)

Section LoadFacts.
Import JS Types MemoryStore MemoryGraph.

Lemma keys_Map_set (k : string) (v : Memory) (ms : list (string * Memory)) :
  keys (Map_set k v ms)
  = match Map_get k ms with
    | Some _ => keys ms
    | None => keys ms ++ [k]
    end.
Proof.
  unfold keys. induction ms as [ | [k0 v0] ms IH]; cbn; [reflexivity | ].
  destruct (String.eqb_spec k k0) as [-> | Hk]; cbn; [reflexivity | ].
  rewrite IH. destruct (Map_get k ms); reflexivity.
Qed.

Lemma Map_get_None_keys (k : string) (ms : list (string * Memory)) :
  Map_get k ms = None <-> k ∉ keys ms.
Proof.
  unfold keys. induction ms as [ | [k0 v0] ms IH]; cbn.
  - split; [intros _; apply not_elem_of_nil | reflexivity].
  - rewrite not_elem_of_cons.
    destruct (String.eqb_spec k k0) as [-> | Hk].
    + split; [discriminate | intros [H _]; congruence].
    + rewrite IH. tauto.
Qed.

Lemma keys_unique_Map_set (k : string) (v : Memory) (ms : list (string * Memory)) :
  NoDup (keys ms) -> NoDup (keys (Map_set k v ms)).
Proof.
  intros H. rewrite keys_Map_set. destruct (Map_get k ms) eqn:E; [exact H | ].
  apply NoDup_app. split; [exact H | ]. split.
  - intros x Hx Hx'. apply list_elem_of_singleton in Hx'. subst x.
    apply Map_get_None_keys in E. contradiction.
  - apply NoDup_singleton.
Qed.

Lemma keys_Map_delete (k : string) (ms : list (string * Memory)) :
  keys (Map_delete k ms) = List.filter (fun k' => negb (String.eqb k k')) (keys ms).
Proof.
  unfold keys. induction ms as [ | [k0 v0] ms IH]; cbn; [reflexivity | ].
  destruct (String.eqb k k0); cbn; rewrite IH; reflexivity.
Qed.

Lemma NoDup_List_filter {A : Type} (f : A -> bool) (l : list A) :
  NoDup l -> NoDup (List.filter f l).
Proof.
  induction l as [ | x l IH]; cbn; [auto | ].
  intros [Hx Hl]%NoDup_cons. destruct (f x); [ | auto].
  apply NoDup_cons. split; [ | auto].
  intros Hin. apply Hx.
  apply list_elem_of_In, filter_In in Hin as [Hin _]. apply list_elem_of_In, Hin.
Qed.

Lemma cascade_keys (id0 : string) (entries : list (string * Memory)) :
  forall h, keys (cascade id0 h entries).2 = keys entries.
Proof.
  unfold keys. induction entries as [ | [k mem] rest IH]; intros h; cbn;
    [reflexivity | ].
  destruct (Array_includes (contents h (linked_memories mem)) id0).
  - unfold allocate.
    specialize (IH (<[fresh (dom h) :=
                      List.filter (fun linkId => negb (String.eqb linkId id0))
                                  (contents h (linked_memories mem))]> h)).
    destruct (cascade id0 _ rest) as [h2 rest']. cbn in *. rewrite IH. reflexivity.
  - specialize (IH h). destruct (cascade id0 h rest) as [h2 rest'].
    cbn in *. rewrite IH. reflexivity.
Qed.

Lemma keys_unique_step (s : Store) (op : operation) :
  keys_unique s -> keys_unique (step s op).
Proof.
  unfold keys_unique. intros Hs.
  destruct op as [memory new_id g now | id0 updates | id0 | a b | id0 now];
    cbn [step].
  - unfold createMemory.
    destruct (match d_linked_memories memory with
              | Some a => pass (arrays s) a
              | None => allocate (arrays s) []
              end) as [h links].
    cbn [fst memories]. apply keys_unique_Map_set, Hs.
  - unfold updateMemory.
    destruct (Map_get id0 (memories s)) as [memory | ]; [ | exact Hs].
    destruct (match u_linked_memories updates with
              | Some a => pass (arrays s) a
              | None => (arrays s, linked_memories memory)
              end) as [h links].
    cbn [memories]. apply keys_unique_Map_set, Hs.
  - unfold deleteMemory.
    destruct (Map_get id0 (memories s)) as [memory | ]; [ | exact Hs].
    pose proof (cascade_keys id0 (Map_delete id0 (memories s)) (arrays s)) as H.
    destruct (cascade id0 (arrays s) (Map_delete id0 (memories s)))
      as [h entries]. cbn [memories snd] in *.
    rewrite H, keys_Map_delete. apply NoDup_List_filter, Hs.
  - unfold linkMemories.
    destruct (Map_get a (memories s)), (Map_get b (memories s)); exact Hs.
  - unfold getMemory.
    destruct (Map_get id0 (memories s)) as [memory | ]; [ | exact Hs].
    cbn [fst memories]. apply keys_unique_Map_set, Hs.
Qed.

Lemma initialize_fold (loaded : list Memory) (acc : list (string * Memory))
    (k : string) :
  Map_get k (fold_left (fun ms memory => Map_set (id memory) memory ms)
                       loaded acc)
  = match last_with_id k loaded with
    | Some memory => Some memory
    | None => Map_get k acc
    end.
Proof.
  unfold last_with_id. revert acc.
  induction loaded as [ | x l IH]; intros acc; [reflexivity | ].
  cbn [fold_left List.filter]. rewrite IH.
  destruct (String.eqb_spec (id x) k) as [Hx | Hx].
  - rewrite last_cons. destruct (last (List.filter _ l)); [reflexivity | ].
    rewrite Map_get_set. subst k. rewrite String.eqb_refl. reflexivity.
  - destruct (last (List.filter _ l)); [reflexivity | ].
    rewrite Map_get_set.
    destruct (String.eqb_spec k (id x)); [congruence | reflexivity].
Qed.

Lemma keys_unique_initialize (loaded : list Memory) :
  NoDup (keys (initialize loaded)).
Proof.
  unfold initialize.
  assert (G : forall (l : list Memory) (acc : list (string * Memory)),
             NoDup (keys acc) ->
             NoDup (keys (fold_left
                            (fun ms memory => Map_set (id memory) memory ms)
                            l acc))).
  { induction l as [ | x l IH]; intros acc Hacc; cbn; [exact Hacc | ].
    apply IH, keys_unique_Map_set, Hacc. }
  apply G. apply NoDup_nil_2.
Qed.

Lemma keys_unique_run (ops : list operation) (s : Store) :
  keys_unique s -> keys_unique (run ops s).
Proof.
  revert s. induction ops as [ | op ops IH]; intros s Hs; cbn; [exact Hs | ].
  apply IH, keys_unique_step, Hs.
Qed.

(** X1.  [initialize] keeps one entry for each identifier of the loaded
    array: looking up [k] gives the last loaded record whose [id] is [k]
    (a later record replaces an earlier one with the same [id]), nothing
    when no loaded record has it, and no key occurs twice. *)
Theorem X1_initialize_last_record_wins (loaded : list Memory) :
  (forall k, Map_get k (initialize loaded) = last_with_id k loaded)
  /\ NoDup (keys (initialize loaded)).
Proof.
  split; [ | apply keys_unique_initialize].
  intros k. unfold initialize. rewrite initialize_fold. cbn.
  destruct (last_with_id k loaded); reflexivity.
Qed.

(** X2.  Whatever array is loaded and whatever operations follow, the
    map of the manager keeps each key once and every record under its
    own [id]. *)
Theorem X2_map_keys_are_the_record_ids (loaded : list Memory)
    (h : gmap ref (list string)) (ops : list operation) :
  let s := run ops {| arrays := h; memories := initialize loaded |} in
  keys_unique s /\ keyed_by_id s.
Proof.
  cbn zeta. split.
  - apply keys_unique_run. apply keys_unique_initialize.
  - apply keyed_by_id_run, keyed_by_id_initialize.
Qed.

End LoadFacts.

(** ** The memory manager: what each operation changes *)

Section OperationFacts.
Import JS Types MemoryStore MemoryGraph.

Implicit Types (s : Store) (h : gmap ref (list string)) (r : ref).
Implicit Types (m memory : Memory) (k a b : string).

Lemma references_allocated_two_memories :
  references_allocated Scenario.two_memories.
Proof.
  assert (H : links_well_formed Scenario.two_memories).
  { unfold Scenario.two_memories, run. cbn [fold_left].
    apply links_well_formed_step; [ | exact I].
    apply links_well_formed_step; [ | exact I].
    apply links_well_formed_empty. }
  apply H.
Qed.

(** X3.  [createMemory] stores the new record under the generated
    identifier, with the generated glimpse reference and the time of
    creation, an empty observation and no linked memories where the
    draft has none; every other key keeps its record, every record of
    the store keeps its linked memories, and the map grows by the new
    key unless a record of that identifier was there, which is then
    replaced. *)
Theorem X3_createMemory_adds_the_record s (memory : Draft)
    (new_id new_glimpse_id : string) (now : number) :
  references_allocated s ->
  let s' := (createMemory memory new_id new_glimpse_id now s).1 in
  let newMemory := (createMemory memory new_id new_glimpse_id now s).2 in
  Map_get new_id (memories s') = Some newMemory
  /\ id newMemory = new_id
  /\ glimpse_id newMemory = new_glimpse_id
  /\ created_at newMemory = now
  /\ observation newMemory = default "" (d_observation memory)
  /\ linked s' newMemory
     = match d_linked_memories memory with
       | Some (Existing r) => contents (arrays s) r
       | Some (Literal l) => l
       | None => []
       end
  /\ (forall k, k <> new_id -> Map_get k (memories s') = Map_get k (memories s))
  /\ (forall k m, Map_get k (memories s) = Some m -> linked s' m = linked s m)
  /\ keys (memories s')
     = match Map_get new_id (memories s) with
       | Some _ => keys (memories s)
       | None => keys (memories s) ++ [new_id]
       end.
Proof.
  intros Hrefs. unfold createMemory.
  assert (Hh : let hr := match d_linked_memories memory with
                         | Some a => pass (arrays s) a
                         | None => allocate (arrays s) []
                         end in
               (forall r, r ∈ dom (arrays s) ->
                          contents hr.1 r = contents (arrays s) r)
               /\ contents hr.1 hr.2
                  = match d_linked_memories memory with
                    | Some (Existing r) => contents (arrays s) r
                    | Some (Literal l) => l
                    | None => []
                    end).
  { destruct (d_linked_memories memory) as [[r | l] | ]; cbn [pass]; cbn zeta.
    - split; [auto | reflexivity].
    - destruct (allocate_spec (arrays s) l) as (_ & H2 & _ & H4). auto.
    - destruct (allocate_spec (arrays s) []) as (_ & H2 & _ & H4). auto. }
  cbn zeta in Hh.
  destruct (match d_linked_memories memory with
            | Some a => pass (arrays s) a
            | None => allocate (arrays s) []
            end) as [h links].
  cbn [fst snd] in *. destruct Hh as [Hkeep Hnew].
  unfold linked. cbn [memories arrays linked_memories id glimpse_id created_at
                      observation].
  rewrite Map_get_set, String.eqb_refl.
  repeat (split; [reflexivity | ]). split; [exact Hnew | ]. split; [ | split].
  - intros k Hk. rewrite Map_get_set.
    destruct (String.eqb_spec k new_id); [contradiction | reflexivity].
  - intros k m Hm. apply Hkeep, (Hrefs k m Hm).
  - apply keys_Map_set.
Qed.

Lemma X3_createMemory_adds_the_record_witness :
  let s' := (createMemory (Scenario.draft "C" (decimal 5 (-1)) (num 0))
                          "m3" ">gl0003" (num 3000) Scenario.two_memories).1 in
  let newMemory := (createMemory (Scenario.draft "C" (decimal 5 (-1)) (num 0))
                          "m3" ">gl0003" (num 3000) Scenario.two_memories).2 in
  Map_get "m3" (memories s') = Some newMemory
  /\ linked s' newMemory = []
  /\ keys (memories s') = ["m1"; "m2"; "m3"].
Proof.
  destruct (X3_createMemory_adds_the_record
              Scenario.two_memories
              (Scenario.draft "C" (decimal 5 (-1)) (num 0))
              "m3" ">gl0003" (num 3000) references_allocated_two_memories)
    as (H1 & _ & _ & _ & _ & H6 & _ & _ & H9).
  cbn zeta. split; [exact H1 | ]. split; [exact H6 | ].
  rewrite H9. vm_compute. reflexivity.
Defined.

(** X4.  [getMemory] of an identifier that is not in the store returns
    nothing and changes nothing.  For one that is, it returns the
    record with [last_accessed] set to the current time and nothing else
    changed, stores it under the same key in the same place, and leaves
    the arrays and every other record as they were. *)
Theorem X4_getMemory_touches_last_accessed_only s (id0 : string)
    (now : number) :
  match Map_get id0 (memories s) with
  | None => getMemory id0 now s = (s, None)
  | Some memory =>
      exists s' touched,
        getMemory id0 now s = (s', Some touched)
        /\ touched = set_last_accessed memory now
        /\ last_accessed touched = Some now
        /\ Map_get id0 (memories s') = Some touched
        /\ arrays s' = arrays s
        /\ keys (memories s') = keys (memories s)
        /\ (forall k, k <> id0 ->
              Map_get k (memories s') = Map_get k (memories s))
  end.
Proof.
  unfold getMemory. destruct (Map_get id0 (memories s)) as [memory | ] eqn:E;
    [ | reflexivity].
  eexists. eexists. split; [reflexivity | ]. cbn [memories arrays].
  split; [reflexivity | ]. split; [reflexivity | ].
  rewrite Map_get_set, String.eqb_refl. split; [reflexivity | ].
  split; [reflexivity | ]. split.
  - rewrite keys_Map_set, E. reflexivity.
  - intros k Hk. rewrite Map_get_set.
    destruct (String.eqb_spec k id0); [contradiction | reflexivity].
Qed.

(** *** The cascade, exactly *)

Lemma cascade_exact (id0 : string) (entries : list (string * Memory)) :
  forall h h' entries',
    cascade id0 h entries = (h', entries') ->
    Forall (fun e => linked_memories e.2 ∈ dom h) entries ->
    Forall2 (fun e e' =>
               e'.1 = e.1
               /\ e'.2 = set_linked_memories e.2 (linked_memories e'.2)
               /\ contents h' (linked_memories e'.2)
                  = List.filter (fun linkId => negb (String.eqb linkId id0))
                                (contents h (linked_memories e.2))
               /\ (id0 ∉ contents h (linked_memories e.2) -> e' = e))
            entries entries'.
Proof.
  induction entries as [ | [k mem] rest IH]; intros h h' entries' H Hall;
    cbn in H.
  - injection H as <- <-. constructor.
  - apply Forall_cons in Hall as [Hmem Hall]. cbn in Hmem.
    destruct (Array_includes (contents h (linked_memories mem)) id0) eqn:E.
    + unfold allocate in H.
      pose proof (is_fresh (dom h)) as Hfresh.
      set (r0 := fresh (dom h)) in *.
      set (l0 := List.filter _ _) in *.
      destruct (cascade id0 (<[r0 := l0]> h) rest) as [h2 rest'] eqn:Erest.
      injection H as <- <-.
      destruct (cascade_spec _ _ _ _ _ Erest) as (_ & Hkeep2 & _).
      assert (Hold : forall r, r ∈ dom h ->
                               contents (<[r0 := l0]> h) r = contents h r).
      { intros r Hr. rewrite contents_insert.
        destruct (decide (r0 = r)) as [<- | ]; [contradiction | reflexivity]. }
      assert (Hall1 : Forall (fun e => linked_memories e.2 ∈ dom (<[r0 := l0]> h))
                             rest).
      { eapply Forall_impl; [exact Hall | ].
        intros e He. apply (dom_insert_subseteq h r0 l0), He. }
      constructor.
      * split; [reflexivity | ]. split; [reflexivity | ]. cbn. split.
        -- rewrite Hkeep2
             by (apply elem_of_dom; rewrite lookup_insert_eq; eexists; reflexivity).
           rewrite contents_insert, decide_True by reflexivity. reflexivity.
        -- intros Hno. apply Array_includes_true in E. contradiction.
      * pose proof (IH _ _ _ Erest Hall1) as IH'.
        clear - IH' Hall Hold.
        induction IH' as [ | e e' l l' (H1 & H2 & H3 & H4) _ IHl];
          [constructor | ].
        apply Forall_cons in Hall as [He Hall].
        constructor; [ | apply IHl, Hall].
        rewrite Hold in H3, H4 by exact He. auto.
    + destruct (cascade id0 h rest) as [h2 rest'] eqn:Erest.
      injection H as <- <-.
      destruct (cascade_spec _ _ _ _ _ Erest) as (_ & Hkeep2 & _).
      constructor; [ | apply (IH _ _ _ Erest Hall)].
      split; [reflexivity | ]. split; [apply set_linked_memories_same | ].
      cbn. split; [ | reflexivity].
      rewrite Hkeep2 by exact Hmem.
      symmetry. apply filter_out_absent, Array_includes_false, E.
Qed.

Lemma Forall_references_allocated s (id0 : string) :
  keys_unique s -> references_allocated s ->
  Forall (fun e => linked_memories e.2 ∈ dom (arrays s))
         (Map_delete id0 (memories s)).
Proof.
  unfold keys_unique, references_allocated.
  generalize (arrays s) as h. intros h.
  induction (memories s) as [ | [k0 v0] ms IH]; intros Hkeys Hrefs; cbn;
    [constructor | ].
  cbn in Hkeys. apply NoDup_cons in Hkeys as [Hk0 Hkeys].
  assert (Htail : forall k m, Map_get k ms = Some m -> linked_memories m ∈ dom h).
  { intros k m Hm. apply (Hrefs k m). cbn.
    destruct (String.eqb_spec k k0) as [-> | _]; [ | exact Hm].
    apply Map_get_elem_of in Hm.
    exfalso. apply Hk0. apply list_elem_of_fmap. exists (k0, m). auto. }
  destruct (String.eqb_spec id0 k0) as [-> | Hne]; [apply IH; assumption | ].
  constructor; [ | apply IH; assumption].
  cbn. apply (Hrefs k0 v0). cbn. rewrite String.eqb_refl. reflexivity.
Qed.

Lemma deleteMemory_exact s a ma :
  keys_unique s ->
  references_allocated s ->
  Map_get a (memories s) = Some ma ->
  exists s',
    deleteMemory a s = Some s'
    /\ keys (memories s')
       = List.filter (fun k => negb (String.eqb a k)) (keys (memories s))
    /\ forall k m,
         k <> a -> Map_get k (memories s) = Some m ->
         exists m',
           Map_get k (memories s') = Some m'
           /\ m' = set_linked_memories m (linked_memories m')
           /\ linked s' m'
              = List.filter (fun linkId => negb (String.eqb linkId a))
                            (linked s m)
           /\ (a ∉ linked s m -> m' = m).
Proof.
  intros Hkeys Hrefs Ha. eexists.
  split; [apply (deleteMemory_unfold s a ma Ha) | ].
  cbn [memories arrays]. unfold linked. cbn [memories arrays].
  pose proof (cascade_keys a (Map_delete a (memories s)) (arrays s)) as Hk.
  destruct (cascade a (arrays s) (Map_delete a (memories s)))
    as [h' entries'] eqn:E. cbn [fst snd] in *.
  split; [rewrite Hk; apply keys_Map_delete | ].
  intros k m Hne Hm.
  pose proof (cascade_exact _ _ _ _ _ E (Forall_references_allocated s a Hkeys Hrefs))
    as Hexact.
  pose proof (Forall2_Map_get
                (R := fun e e' =>
                        e'.2 = set_linked_memories e.2 (linked_memories e'.2)
                        /\ contents h' (linked_memories e'.2)
                           = List.filter
                               (fun linkId => negb (String.eqb linkId a))
                               (contents (arrays s) (linked_memories e.2))
                        /\ (a ∉ contents (arrays s) (linked_memories e.2) ->
                            e' = e))
                (Map_delete a (memories s)) entries' k Hexact) as H.
  rewrite Map_get_delete in H.
  destruct (String.eqb_spec k a); [contradiction | ].
  rewrite Hm in H. destruct (Map_get k entries') as [m' | ]; [ | contradiction].
  exists m'. cbn in H. destruct H as (H1 & H2 & H3).
  split; [reflexivity | ]. split; [exact H1 | ]. split; [exact H2 | ].
  intros Hno. specialize (H3 Hno). congruence.
Qed.

(** X5.  After [deleteMemory(a)] the keys are those of before without
    [a], in the same order, and every remaining record differs from what
    it was in its linked memories only: they are those of before
    without [a], in the same order.  A record that did not link to [a]
    is left as it was. *)
Theorem X5_deleteMemory_removes_the_id_from_each_list s a ma :
  keys_unique s ->
  references_allocated s ->
  Map_get a (memories s) = Some ma ->
  exists s',
    deleteMemory a s = Some s'
    /\ keys (memories s')
       = List.filter (fun k => negb (String.eqb a k)) (keys (memories s))
    /\ forall k m,
         k <> a -> Map_get k (memories s) = Some m ->
         exists m',
           Map_get k (memories s') = Some m'
           /\ m' = set_linked_memories m (linked_memories m')
           /\ linked s' m'
              = List.filter (fun linkId => negb (String.eqb linkId a))
                            (linked s m)
           /\ (a ∉ linked s m -> m' = m).
Proof. apply deleteMemory_exact. Qed.

Lemma links_well_formed_linked_pair : links_well_formed Scenario.linked_pair.
Proof.
  unfold Scenario.linked_pair, Scenario.two_memories, run. cbn [fold_left].
  apply links_well_formed_step.
  - apply links_well_formed_step; [ | exact I].
    apply links_well_formed_step; [ | exact I].
    apply links_well_formed_empty.
  - intros ma mb Ha Hb. vm_compute in Ha, Hb.
    injection Ha as <-. injection Hb as <-. vm_compute. discriminate.
Qed.

Lemma keys_unique_linked_pair : keys_unique Scenario.linked_pair.
Proof.
  unfold Scenario.linked_pair, Scenario.two_memories.
  do 2 apply keys_unique_run. apply NoDup_nil_2.
Qed.

Lemma X5_deleteMemory_removes_the_id_from_each_list_witness :
  exists s',
    deleteMemory "m1" Scenario.linked_pair = Some s'
    /\ keys (memories s') = ["m2"]
    /\ exists m', Map_get "m2" (memories s') = Some m' /\ linked s' m' = [].
Proof.
  destruct (Map_get "m1" (memories Scenario.linked_pair)) as [ma | ] eqn:Ea;
    [ | vm_compute in Ea; discriminate].
  destruct (Map_get "m2" (memories Scenario.linked_pair)) as [mb | ] eqn:Eb;
    [ | vm_compute in Eb; discriminate].
  destruct (X5_deleteMemory_removes_the_id_from_each_list
              Scenario.linked_pair "m1" ma keys_unique_linked_pair
              (proj1 links_well_formed_linked_pair) Ea)
    as (s' & H1 & H2 & H3).
  exists s'. split; [exact H1 | ]. split; [rewrite H2; vm_compute; reflexivity | ].
  assert (Hne : "m2" <> "m1") by discriminate.
  destruct (H3 "m2" mb Hne Eb) as (m' & H4 & _ & H6 & _).
  exists m'. split; [exact H4 | ]. rewrite H6.
  vm_compute in Eb. injection Eb as <-. vm_compute. reflexivity.
Defined.

(** *** [linkMemories] *)

Lemma push_unless_included_contents h r (x : string) r' :
  exists added,
    contents (push_unless_included h r x) r' = contents h r' ++ added
    /\ (added = [] \/ (added = [x] /\ r' = r /\ x ∉ contents h r)).
Proof.
  unfold push_unless_included.
  destruct (Array_includes (contents h r) x) eqn:E.
  - exists []. rewrite app_nil_r. auto.
  - apply Array_includes_false in E. rewrite contents_push.
    destruct (decide (r = r')) as [<- | ].
    + exists [x]. auto.
    + exists []. rewrite app_nil_r. auto.
Qed.

(** X6.  [linkMemories] changes no record and only ever appends: every
    array afterwards is what it was, followed by nothing, by the target
    identifier, by the source identifier, or by both in this order. *)
Theorem X6_linkMemories_only_appends s (sourceId targetId : string) s' :
  linkMemories sourceId targetId s = Some s' ->
  memories s' = memories s
  /\ forall r, exists added,
       contents (arrays s') r = contents (arrays s) r ++ added
       /\ sublist added [targetId; sourceId].
Proof.
  unfold linkMemories.
  destruct (Map_get sourceId (memories s)) as [ma | ]; [ | discriminate].
  destruct (Map_get targetId (memories s)) as [mb | ]; [ | discriminate].
  intros [= <-]. cbn [memories arrays]. split; [reflexivity | ].
  intros r.
  destruct (push_unless_included_contents
              (push_unless_included (arrays s) (linked_memories ma) targetId)
              (linked_memories mb) sourceId r) as (add2 & -> & H2).
  destruct (push_unless_included_contents
              (arrays s) (linked_memories ma) targetId r) as (add1 & -> & H1).
  exists (add1 ++ add2). split; [rewrite app_assoc; reflexivity | ].
  destruct H1 as [-> | (-> & _)], H2 as [-> | (-> & _)]; cbn.
  - apply sublist_nil_l.
  - apply sublist_cons, sublist_skip, sublist_nil.
  - apply sublist_skip, sublist_nil_l.
  - reflexivity.
Qed.

Lemma X6_linkMemories_only_appends_witness :
  exists s',
    linkMemories "m1" "m2" Scenario.two_memories = Some s'
    /\ memories s' = memories Scenario.two_memories.
Proof.
  destruct (linkMemories "m1" "m2" Scenario.two_memories) as [s' | ] eqn:E;
    [ | vm_compute in E; discriminate].
  exists s'. split; [reflexivity | ].
  apply (X6_linkMemories_only_appends Scenario.two_memories "m1" "m2" s' E).
Defined.

(** X7.  Linking and then deleting undoes the link: for two records [a]
    and [b] with different arrays, [b] not yet linking to [a], after
    [linkMemories(a, b)] and [deleteMemory(a)] the linked memories of
    [b] are what they were before the two calls. *)
Theorem X7_link_then_delete_restores_the_other_record s a b ma mb :
  keys_unique s ->
  references_allocated s ->
  Map_get a (memories s) = Some ma ->
  Map_get b (memories s) = Some mb ->
  linked_memories ma <> linked_memories mb ->
  a ∉ linked s mb ->
  exists s1 s2 mb',
    linkMemories a b s = Some s1
    /\ deleteMemory a s1 = Some s2
    /\ Map_get b (memories s2) = Some mb'
    /\ linked s2 mb' = linked s mb.
Proof.
  intros Hkeys Hrefs Ha Hb Hneq Hno.
  assert (Hab : b <> a) by (intros ->; congruence).
  pose proof (linkMemories_unfold s a b ma mb Ha Hb) as Hlink.
  set (s1 := {| arrays := push_unless_included
                            (push_unless_included (arrays s)
                               (linked_memories ma) b)
                            (linked_memories mb) a;
                memories := memories s |}) in *.
  assert (Hkeys1 : keys_unique s1) by exact Hkeys.
  assert (Hrefs1 : references_allocated s1).
  { intros k m Hm. cbn.
    apply push_unless_included_dom, push_unless_included_dom, (Hrefs k m Hm). }
  assert (Hb1 : linked s1 mb = linked s mb ++ [a]).
  { unfold linked, s1. cbn [arrays].
    assert (H1 : contents (push_unless_included (arrays s) (linked_memories ma) b)
                          (linked_memories mb)
                 = contents (arrays s) (linked_memories mb)).
    { destruct (push_unless_included_contents
                  (arrays s) (linked_memories ma) b (linked_memories mb))
        as (add & -> & [-> | (_ & Heq & _)]); [apply app_nil_r | congruence]. }
    unfold push_unless_included at 1. rewrite H1.
    destruct (Array_includes (contents (arrays s) (linked_memories mb)) a) eqn:E.
    - apply Array_includes_true in E. contradiction.
    - rewrite contents_push, decide_True by reflexivity. rewrite H1. reflexivity. }
  destruct (deleteMemory_exact s1 a ma Hkeys1 Hrefs1 Ha)
    as (s2 & Hdel & _ & Hrec).
  destruct (Hrec b mb Hab Hb) as (mb' & Hget & _ & Hlist & _).
  exists s1, s2, mb'. split; [exact Hlink | ]. split; [exact Hdel | ].
  split; [exact Hget | ]. rewrite Hlist, Hb1.
  rewrite List.filter_app. cbn. rewrite String.eqb_refl. cbn.
  rewrite app_nil_r. apply filter_out_absent, Hno.
Qed.

Lemma keys_unique_two_memories : keys_unique Scenario.two_memories.
Proof.
  unfold Scenario.two_memories. apply keys_unique_run. apply NoDup_nil_2.
Qed.

Lemma X7_link_then_delete_restores_the_other_record_witness :
  exists mb s1 s2 mb',
    Map_get "m2" (memories Scenario.two_memories) = Some mb
    /\ linkMemories "m1" "m2" Scenario.two_memories = Some s1
    /\ deleteMemory "m1" s1 = Some s2
    /\ Map_get "m2" (memories s2) = Some mb'
    /\ linked s2 mb' = linked Scenario.two_memories mb.
Proof.
  destruct (Map_get "m1" (memories Scenario.two_memories)) as [ma | ] eqn:Ea;
    [ | vm_compute in Ea; discriminate].
  destruct (Map_get "m2" (memories Scenario.two_memories)) as [mb | ] eqn:Eb;
    [ | vm_compute in Eb; discriminate].
  assert (Hneq : linked_memories ma <> linked_memories mb).
  { vm_compute in Ea, Eb. injection Ea as <-. injection Eb as <-.
    vm_compute. discriminate. }
  assert (Hno : "m1" ∉ linked Scenario.two_memories mb).
  { vm_compute in Eb. injection Eb as <-. vm_compute. apply not_elem_of_nil. }
  destruct (X7_link_then_delete_restores_the_other_record
              Scenario.two_memories "m1" "m2" ma mb
              keys_unique_two_memories references_allocated_two_memories
              Ea Eb Hneq Hno)
    as (s1 & s2 & mb' & H1 & H2 & H3 & H4).
  exists mb, s1, s2, mb'. repeat split; assumption.
Defined.

End OperationFacts.

(** ** The memory manager: the graph of links *)

Section GraphFacts.
Import JS Types MemoryStore MemoryGraph.

Implicit Types (s : Store) (h : gmap ref (list string)) (r : ref).
Implicit Types (m memory : Memory) (k a b : string).

Lemma elem_of_Map_get (ms : list (string * Memory)) k m :
  NoDup (keys ms) -> (k, m) ∈ ms -> Map_get k ms = Some m.
Proof.
  unfold keys. induction ms as [ | [k0 v0] ms IH]; cbn.
  - intros _ H. apply elem_of_nil in H. contradiction.
  - intros [Hk0 Hnd]%NoDup_cons [Heq | Hin]%elem_of_cons.
    + injection Heq as -> ->. rewrite String.eqb_refl. reflexivity.
    + destruct (String.eqb_spec k k0) as [-> | _]; [ | auto].
      exfalso. apply Hk0. apply list_elem_of_fmap. exists (k0, m). auto.
Qed.

Lemma Map_get_reference (ms : list (string * Memory)) k m :
  Map_get k ms = Some m -> linked_memories m ∈ references ms.
Proof.
  intros H%Map_get_elem_of. unfold references.
  apply list_elem_of_fmap. exists (k, m). auto.
Qed.

Lemma references_in_dom s :
  keys_unique s -> references_allocated s ->
  forall r, r ∈ references (memories s) -> r ∈ dom (arrays s).
Proof.
  intros Hkeys Hrefs r Hr. unfold references in Hr.
  apply list_elem_of_fmap in Hr as ([k m] & -> & Hin).
  apply (Hrefs k m), elem_of_Map_get; assumption.
Qed.

Lemma references_injective (ms : list (string * Memory)) (x y : string) mx my :
  NoDup (references ms) ->
  Map_get x ms = Some mx -> Map_get y ms = Some my ->
  linked_memories mx = linked_memories my -> x = y.
Proof.
  unfold references. induction ms as [ | [k0 v0] ms IH]; cbn; [discriminate | ].
  intros [Hr0 Hnd]%NoDup_cons Hx Hy Heq.
  destruct (String.eqb_spec x k0) as [-> | Hxk], (String.eqb_spec y k0) as [-> | Hyk].
  - reflexivity.
  - injection Hx as <-. exfalso. apply Hr0. rewrite Heq.
    apply (Map_get_reference ms y my Hy).
  - injection Hy as <-. exfalso. apply Hr0. rewrite <- Heq.
    apply (Map_get_reference ms x mx Hx).
  - apply IH; assumption.
Qed.

Lemma references_Map_set_new (ms : list (string * Memory)) k v :
  Map_get k ms = None ->
  references (Map_set k v ms) = references ms ++ [linked_memories v].
Proof.
  unfold references. induction ms as [ | [k0 v0] ms IH]; cbn; [reflexivity | ].
  destruct (String.eqb_spec k k0); [discriminate | ].
  intros H. cbn. rewrite IH by exact H. reflexivity.
Qed.

Lemma references_Map_set_same (ms : list (string * Memory)) k v m0 :
  Map_get k ms = Some m0 -> linked_memories v = linked_memories m0 ->
  references (Map_set k v ms) = references ms.
Proof.
  unfold references. induction ms as [ | [k0 v0] ms IH]; cbn; [discriminate | ].
  destruct (String.eqb_spec k k0) as [-> | _].
  - intros [= ->] Heq. cbn. rewrite Heq. reflexivity.
  - intros H Heq. cbn. rewrite IH by assumption. reflexivity.
Qed.

Lemma references_Map_delete (ms : list (string * Memory)) k :
  sublist (references (Map_delete k ms)) (references ms).
Proof.
  unfold references. induction ms as [ | [k0 v0] ms IH]; cbn; [constructor | ].
  destruct (String.eqb k k0); cbn; [apply sublist_cons | apply sublist_skip];
    exact IH.
Qed.

(** The cascade gives new arrays that no record held and no two records
    share. *)
Lemma cascade_references (id0 : string) (entries : list (string * Memory)) :
  forall h h' entries',
    cascade id0 h entries = (h', entries') ->
    Forall (fun r => r ∈ dom h) (references entries) ->
    NoDup (references entries) ->
    NoDup (references entries')
    /\ Forall (fun r => r ∈ references entries \/ r ∉ dom h)
              (references entries').
Proof.
  unfold references.
  induction entries as [ | [k mem] rest IH]; intros h h' entries' H Hall Hnd;
    cbn in H.
  - injection H as <- <-. cbn. split; constructor.
  - cbn in Hall, Hnd. apply Forall_cons in Hall as [Hmem Hall].
    apply NoDup_cons in Hnd as [Hfirst Hnd].
    destruct (Array_includes (contents h (linked_memories mem)) id0) eqn:E.
    + unfold allocate in H.
      pose proof (is_fresh (dom h)) as Hfresh.
      set (r0 := fresh (dom h)) in *.
      set (l0 := List.filter _ _) in *.
      destruct (cascade id0 (<[r0 := l0]> h) rest) as [h2 rest'] eqn:Erest.
      injection H as <- <-.
      assert (Hdom1 : dom h ⊆ dom (<[r0 := l0]> h)) by apply dom_insert_subseteq.
      assert (Hr0 : r0 ∈ dom (<[r0 := l0]> h)).
      { apply elem_of_dom. rewrite lookup_insert_eq. eexists. reflexivity. }
      assert (Hall1 : Forall (fun r => r ∈ dom (<[r0 := l0]> h))
                             (map (fun e => linked_memories e.2) rest)).
      { eapply Forall_impl; [exact Hall | ]. intros r Hr. apply Hdom1, Hr. }
      destruct (IH _ _ _ Erest Hall1 Hnd) as [IHnd IHall].
      rewrite Forall_forall in IHall, Hall.
      cbn. split.
      * apply NoDup_cons. split; [ | exact IHnd].
        intros Hin. destruct (IHall _ Hin) as [Hold | Hnew].
        -- apply Hfresh, Hall, Hold.
        -- apply Hnew, Hr0.
      * constructor; [right; exact Hfresh | ].
        apply Forall_forall. intros r Hr.
        destruct (IHall _ Hr) as [Hold | Hnew].
        -- left. right. exact Hold.
        -- right. intros Hin. apply Hnew, Hdom1, Hin.
    + destruct (cascade id0 h rest) as [h2 rest'] eqn:Erest.
      injection H as <- <-.
      destruct (IH _ _ _ Erest Hall Hnd) as [IHnd IHall].
      rewrite Forall_forall in IHall.
      cbn. split.
      * apply NoDup_cons. split; [ | exact IHnd].
        intros Hin. destruct (IHall _ Hin) as [Hold | Hnew].
        -- apply Hfirst, Hold.
        -- apply Hnew, Hmem.
      * constructor; [left; left | ].
        apply Forall_forall. intros r Hr.
        destruct (IHall _ Hr) as [Hold | Hnew]; [left; right; exact Hold | ].
        right. exact Hnew.
Qed.

(** A state with the arrays, the keys and the references of a
    well-formed one, record by record, is well formed. *)
Lemma graph_well_formed_same_links s s' :
  arrays s' = arrays s ->
  keys (memories s') = keys (memories s) ->
  references (memories s') = references (memories s) ->
  (forall k, linked_memories <$> Map_get k (memories s')
             = linked_memories <$> Map_get k (memories s)) ->
  graph_well_formed s -> graph_well_formed s'.
Proof.
  intros Harrays Hkeys Hreferences Hget (H1 & H2 & H3 & H4 & H5).
  assert (Hold : forall k m', Map_get k (memories s') = Some m' ->
                   exists m, Map_get k (memories s) = Some m
                             /\ linked s' m' = linked s m
                             /\ linked_memories m' = linked_memories m).
  { intros k m' Hm'. specialize (Hget k). rewrite Hm' in Hget. cbn in Hget.
    destruct (Map_get k (memories s)) as [m | ]; [ | discriminate].
    exists m. injection Hget as Hget. unfold linked. rewrite Harrays, Hget. auto. }
  assert (Hsome : forall k, is_Some (Map_get k (memories s)) ->
                            is_Some (Map_get k (memories s'))).
  { intros k [m Hm]. specialize (Hget k). rewrite Hm in Hget.
    destruct (Map_get k (memories s')); [eexists; reflexivity | discriminate]. }
  unfold graph_well_formed, keys_unique, arrays_unshared.
  rewrite Hkeys, Hreferences.
  split; [exact H1 | ]. split; [ | split; [exact H3 | split]].
  - intros k m' Hm'. destruct (Hold k m' Hm') as (m & Hm & _ & Hr).
    rewrite Harrays, Hr. apply (H2 k m Hm).
  - intros a b ma' Ha Hb. destruct (Hold a ma' Ha) as (ma & Hma & Hl & _).
    rewrite Hl in Hb. apply Hsome, (H4 a b ma Hma Hb).
  - intros a b ma' mb' Ha Hb Hin.
    destruct (Hold a ma' Ha) as (ma & Hma & Hla & _).
    destruct (Hold b mb' Hb) as (mb & Hmb & Hlb & _).
    rewrite Hlb. rewrite Hla in Hin. apply (H5 a b ma mb Hma Hmb Hin).
Qed.

Lemma graph_well_formed_step s op :
  graph_well_formed s -> leaves_links_alone s op ->
  graph_well_formed (step s op).
Proof.
  intros Hs Hop.
  pose proof Hs as (Hkeys & Hrefs & Hunshared & Hclosed & Hsym).
  destruct op as [memory new_id g now | id0 updates | id0 | a b | id0 now];
    cbn [step leaves_links_alone] in *.
  - (* create *)
    destruct Hop as [Hnone Hfresh].
    assert (Hcreate :
              (createMemory memory new_id g now s).1
              = {| arrays := (allocate (arrays s) []).1;
                   memories :=
                     Map_set new_id (createMemory memory new_id g now s).2
                             (memories s) |}
              /\ linked_memories (createMemory memory new_id g now s).2
                 = (allocate (arrays s) []).2).
    { unfold createMemory.
      destruct Hnone as [-> | ->]; cbn [pass]; split; reflexivity. }
    destruct Hcreate as [-> Hlinks].
    set (newMemory := (createMemory memory new_id g now s).2) in *.
    destruct (allocate_spec (arrays s) []) as (Hdom & Hkeep & Hnew & Hempty).
    destruct (allocate (arrays s) []) as [h' r0] eqn:Ealloc. cbn [fst snd] in *.
    assert (Hr0 : r0 ∉ dom (arrays s)).
    { unfold allocate in Ealloc. injection Ealloc as _ <-. apply is_fresh. }
    assert (Hget : forall k m, Map_get k (Map_set new_id newMemory (memories s)) = Some m ->
                     (k = new_id /\ m = newMemory)
                     \/ (k <> new_id /\ Map_get k (memories s) = Some m)).
    { intros k m. rewrite Map_get_set.
      destruct (String.eqb_spec k new_id) as [-> | Hne]; [ | auto].
      intros [= <-]. auto. }
    assert (Hlinked : forall k m, Map_get k (memories s) = Some m ->
                        contents h' (linked_memories m)
                        = contents (arrays s) (linked_memories m)).
    { intros k m Hm. apply Hkeep, (Hrefs k m Hm). }
    split; [ | split; [ | split; [ | split]]].
    + apply (keys_unique_Map_set new_id newMemory), Hkeys.
    + intros k m Hm. cbn [memories arrays] in *.
      destruct (Hget k m Hm) as [[-> ->] | [_ Hold]].
      * rewrite Hlinks. exact Hnew.
      * apply Hdom, (Hrefs k m Hold).
    + unfold arrays_unshared. cbn [memories].
      rewrite references_Map_set_new by exact Hfresh.
      apply NoDup_app. split; [exact Hunshared | ]. split; [ | apply NoDup_singleton].
      intros r Hr Hr'. apply list_elem_of_singleton in Hr'. subst r.
      rewrite Hlinks in Hr. apply Hr0, (references_in_dom s Hkeys Hrefs), Hr.
    + intros x y mx Hx Hy. unfold linked in Hy. cbn [memories arrays] in *.
      destruct (Hget x mx Hx) as [[-> ->] | [_ Hold]].
      * rewrite Hlinks, Hempty in Hy. apply elem_of_nil in Hy. contradiction.
      * rewrite (Hlinked x mx Hold) in Hy.
        destruct (Hclosed x y mx Hold Hy) as [my Hmy].
        rewrite Map_get_set, Hmy. destruct (String.eqb y new_id); eexists; reflexivity.
    + intros x y mx my Hx Hy Hin. unfold linked in *. cbn [memories arrays] in *.
      destruct (Hget x mx Hx) as [[-> ->] | [_ Hxold]].
      * rewrite Hlinks, Hempty in Hin. apply elem_of_nil in Hin. contradiction.
      * rewrite (Hlinked x mx Hxold) in Hin.
        destruct (Hget y my Hy) as [[-> ->] | [_ Hyold]].
        -- destruct (Hclosed x new_id mx Hxold Hin) as [m0 Hm0]. congruence.
        -- rewrite (Hlinked y my Hyold). apply (Hsym x y mx my Hxold Hyold Hin).
  - (* update *)
    unfold updateMemory.
    destruct (Map_get id0 (memories s)) as [memory | ] eqn:E; [ | exact Hs].
    rewrite Hop.
    apply (graph_well_formed_same_links s); cbn [arrays memories];
      [reflexivity | | | | exact Hs].
    + rewrite keys_Map_set, E. reflexivity.
    + apply (references_Map_set_same _ _ _ memory E). reflexivity.
    + intros k. rewrite Map_get_set.
      destruct (String.eqb_spec k id0) as [-> | _]; [ | reflexivity].
      rewrite E. reflexivity.
  - (* delete *)
    destruct (deleteMemory id0 s) as [s' | ] eqn:E; [ | exact Hs].
    assert (Hma : exists ma, Map_get id0 (memories s) = Some ma).
    { unfold deleteMemory in E.
      destruct (Map_get id0 (memories s)) as [ma | ]; [eauto | discriminate]. }
    destruct Hma as [ma Hma].
    destruct (deleteMemory_exact s id0 ma Hkeys Hrefs Hma) as (s0 & E0 & _ & Hnew).
    rewrite E in E0. injection E0 as <-.
    assert (Hold : forall k m', Map_get k (memories s') = Some m' ->
                     k <> id0
                     /\ exists m, Map_get k (memories s) = Some m
                          /\ linked_memories m' ∈ dom (arrays s')
                          /\ linked s' m'
                             = List.filter
                                 (fun linkId => negb (String.eqb linkId id0))
                                 (linked s m)).
    { intros k m' Hm'.
      destruct (deleteMemory_record _ _ _ _ _ E Hm') as (Hne & m & Hm & _ & H).
      split; [exact Hne | ]. exists m. split; [exact Hm | ].
      apply H, (Hrefs k m Hm). }
    split; [ | split; [ | split; [ | split]]].
    + apply (keys_unique_step s (Delete id0)) in Hkeys.
      cbn [step] in Hkeys. rewrite E in Hkeys. exact Hkeys.
    + intros k m' Hm'. destruct (Hold k m' Hm') as (_ & m & _ & H & _). exact H.
    + unfold arrays_unshared. unfold deleteMemory in E. rewrite Hma in E.
      destruct (cascade id0 (arrays s) (Map_delete id0 (memories s)))
        as [h' entries'] eqn:Ecascade.
      injection E as <-. cbn [memories].
      assert (Hsub := references_Map_delete (memories s) id0).
      apply (cascade_references _ _ _ _ _ Ecascade).
      * apply Forall_forall. intros r Hr.
        apply (references_in_dom s Hkeys Hrefs).
        apply (elem_of_sublist _ _ _ Hr Hsub).
      * apply (sublist_NoDup _ _ Hunshared Hsub).
    + intros x y mx' Hx Hy.
      destruct (Hold x mx' Hx) as (Hxne & mx & Hmx & _ & Hlx).
      rewrite Hlx in Hy. pose proof (elem_of_filter_out _ _ _ Hy) as Hy'.
      assert (Hyne : y <> id0).
      { intros ->. apply (not_elem_of_filter_out id0 (linked s mx)), Hy. }
      destruct (Hclosed x y mx Hmx Hy') as [my Hmy].
      destruct (Hnew y my Hyne Hmy) as (my' & Hmy' & _). eexists. exact Hmy'.
    + intros x y mx' my' Hx Hy Hin.
      destruct (Hold x mx' Hx) as (Hxne & mx & Hmx & _ & Hlx).
      destruct (Hold y my' Hy) as (Hyne & my & Hmy & _ & Hly).
      rewrite Hlx in Hin. rewrite Hly.
      pose proof (Hsym x y mx my Hmx Hmy (elem_of_filter_out _ _ _ Hin)) as Hback.
      apply list_elem_of_In, filter_In. split; [apply list_elem_of_In, Hback | ].
      destruct (String.eqb_spec x id0); [contradiction | reflexivity].
  - (* link *)
    destruct (Map_get a (memories s)) as [ma | ] eqn:Ea;
      [ | unfold linkMemories; rewrite Ea; exact Hs].
    destruct (Map_get b (memories s)) as [mb | ] eqn:Eb;
      [ | unfold linkMemories; rewrite Ea, Eb; exact Hs].
    rewrite (linkMemories_unfold s a b ma mb Ea Eb).
    split; [exact Hkeys | ]. split; [ | split; [exact Hunshared | split]].
    + intros k m Hm. cbn [memories arrays] in *.
      apply push_unless_included_dom, push_unless_included_dom, (Hrefs k m Hm).
    + intros x y mx Hx Hy. unfold linked in Hy. cbn [memories arrays] in *.
      apply push_unless_included_inv in Hy as [Hy | [_ ->]];
        [ | eexists; exact Ea].
      apply push_unless_included_inv in Hy as [Hy | [_ ->]];
        [ | eexists; exact Eb].
      apply (Hclosed x y mx Hx Hy).
    + intros x y mx my Hx Hy Hin. unfold linked in *. cbn [memories arrays] in *.
      apply push_unless_included_inv in Hin as [Hin | [Hr ->]].
      * apply push_unless_included_inv in Hin as [Hin | [Hr ->]].
        -- apply push_unless_included_mono, push_unless_included_mono.
           apply (Hsym x y mx my Hx Hy Hin).
        -- assert (x = a) by (apply (references_injective _ _ _ _ _ Hunshared Hx Ea Hr)).
           subst x. rewrite Eb in Hy. injection Hy as <-.
           apply push_unless_included_elem.
      * assert (x = b) by (apply (references_injective _ _ _ _ _ Hunshared Hx Eb Hr)).
        subst x. rewrite Ea in Hy. injection Hy as <-.
        apply push_unless_included_mono, push_unless_included_elem.
  - (* get *)
    unfold getMemory.
    destruct (Map_get id0 (memories s)) as [memory | ] eqn:E; [ | exact Hs].
    apply (graph_well_formed_same_links s); cbn [fst arrays memories];
      [reflexivity | | | | exact Hs].
    + rewrite keys_Map_set, E. reflexivity.
    + apply (references_Map_set_same _ _ _ memory E). reflexivity.
    + intros k. rewrite Map_get_set.
      destruct (String.eqb_spec k id0) as [-> | _]; [ | reflexivity].
      rewrite E. reflexivity.
Qed.

(** X8.  The links stay symmetric and closed.  Starting from a store in
    which every linked identifier belongs to a record of the store that
    links back (each record with an array of its own), this is so again
    after any sequence of operations in which the links are made by
    [linkMemories] and removed by [deleteMemory] only: records are
    created under unused identifiers without linked memories, and
    updates hand in none. *)
Theorem X8_links_stay_symmetric_and_closed s (ops : list operation) :
  graph_well_formed s ->
  leaves_links_alone_throughout s ops ->
  graph_well_formed (run ops s)
  /\ links_symmetric (run ops s)
  /\ links_closed (run ops s).
Proof.
  intros Hs Hops.
  assert (H : graph_well_formed (run ops s)).
  { revert s Hs Hops.
    induction ops as [ | op ops IH]; intros s Hs Hops; cbn; [exact Hs | ].
    destruct Hops as [Hop Hops].
    apply IH; [apply graph_well_formed_step; assumption | exact Hops]. }
  split; [exact H | ]. split; apply H.
Qed.

Lemma graph_well_formed_empty : graph_well_formed Scenario.empty_store.
Proof.
  split; [apply NoDup_nil_2 | ]. split; [intros k m; cbn; discriminate | ].
  split; [apply NoDup_nil_2 | ].
  split; [intros a b ma; cbn; discriminate | intros a b ma mb; cbn; discriminate].
Qed.

Lemma X8_links_stay_symmetric_and_closed_witness :
  links_symmetric
    (run [ Create (Scenario.draft "A" (decimal 9 (-1)) (num 0))
                  "m1" ">gl0001" (num 1000);
           Create (Scenario.draft "B" (decimal 9 (-1)) (num 0))
                  "m2" ">gl0002" (num 2000);
           Link "m1" "m2"; Get "m2" (num 3000); Link "m2" "m2";
           Delete "m1" ]
         Scenario.empty_store).
Proof.
  apply X8_links_stay_symmetric_and_closed; [apply graph_well_formed_empty | ].
  cbn [leaves_links_alone_throughout leaves_links_alone].
  repeat split; try (left; reflexivity); vm_compute; reflexivity.
Defined.

End GraphFacts.

(** ** The search: criteria, limits, the two providers *)

Section CriteriaFacts.
Import JS Types MemoryStore SearchCriteria.

Lemma List_filter_filter {A : Type} (f g : A -> bool) (l : list A) :
  List.filter f (List.filter g l) = List.filter (fun x => g x && f x) l.
Proof.
  induction l as [ | x l IH]; cbn; [reflexivity | ].
  destruct (g x); cbn; [ | exact IH].
  destruct (f x); rewrite IH; reflexivity.
Qed.

Lemma List_filter_true {A : Type} (l : list A) :
  List.filter (fun _ => true) l = l.
Proof. induction l as [ | x l IH]; cbn; [ | rewrite IH]; reflexivity. Qed.

Lemma List_filter_false {A : Type} (f : A -> bool) (l : list A) :
  (forall x, f x = false) -> List.filter f l = [].
Proof.
  intros H. induction l as [ | x l IH]; cbn; [reflexivity | ].
  rewrite H. exact IH.
Qed.

Lemma List_filter_ext_Forall {A : Type} (f g : A -> bool) (l : list A) :
  Forall (fun x => f x = g x) l -> List.filter f l = List.filter g l.
Proof.
  induction 1 as [ | x l Hx _ IH]; cbn; [reflexivity | ].
  rewrite Hx, IH. reflexivity.
Qed.

Lemma filter_if_holds {C : Type} (criterion : option C) (applies : C -> bool)
    (keep : C -> Memory -> bool) (l : list Memory) :
  filter_if criterion applies keep l
  = List.filter (holds criterion applies keep) l.
Proof.
  unfold filter_if, holds. destruct criterion as [c | ].
  - destruct (applies c); [reflexivity | symmetry; apply List_filter_true].
  - symmetry. apply List_filter_true.
Qed.

Lemma filter_if_nil {C : Type} (criterion : option C) (applies : C -> bool)
    (keep : C -> Memory -> bool) :
  filter_if criterion applies keep [] = [].
Proof. unfold filter_if. destruct criterion as [c | ]; [destruct (applies c) | ]; reflexivity. Qed.

(** The six filters in a row keep the records that pass all the criteria
    that apply. *)
Lemma filtered_satisfies (params : MemorySearchParams) (l : list Memory) :
  filtered params l = List.filter (satisfies params) l.
Proof.
  unfold filtered, satisfies.
  rewrite !filter_if_holds, !List_filter_filter.
  apply List.filter_ext. intros memory. rewrite !andb_assoc. reflexivity.
Qed.

Lemma searchMemories_unlimited (params : MemorySearchParams) (s : Store) :
  unlimited params -> searchMemories params s = ranked params s.
Proof.
  unfold unlimited, inactive, searchMemories, ranked, collection.
  destruct (p_limit params) as [n | ]; [intros -> | ]; reflexivity.
Qed.

(** X9.  Without a limit (none given, or one the truthiness test skips:
    [0] or [NaN]) a search returns the records of the collection that
    pass every criterion that applies, each as often as it occurs there:
    the result is a rearrangement of them, nothing is lost and nothing
    is added. *)
Theorem X9_search_returns_the_matching_records
    (params : MemorySearchParams) (s : Store) :
  unlimited params ->
  Permutation (searchMemories params s)
              (List.filter (satisfies params) (collection params s))
  /\ forall memory,
       memory ∈ searchMemories params s
       <-> memory ∈ collection params s /\ satisfies params memory = true.
Proof.
  intros Hlimit. rewrite (searchMemories_unlimited params s Hlimit).
  unfold ranked. rewrite filtered_satisfies.
  assert (H : Permutation
                (sort by_importance
                   (List.filter (satisfies params) (collection params s)))
                (List.filter (satisfies params) (collection params s)))
    by apply sort_Permutation.
  split; [exact H | ]. intros memory.
  rewrite H, !list_elem_of_In, filter_In. reflexivity.
Qed.

Lemma X9_search_returns_the_matching_records_witness :
  Permutation
    (searchMemories (Scenario.threshold_and_limit (decimal 5 (-1)) (num 0))
                    Scenario.two_memories)
    (List.filter
       (satisfies (Scenario.threshold_and_limit (decimal 5 (-1)) (num 0)))
       (collection (Scenario.threshold_and_limit (decimal 5 (-1)) (num 0))
                   Scenario.two_memories)).
Proof.
  apply X9_search_returns_the_matching_records. vm_compute. reflexivity.
Defined.

Lemma ToIntegerOrInfinity_num (z : Z) : ToIntegerOrInfinity (num z) = IInt z.
Proof. cbn. rewrite Z.quot_1_r. reflexivity. Qed.

Lemma number_truthy_num (z : Z) : z <> 0 -> number_truthy (num z) = true.
Proof.
  intros Hz. cbn. destruct (Qeq_bool (inject_Z z) 0) eqn:E; [ | reflexivity].
  apply Qeq_bool_iff in E. unfold Qeq in E. cbn in E. lia.
Qed.

(** X10.  The limit is the end index of a [slice]: a positive integer
    [z] keeps the first [z] records of the sorted matches, and a
    negative one does not limit the result to a length but drops the
    last [-z] records of it. *)
Theorem X10_limit_is_a_slice_end (params : MemorySearchParams) (s : Store)
    (z : Z) :
  z <> 0 ->
  p_limit params = Some (num z) ->
  searchMemories params s
  = if z <? 0
    then firstn (length (ranked params s) - Z.to_nat (- z)) (ranked params s)
    else firstn (Z.to_nat z) (ranked params s).
Proof.
  intros Hz Hlimit. unfold searchMemories. rewrite Hlimit.
  rewrite (number_truthy_num z Hz).
  fold (collection params s). fold (ranked params s).
  unfold slice0, slice_end. rewrite ToIntegerOrInfinity_num.
  destruct (Z.ltb_spec z 0) as [Hneg | Hpos].
  - f_equal. lia.
  - destruct (Z.le_ge_cases z (Z.of_nat (length (ranked params s)))) as [H | H].
    + rewrite Z.min_l by lia. reflexivity.
    + rewrite Z.min_r by lia. rewrite Nat2Z.id.
      rewrite firstn_all. symmetry. apply firstn_all2. lia.
Qed.

Lemma X10_limit_is_a_slice_end_witness :
  searchMemories (Scenario.threshold_and_limit (decimal 5 (-1)) (num (-1)))
                 Scenario.two_memories
  = firstn
      (length (ranked (Scenario.threshold_and_limit (decimal 5 (-1)) (num (-1)))
                      Scenario.two_memories) - Z.to_nat (- -1))
      (ranked (Scenario.threshold_and_limit (decimal 5 (-1)) (num (-1)))
              Scenario.two_memories).
Proof.
  apply (X10_limit_is_a_slice_end
           (Scenario.threshold_and_limit (decimal 5 (-1)) (num (-1)))
           Scenario.two_memories (-1)); [lia | reflexivity].
Defined.

Lemma ge_NaN (x : number) : ge x NaN = false.
Proof. destruct x; reflexivity. Qed.

Lemma sort_nil {A : Type} (comparefn : A -> A -> number) : sort comparefn [] = [].
Proof. reflexivity. Qed.

Lemma limit_nil (limit : option number) :
  match limit with
  | Some n => if number_truthy n then slice0 (@nil Memory) n else []
  | None => []
  end = [].
Proof.
  destruct limit as [n | ]; [ | reflexivity].
  destruct (number_truthy n); [ | reflexivity].
  unfold slice0. apply firstn_nil.
Qed.

(** X11.  A threshold that is [NaN] is not [undefined], so its filter
    runs, and no record passes it: with [NaN] as the importance
    threshold or as the emotion threshold a search returns nothing,
    whatever the store and the other criteria. *)
Theorem X11_NaN_threshold_matches_nothing (params : MemorySearchParams)
    (s : Store) :
  p_importance_threshold params = Some NaN
  \/ p_emotion_threshold params = Some NaN ->
  searchMemories params s = [].
Proof.
  intros H. unfold searchMemories. fold (collection params s).
  assert (E : filtered params (collection params s) = []).
  { unfold filtered. destruct H as [H | H]; rewrite H;
      cbn [filter_if defined].
    - rewrite (List_filter_false (fun memory => ge (importance memory) NaN))
        by (intros x; apply ge_NaN).
      rewrite !filter_if_nil. reflexivity.
    - rewrite (List_filter_false (fun memory => ge (emotion_score memory) NaN))
        by (intros x; apply ge_NaN).
      rewrite !filter_if_nil. reflexivity. }
  rewrite E, sort_nil. apply limit_nil.
Qed.

Lemma X11_NaN_threshold_matches_nothing_witness :
  searchMemories (Scenario.threshold_and_limit NaN (num 5))
                 Scenario.two_memories = [].
Proof.
  apply X11_NaN_threshold_matches_nothing. left. reflexivity.
Defined.

(** X12.  The search of [LocalStorageMemoryProvider] is the search of
    the memory manager restricted to the query, the importance threshold
    and the limit, without the comparison of the observation: on records
    without an observation, and with the other criteria missing or
    skipped, the two return the same records in the same order. *)
Theorem X12_filterMemories_agrees_with_searchMemories
    (memories : list Memory) (params : MemorySearchParams) (s : Store) :
  p_memories params = Some memories ->
  p_emotion_threshold params = None ->
  inactive (p_focus_area params) nonempty ->
  inactive (p_from_date params) number_truthy ->
  inactive (p_to_date params) number_truthy ->
  Forall (fun memory => observation memory = ""%string) memories ->
  Prompt.filterMemories memories params = searchMemories params s.
Proof.
  intros Hmemories Hemotion Hfocus Hfrom Hto Hobservation.
  unfold Prompt.filterMemories, searchMemories, filtered.
  rewrite Hmemories, Hemotion.
  assert (Hskip : forall {C : Type} (criterion : option C) applies keep l,
             inactive criterion applies ->
             filter_if criterion applies keep l = l).
  { intros C criterion applies keep l. unfold inactive, filter_if.
    destruct criterion as [c | ]; [intros -> | ]; reflexivity. }
  rewrite (Hskip _ (p_to_date params)) by exact Hto.
  rewrite (Hskip _ (p_from_date params)) by exact Hfrom.
  rewrite (Hskip _ (p_focus_area params)) by exact Hfocus.
  cbn [filter_if].
  assert (Hquery :
            filter_if (p_query params) nonempty
              (fun q memory =>
                 includes (toLowerCase (text memory)) (toLowerCase q)
                 || includes (toLowerCase (focus_area (context memory)))
                             (toLowerCase q)) memories
            = filter_if (p_query params) nonempty
                (fun q memory => matches_query (toLowerCase q) memory) memories).
  { unfold filter_if. destruct (p_query params) as [query | ]; [ | reflexivity].
    destruct (nonempty query); [ | reflexivity].
    apply List_filter_ext_Forall.
    eapply Forall_impl; [exact Hobservation | ].
    intros memory Hm. unfold matches_query. rewrite Hm. cbn.
    rewrite orb_false_r. reflexivity. }
  rewrite Hquery. reflexivity.
Qed.

Lemma X12_filterMemories_agrees_with_searchMemories_witness :
  Prompt.filterMemories
    (Map_values (memories Scenario.two_memories))
    {| p_query := Some "a";
       p_importance_threshold := Some (decimal 5 (-1));
       p_emotion_threshold := None;
       p_focus_area := None;
       p_limit := Some (num 1);
       p_from_date := None;
       p_to_date := None;
       p_memories := Some (Map_values (memories Scenario.two_memories));
       p_personality := None |}
  = searchMemories
      {| p_query := Some "a";
         p_importance_threshold := Some (decimal 5 (-1));
         p_emotion_threshold := None;
         p_focus_area := None;
         p_limit := Some (num 1);
         p_from_date := None;
         p_to_date := None;
         p_memories := Some (Map_values (memories Scenario.two_memories));
         p_personality := None |}
      Scenario.empty_store.
Proof.
  apply X12_filterMemories_agrees_with_searchMemories;
    try reflexivity; try exact I.
  vm_compute. repeat constructor.
Defined.

End CriteriaFacts.

(** ** The normalizer on a numeric importance *)

Section NormalizerFacts.
Import JS Classification.
Local Open Scope string_scope.

(** X13.  Where the response gives the importance as a number, the
    importance returned is 0.5 for the number 0 (the default replaces
    every falsy value, the lowest importance included), 1 for a number
    of 1 or more, 0 for a number below 0, and the number itself
    otherwise. *)
Theorem X13_numeric_importance_zero_becomes_half (llm : LLMProvider)
    (text : string) (userContext : option string) (response : string)
    (members : list (string * JSON)) (v : Q) :
  llm (classificationPrompt text userContext) = Resolved response ->
  JSON_parse response = Some (JObject members) ->
  lookup_member "importance" members = Some (JNumber (Fin v)) ->
  numeric_or_missing (lookup_member "emotion_score" members) ->
  importance (classifyMemory llm text userContext)
  = if Qeq_bool v 0 then half
    else if Qle_bool 1 v then num 1
    else if Qle_bool 0 v then Fin v
    else num 0.
Proof.
  intros Hllm Hparse Himportance Hemotion.
  unfold classifyMemory, classifyWithLLM.
  rewrite Hllm. cbn [try_catch await mbind option_bind]. rewrite Hparse.
  unfold normalize, read. cbn [get mbind option_bind].
  rewrite Himportance.
  destruct (ToNumber_numeric_or_missing _ (num 0) Hemotion eq_refl)
    as (e & He & _).
  assert (Himp : ToNumber (or_else (Some (JNumber (Fin v))) (JNumber half))
                 = Some (if Qeq_bool v 0 then half else Fin v)).
  { unfold or_else. cbn [truthy number_truthy].
    destruct (Qeq_bool v 0); reflexivity. }
  rewrite Himp. cbn [mbind option_bind]. rewrite He.
  cbn [mbind option_bind try_catch importance].
  destruct (Qeq_bool v 0); [reflexivity | ].
  unfold clamp. cbn -[Qle_bool].
  change (inject_Z 1) with 1%Q. change (inject_Z 0) with 0%Q.
  destruct (Qle_bool 1 v); [reflexivity | ].
  destruct (Qle_bool 0 v); reflexivity.
Qed.

Lemma X13_numeric_importance_zero_becomes_half_witness :
  importance
    (classifyMemory
       (fun _ => Resolved ("{" ++ q ++ "importance" ++ q ++ ":0}"))
       "hello" None)
  = half.
Proof.
  apply (X13_numeric_importance_zero_becomes_half
           (fun _ => Resolved ("{" ++ q ++ "importance" ++ q ++ ":0}"))
           "hello" None
           ("{" ++ q ++ "importance" ++ q ++ ":0}")
           [("importance", JNumber (Fin 0))] 0).
  - reflexivity.
  - vm_compute. reflexivity.
  - reflexivity.
  - exact I.
Defined.

End NormalizerFacts.

(** ** The placeholders of the default template *)

Section PlaceholderFacts.
Import JS Types Prompt Placeholders.
Local Open Scope string_scope.

Variable toLocaleDateString : number -> string.
Variable numberToString : number -> string.

Lemma append_assoc (a b c : string) : (a ++ b) ++ c = a ++ b ++ c.
Proof.
  induction a as [ | x a IH]; [reflexivity | ].
  change (String x ((a ++ b) ++ c) = String x (a ++ b ++ c)).
  rewrite IH. reflexivity.
Qed.

Lemma append_empty_r (a : string) : a ++ "" = a.
Proof.
  induction a as [ | x a IH]; [reflexivity | ].
  change (String x (a ++ "") = String x a). rewrite IH. reflexivity.
Qed.

Lemma includes_char_cons (c x : ascii) (r : string) :
  includes (String x r) (String c "") = false ->
  c <> x /\ includes r (String c "") = false.
Proof.
  cbn [includes String.prefix]. intros H. apply orb_false_elim in H as [H1 H2].
  split; [ | exact H2].
  intros ->. destruct (ascii_dec x x) as [_ | Hne]; [ | contradiction].
  destruct r; discriminate.
Qed.

(** A replacement text without a dollar sign is inserted as it is. *)
Lemma GetSubstitution_plain (matched before after template : string) :
  plain template -> GetSubstitution matched before after template = template.
Proof.
  unfold plain. induction template as [ | c r IH]; [reflexivity | ].
  intros [Hc Hr]%includes_char_cons. cbn [GetSubstitution].
  destruct (Ascii.eqb_spec c "$") as [-> | _]; [congruence | ].
  rewrite IH by exact Hr. reflexivity.
Qed.

(** A pattern that starts with a character a text does not have is found
    after the text only. *)
Lemma find_after (a b : string) (c : ascii) (pat : string) :
  includes a (String c "") = false ->
  find (a ++ b) (String c pat)
  = match find b (String c pat) with
    | Some (before, after) => Some (a ++ before, after)
    | None => None
    end.
Proof.
  induction a as [ | x a IH].
  - intros _. change ("" ++ b) with b.
    destruct (find b (String c pat)) as [[? ?] | ]; reflexivity.
  - intros [Hc Ha]%includes_char_cons.
    change (String x a ++ b) with (String x (a ++ b)).
    cbn [find String.prefix].
    destruct (ascii_dec c x) as [E | _]; [contradiction | ].
    rewrite IH by exact Ha.
    destruct (find b (String c pat)) as [[? ?] | ]; reflexivity.
Qed.

Lemma system_of_default :
  system DEFAULT_TEMPLATE
  = before_personality ++ "{personality}" ++ before_context ++ "{context}".
Proof. reflexivity. Qed.

(** X14.  With the default template and a context without a dollar
    sign, the second segment of the prompt is the heading of the
    conversation history, the context as it is, the block of the
    memories (left out when there is none) and the block of the
    personality. *)
Theorem X14_context_segment_of_the_default_template
    (relevantMemories : list Memory) (personality : AgentPersonality)
    (context : string) :
  plain context ->
  contextMessage toLocaleDateString numberToString DEFAULT_TEMPLATE
                 relevantMemories personality context
  = "CONVERSATION HISTORY:" ++ nl ++ context
    ++ match relevantMemories with
       | [] => ""
       | _ =>
           nl ++ "RELEVANT MEMORIES:" ++ nl ++ nl
           ++ join nl (map (formatMemory toLocaleDateString numberToString)
                           relevantMemories)
           ++ nl ++ "END MEMORIES" ++ nl
       end
    ++ nl ++ "PERSONALITY TRAITS:" ++ nl ++ nl
    ++ formatPersonality numberToString personality.
Proof.
  intros Hcontext. unfold contextMessage, replace.
  change (find (context_template DEFAULT_TEMPLATE) "{context}")
    with (Some ("CONVERSATION HISTORY:" ++ nl, "")).
  cbv beta iota zeta.
  rewrite (GetSubstitution_plain _ _ _ _ Hcontext).
  cbn [memory_prefix memory_suffix personality_prefix personality_suffix
       DEFAULT_TEMPLATE].
  rewrite !append_empty_r, !append_assoc.
  destruct relevantMemories as [ | memory rest]; [reflexivity | ].
  rewrite !append_assoc. reflexivity.
Qed.

(** X15.  With the default template, the first segment of the prompt is
    the system text with the formatted personality and the context in
    the place of the two placeholders, as they are, provided that
    neither has a dollar sign and that the formatted personality has no
    opening brace: [replace] reads dollar patterns in what it inserts,
    and the second [replace] looks for [{context}] in the text that
    already holds the personality. *)
Theorem X15_system_segment_of_the_default_template
    (personality : AgentPersonality) (context : string) :
  plain (formatPersonality numberToString personality) ->
  braceless (formatPersonality numberToString personality) ->
  plain context ->
  systemMessage numberToString DEFAULT_TEMPLATE personality context
  = before_personality ++ formatPersonality numberToString personality
    ++ before_context ++ context.
Proof.
  intros Hplain Hbraceless Hcontext. unfold systemMessage.
  set (P := formatPersonality numberToString personality) in *.
  unfold replace at 2.
  change (find (system DEFAULT_TEMPLATE) "{personality}")
    with (Some (before_personality, before_context ++ "{context}")).
  cbv beta iota zeta.
  rewrite (GetSubstitution_plain _ _ _ _ Hplain).
  unfold replace.
  rewrite (find_after before_personality _ "{" "context}") by reflexivity.
  rewrite (find_after P _ "{" "context}") by exact Hbraceless.
  change (find (before_context ++ "{context}") "{context}")
    with (Some (before_context, "")).
  cbv beta iota zeta.
  rewrite (GetSubstitution_plain _ _ _ _ Hcontext).
  rewrite !append_empty_r, !append_assoc. reflexivity.
Qed.

(** Where the formatted personality has the text [{context}], it is
    that occurrence the context goes to, and the placeholder of the
    template stays. *)
Example context_lands_in_the_personality :
  systemMessage (fun _ => "1") DEFAULT_TEMPLATE
    {| agent := Some {| agent_id := "a"; name := "{context}";
                        description := "d" |};
       traits := None; values := None; communication := None |}
    "HELLO"
  = before_personality
    ++ formatPersonality (fun _ => "1")
         {| agent := Some {| agent_id := "a"; name := "HELLO";
                             description := "d" |};
            traits := None; values := None; communication := None |}
    ++ before_context ++ "{context}".
Proof. vm_compute. reflexivity. Qed.

(** A dollar pattern in the context is expanded: [$&] stands for the
    placeholder itself. *)
Example dollar_pattern_in_the_context :
  contextMessage (fun _ => "1") (fun _ => "1") DEFAULT_TEMPLATE []
                 Scenario.no_personality "$&"
  = "CONVERSATION HISTORY:" ++ nl ++ "{context}"
    ++ nl ++ "PERSONALITY TRAITS:" ++ nl ++ nl
    ++ formatPersonality (fun _ => "1") Scenario.no_personality.
Proof. vm_compute. reflexivity. Qed.

End PlaceholderFacts.

Lemma X14_context_segment_of_the_default_template_witness :
  Prompt.contextMessage (fun _ => "1/1/2024") (fun _ => "0.9") Prompt.DEFAULT_TEMPLATE
                 (MemoryStore.Map_values
                    (MemoryStore.memories Scenario.two_memories))
                 Scenario.no_personality "user: hi"
  = ("CONVERSATION HISTORY:" ++ Prompt.nl ++ "user: hi"
     ++ (Prompt.nl ++ "RELEVANT MEMORIES:" ++ Prompt.nl ++ Prompt.nl
         ++ JS.join Prompt.nl
              (map (Prompt.formatMemory (fun _ => "1/1/2024") (fun _ => "0.9"))
                   (MemoryStore.Map_values
                      (MemoryStore.memories Scenario.two_memories)))
         ++ Prompt.nl ++ "END MEMORIES" ++ Prompt.nl)
     ++ Prompt.nl ++ "PERSONALITY TRAITS:" ++ Prompt.nl ++ Prompt.nl
     ++ Prompt.formatPersonality (fun _ => "0.9") Scenario.no_personality)%string.
Proof.
  apply (X14_context_segment_of_the_default_template
           (fun _ => "1/1/2024"%string) (fun _ => "0.9"%string)
           (MemoryStore.Map_values (MemoryStore.memories Scenario.two_memories))
           Scenario.no_personality "user: hi").
  reflexivity.
Defined.

Lemma X15_system_segment_of_the_default_template_witness :
  Prompt.systemMessage (fun _ => "0.9") Prompt.DEFAULT_TEMPLATE
                       Scenario.no_personality "user: hi"
  = (Placeholders.before_personality
     ++ Prompt.formatPersonality (fun _ => "0.9") Scenario.no_personality
     ++ Placeholders.before_context ++ "user: hi")%string.
Proof.
  apply (X15_system_segment_of_the_default_template
           (fun _ => "0.9"%string) Scenario.no_personality "user: hi");
    vm_compute; reflexivity.
Defined.

(** ** The personality manager *)

Section PersonalityFacts.
Import JS Types PersonalityStore.
Local Open Scope string_scope.

Context {S : Type} `{PersonalityStorageProvider S}.

Implicit Types (st : State S) (p : personality_reference).

(** *** Properties of a plain object *)

Lemma lookup_update_property (k name : string) (v : number)
    (t : list (string * number)) :
  is_Some (lookup_property name t) ->
  lookup_property k (update_property name v t)
  = if String.eqb k name then Some v else lookup_property k t.
Proof.
  induction t as [ | [k' v'] t IH]; cbn; [intros [? [=]] | ].
  destruct (String.eqb_spec name k') as [-> | Hne].
  - intros _. cbn. destruct (String.eqb k k'); reflexivity.
  - intros Hsome. cbn. rewrite IH by exact Hsome.
    destruct (String.eqb_spec k k') as [-> | _]; [ | reflexivity].
    destruct (String.eqb_spec k' name); [congruence | reflexivity].
Qed.

Lemma lookup_insert_index (k : string) (i : Z) (name : string) (v : number)
    (t : list (string * number)) :
  lookup_property name t = None ->
  lookup_property k (insert_index i name v t)
  = if String.eqb k name then Some v else lookup_property k t.
Proof.
  induction t as [ | [k' v'] t IH]; cbn; [reflexivity | ].
  destruct (String.eqb_spec name k') as [-> | Hne]; [discriminate | ].
  intros Hnone.
  destruct (array_index k') as [j | ]; [ | reflexivity].
  destruct (j <? i)%Z; [ | reflexivity].
  cbn. rewrite IH by exact Hnone.
  destruct (String.eqb_spec k k') as [-> | _]; [ | reflexivity].
  destruct (String.eqb_spec k' name); [congruence | reflexivity].
Qed.

Lemma lookup_property_app (k name : string) (v : number)
    (t : list (string * number)) :
  lookup_property name t = None ->
  lookup_property k (t ++ [(name, v)])%list
  = if String.eqb k name then Some v else lookup_property k t.
Proof.
  induction t as [ | [k' v'] t IH]; cbn; [reflexivity | ].
  destruct (String.eqb_spec name k') as [-> | Hne]; [discriminate | ].
  intros Hnone. rewrite IH by exact Hnone.
  destruct (String.eqb_spec k k') as [-> | _]; [ | reflexivity].
  destruct (String.eqb_spec k' name); [congruence | reflexivity].
Qed.

(** After [object[name] = v] the property [name] reads [v] and every
    other one reads as before, for every name but [__proto__]. *)
Lemma lookup_set_property (k name : string) (v : number)
    (t : list (string * number)) :
  name <> "__proto__" ->
  lookup_property k (set_property t name v)
  = if String.eqb k name then Some v else lookup_property k t.
Proof.
  intros Hname. unfold set_property.
  destruct (lookup_property name t) as [old | ] eqn:E.
  - apply lookup_update_property. rewrite E. eexists. reflexivity.
  - destruct (String.eqb_spec name "__proto__"); [contradiction | ].
    destruct (array_index name) as [i | ].
    + apply lookup_insert_index, E.
    + apply lookup_property_app, E.
Qed.

(** *** The heap *)

Lemma table_at_insert (h : Heap) (a : gmap ref (list string)) (r : ref)
    (t : list (string * number)) :
  table_at {| tables := <[r := t]> (tables h); arrays := a |} r = t.
Proof. unfold table_at. cbn. rewrite lookup_insert_eq. reflexivity. Qed.

Lemma array_at_insert (h : Heap) (b : gmap ref (list (string * number)))
    (r : ref) (l : list string) :
  array_at {| tables := b; arrays := <[r := l]> (arrays h) |} r = l.
Proof. unfold array_at. cbn. rewrite lookup_insert_eq. reflexivity. Qed.

Lemma adopt_contents (h : Heap) (c : Contents) :
  contents_of (adopt h c).1 (adopt h c).2 = c.
Proof.
  unfold adopt, allocate_table, allocate_array, contents_of. cbn.
  destruct c as [a t l co]. cbn. f_equal.
  - unfold table_at. cbn. rewrite lookup_insert_eq. reflexivity.
  - unfold array_at. cbn. rewrite lookup_insert_eq. reflexivity.
Qed.

(** *** Saving, initializing *)

Lemma save_keeps st :
  ARIA_FROST_PERSONALITY (save st).2 = ARIA_FROST_PERSONALITY st
  /\ heap (save st).2 = heap st
  /\ personality (save st).2 = personality st.
Proof.
  unfold save. destruct (personality st) as [p | ] eqn:E; [ | repeat split].
  destruct (savePersonality _ _) as [outcome storage]. cbn.
  repeat split. exact E.
Qed.

Lemma save_current st : current (save st).2 = current st.
Proof.
  destruct (save_keeps st) as (H1 & _ & H3).
  unfold current. rewrite H3. destruct (personality st) as [[ | object] | ];
    cbn; [rewrite H1 | | ]; reflexivity.
Qed.

Lemma save_current_traits st : current_traits (save st).2 = current_traits st.
Proof.
  unfold current_traits. rewrite save_current.
  destruct (save_keeps st) as (_ & -> & _). reflexivity.
Qed.

Lemma save_current_values st : current_values (save st).2 = current_values st.
Proof.
  unfold current_values. rewrite save_current.
  destruct (save_keeps st) as (_ & -> & _). reflexivity.
Qed.

Lemma assign_current st p (change : PersonalityObject -> PersonalityObject)
    (h : Heap) :
  current (assign st p change h) = Some (change (the_object st p))
  /\ heap (assign st p change h) = h
  /\ storageProvider (assign st p change h) = storageProvider st.
Proof. destruct p; cbn; auto. Qed.

Lemma initialize_personality st :
  personality (initialize st).2 = Some (initialize st).1
  /\ ARIA_FROST_PERSONALITY (initialize st).2 = ARIA_FROST_PERSONALITY st.
Proof.
  unfold initialize.
  destruct (loadPersonality (storageProvider st)) as [[ | stored] storage];
    [cbn; auto | ].
  set (hp := match stored with
             | Some c => let '(h, object) := adopt (heap st) c in (h, Own object)
             | None => (heap st, TheDefault)
             end).
  destruct hp as [h p].
  set (st1 := {| ARIA_FROST_PERSONALITY := ARIA_FROST_PERSONALITY st;
                 heap := h; personality := Some p;
                 storageProvider := storage |}).
  destruct (save_keeps st1) as (H1 & _ & H3).
  destruct (save st1) as [[ | []] st2]; cbn in *; auto.
Qed.

Lemma ensure_personality st :
  personality (ensure st).2 = Some (ensure st).1
  /\ ARIA_FROST_PERSONALITY (ensure st).2 = ARIA_FROST_PERSONALITY st.
Proof.
  unfold ensure. destruct (personality st) as [p | ] eqn:E; cbn; [auto | ].
  apply initialize_personality.
Qed.

Lemma ensure_set st p : personality st = Some p -> ensure st = (p, st).
Proof. intros E. unfold ensure. rewrite E. reflexivity. Qed.

Lemma ensure_current st :
  current (ensure st).2 = Some (the_object (ensure st).2 (ensure st).1).
Proof.
  unfold current. destruct (ensure_personality st) as [-> _]. reflexivity.
Qed.

(** X16.  After [initialize], [this.personality] is set.  It is an
    object with the loaded contents when the storage provider loads a
    personality and then saves it; in every other case (loading fails,
    nothing is stored, or the save that follows the load fails, which
    drops what was loaded) it is the exported default itself. *)
Theorem X16_initialize_falls_back_to_the_default st :
  personality (initialize st).2 = Some (initialize st).1
  /\ match loadPersonality (storageProvider st) with
     | (Resolved (Some c), storage) =>
         match (savePersonality c storage).1 with
         | Resolved _ =>
             exists object,
               (initialize st).1 = Own object
               /\ contents_of (heap (initialize st).2) object = c
         | Rejected => (initialize st).1 = TheDefault
         end
     | _ => (initialize st).1 = TheDefault
     end.
Proof.
  split; [apply initialize_personality | ].
  unfold initialize.
  destruct (loadPersonality (storageProvider st)) as [[ | [c | ]] storage];
    [reflexivity | | ].
  - pose proof (adopt_contents (heap st) c) as Hc.
    destruct (adopt (heap st) c) as [h object]. cbn [fst snd] in Hc.
    unfold save. cbn [personality the_object heap storageProvider].
    rewrite Hc.
    destruct (savePersonality c storage) as [[ | []] storage'];
      cbn; [reflexivity | ].
    exists object. auto.
  - unfold save. cbn [personality].
    destruct (savePersonality _ _) as [[ | []] storage']; reflexivity.
Qed.

(** *** The calls, from a state in which the field is set *)

Lemma step_agent_id st (op : operation) object :
  current st = Some object ->
  exists object',
    current (step st op) = Some object'
    /\ agent_id (o_agent object') = agent_id (o_agent object).
Proof.
  intros Hcurrent.
  assert (Hp : exists p, personality st = Some p /\ the_object st p = object).
  { unfold current in Hcurrent. destruct (personality st) as [p | ];
      [ | discriminate]. injection Hcurrent as <-. eauto. }
  destruct Hp as (p & Hp & Hobject).
  destruct op as [ | updates | traitName value | value | value | style];
    cbn [step].
  - unfold getPersonality. rewrite (ensure_set st p Hp). cbn.
    exists object. split; [exact Hcurrent | reflexivity].
  - unfold updatePersonality. rewrite (ensure_set st p Hp).
    destruct (match u_traits updates with
              | Some (Existing r) => (heap st, r)
              | Some (Literal t) => allocate_table (heap st) t
              | None => (heap st, o_traits (the_object st p))
              end) as [h traits].
    destruct (match u_values updates with
              | Some (Existing r) => (h, r)
              | Some (Literal l) => allocate_array h l
              | None => (h, o_values (the_object st p))
              end) as [h' values].
    match goal with
    | |- context [save ?st1] =>
        pose proof (save_current st1) as Hsave;
        destruct (save st1) as [saved st2]
    end.
    cbn [fst snd] in *. rewrite Hsave. cbn.
    eexists. split; [reflexivity | ]. cbn. rewrite Hobject. reflexivity.
  - unfold updateTrait. rewrite (ensure_set st p Hp).
    destruct (lt value (num 0) || lt (num 1) value).
    + cbn. exists object. split; [exact Hcurrent | reflexivity].
    + rewrite save_current.
      match goal with
      | |- context [assign st p ?f ?h] =>
          destruct (assign_current st p f h) as (-> & _)
      end.
      eexists. split; [reflexivity | ]. rewrite Hobject. reflexivity.
  - unfold addValue. rewrite (ensure_set st p Hp).
    destruct (Array_includes _ _).
    + cbn. exists object. split; [exact Hcurrent | reflexivity].
    + rewrite save_current.
      match goal with
      | |- context [assign st p ?f ?h] =>
          destruct (assign_current st p f h) as (-> & _)
      end.
      eexists. split; [reflexivity | ]. rewrite Hobject. reflexivity.
  - unfold removeValue. rewrite (ensure_set st p Hp).
    destruct (allocate_array _ _) as [h r].
    rewrite save_current.
    match goal with
    | |- context [assign st p ?f ?h] =>
        destruct (assign_current st p f h) as (-> & _)
    end.
    eexists. split; [reflexivity | ]. cbn. rewrite Hobject. reflexivity.
  - unfold updateCommunicationStyle. rewrite (ensure_set st p Hp).
    rewrite save_current.
    match goal with
    | |- context [assign st p ?f ?h] =>
        destruct (assign_current st p f h) as (-> & _)
    end.
    eexists. split; [reflexivity | ]. cbn. rewrite Hobject. reflexivity.
Qed.

(** X17.  The identifier of the agent never changes: whatever calls are
    made on a manager whose personality is set, [updatePersonality] with
    another agent among them, the agent of the personality has the
    identifier it had. *)
Theorem X17_agent_id_never_changes (ops : list operation) st object :
  current st = Some object ->
  exists object',
    current (run ops st) = Some object'
    /\ agent_id (o_agent object') = agent_id (o_agent object).
Proof.
  revert st object. induction ops as [ | op ops IH]; intros st object Hcurrent.
  - exists object. split; [exact Hcurrent | reflexivity].
  - destruct (step_agent_id st op object Hcurrent) as (object1 & H1 & Hid1).
    destruct (IH (step st op) object1 H1) as (object' & H' & Hid').
    exists object'. split; [exact H' | congruence].
Qed.

(** X18.  [updateTrait] rejects a value below 0 or above 1 without
    changing anything (beyond the initialization it may have started).
    Every other value is stored, [NaN] included, which neither
    comparison of the guard catches, and whether the save that follows
    succeeds or not: the trait then reads as the value and every other
    trait reads as before.  This is for every trait name but
    [__proto__], which the assignment does not store. *)
Theorem X18_updateTrait_guards_and_stores st (traitName : string)
    (value : number) :
  traitName <> "__proto__" ->
  refused NaN = false
  /\ if refused value
     then updateTrait traitName value st = (Rejected, (ensure st).2)
     else forall k,
         lookup_property k (current_traits (updateTrait traitName value st).2)
         = if String.eqb k traitName then Some value
           else lookup_property k (current_traits (ensure st).2).
Proof.
  intros Hname. split; [reflexivity | ].
  unfold updateTrait, refused.
  pose proof (ensure_current st) as Hcurrent.
  destruct (ensure st) as [p st0]. cbn [fst snd] in *.
  destruct (lt value (num 0) || lt (num 1) value); [reflexivity | ].
  intros k. rewrite save_current_traits.
  unfold current_traits at 1.
  match goal with
  | |- context [assign st0 p ?f ?h] =>
      destruct (assign_current st0 p f h) as (-> & -> & _)
  end.
  rewrite table_at_insert, (lookup_set_property _ _ _ _ Hname).
  unfold current_traits. rewrite Hcurrent. reflexivity.
Qed.

(** *** The exported constant *)

Lemma step_shares_default_traits st (op : operation) :
  keeps_traits op -> shares_default_traits st ->
  shares_default_traits (step st op).
Proof.
  intros Hop (object & Hcurrent & Hshared).
  assert (Hp : exists p, personality st = Some p /\ the_object st p = object).
  { unfold current in Hcurrent. destruct (personality st) as [p | ];
      [ | discriminate]. injection Hcurrent as <-. eauto. }
  destruct Hp as (p & Hp & Hobject).
  unfold shares_default_traits.
  destruct op as [ | updates | traitName value | value | value | style];
    cbn [step keeps_traits] in *.
  - unfold getPersonality. rewrite (ensure_set st p Hp). cbn. eauto.
  - unfold updatePersonality. rewrite (ensure_set st p Hp), Hop.
    destruct (match u_values updates with
              | Some (Existing r) => (heap st, r)
              | Some (Literal l) => allocate_array (heap st) l
              | None => (heap st, o_values (the_object st p))
              end) as [h' values].
    match goal with
    | |- context [save ?st1] =>
        pose proof (save_current st1) as Hsave;
        destruct (save_keeps st1) as (Haria & _);
        destruct (save st1) as [saved st2]
    end.
    cbn [fst snd] in *. rewrite Hsave, Haria. cbn.
    eexists. split; [reflexivity | ]. cbn. rewrite Hobject. exact Hshared.
  - unfold updateTrait. rewrite (ensure_set st p Hp).
    destruct (lt value (num 0) || lt (num 1) value); [cbn; eauto | ].
    rewrite save_current. destruct (save_keeps (assign st p (fun o => o)
      {| tables := <[o_traits (the_object st p) :=
                       set_property (table_at (heap st) (o_traits (the_object st p)))
                                    traitName value]> (tables (heap st));
         arrays := arrays (heap st) |})) as (-> & _).
    destruct p as [ | own]; cbn in *; subst; eauto.
  - unfold addValue. rewrite (ensure_set st p Hp).
    destruct (Array_includes _ _); [cbn; eauto | ].
    rewrite save_current.
    match goal with
    | |- context [save ?st1] => destruct (save_keeps st1) as (-> & _)
    end.
    destruct p as [ | own]; cbn in *; subst; eauto.
  - unfold removeValue. rewrite (ensure_set st p Hp).
    destruct (allocate_array _ _) as [h r].
    rewrite save_current.
    match goal with
    | |- context [save ?st1] => destruct (save_keeps st1) as (-> & _)
    end.
    destruct p as [ | own]; cbn in *; subst; eauto.
  - unfold updateCommunicationStyle. rewrite (ensure_set st p Hp).
    rewrite save_current.
    match goal with
    | |- context [save ?st1] => destruct (save_keeps st1) as (-> & _)
    end.
    destruct p as [ | own]; cbn in *; subst; eauto.
Qed.

Lemma run_shares_default_traits (ops : list operation) st :
  Forall keeps_traits ops -> shares_default_traits st ->
  shares_default_traits (run ops st).
Proof.
  intros Hops. revert st.
  induction Hops as [ | op ops Hop _ IH]; intros st Hst; [exact Hst | ].
  apply IH, step_shares_default_traits; assumption.
Qed.

(** X19.  A manager that found nothing to load works on the exported
    constant [ARIA_FROST_PERSONALITY], not on a copy of it, and the
    spread of [updatePersonality] copies the reference to its [traits]
    object: as long as no call hands in other traits, a trait set with
    [updateTrait] is set in the exported constant as well. *)
Theorem X19_updateTrait_writes_to_the_exported_default (storage : S)
    (ops : list operation) (traitName : string) (value : number) :
  (initialize (start storage)).1 = TheDefault ->
  Forall keeps_traits ops ->
  refused value = false ->
  traitName <> "__proto__" ->
  lookup_property traitName
    (default_traits
       (updateTrait traitName value (run ops (construct storage))).2)
  = Some value.
Proof.
  intros Hdefault Hops Hvalue Hname.
  assert (Hstart : shares_default_traits (construct storage)).
  { unfold construct, shares_default_traits, current.
    destruct (initialize_personality (start storage)) as [-> _].
    rewrite Hdefault. cbn. eauto. }
  destruct (run_shares_default_traits ops _ Hops Hstart)
    as (object & Hcurrent & Hshared).
  set (st := run ops (construct storage)) in *.
  assert (Hp : exists p, personality st = Some p /\ the_object st p = object).
  { unfold current in Hcurrent. destruct (personality st) as [p | ];
      [ | discriminate]. injection Hcurrent as <-. eauto. }
  destruct Hp as (p & Hp & Hobject).
  unfold updateTrait. rewrite (ensure_set st p Hp).
  unfold refused in Hvalue. rewrite Hvalue.
  unfold default_traits.
  match goal with
  | |- context [save ?st1] => destruct (save_keeps st1) as (-> & -> & _)
  end.
  rewrite Hobject.
  destruct p as [ | own]; cbn [assign ARIA_FROST_PERSONALITY heap];
    cbn [the_object] in Hobject; subst object; rewrite <- ?Hshared;
    rewrite table_at_insert, (lookup_set_property _ _ _ _ Hname),
      String.eqb_refl; reflexivity.
Qed.

(** *** The values *)

Lemma addValue_values st (value : string) :
  current_values (addValue value st).2
  = if Array_includes (current_values (ensure st).2) value
    then current_values (ensure st).2
    else (current_values (ensure st).2 ++ [value])%list.
Proof.
  unfold addValue.
  pose proof (ensure_current st) as Hcurrent.
  destruct (ensure st) as [p st0]. cbn [fst snd] in *.
  unfold current_values at 2 3 4. rewrite Hcurrent.
  destruct (Array_includes _ _); cbn [snd].
  - unfold current_values. rewrite Hcurrent. reflexivity.
  - rewrite save_current_values. unfold current_values.
    match goal with
    | |- context [assign st0 p ?f ?h] =>
        destruct (assign_current st0 p f h) as (-> & -> & _)
    end.
    apply array_at_insert.
Qed.

Lemma removeValue_values st (value : string) :
  current_values (removeValue value st).2
  = List.filter (fun v => negb (String.eqb v value))
                (current_values (ensure st).2).
Proof.
  unfold removeValue.
  pose proof (ensure_current st) as Hcurrent.
  destruct (ensure st) as [p st0]. cbn [fst snd] in *.
  unfold current_values at 2. rewrite Hcurrent.
  unfold allocate_array.
  rewrite save_current_values. unfold current_values.
  match goal with
  | |- context [assign st0 p ?f ?h] =>
      destruct (assign_current st0 p f h) as (-> & -> & _)
  end.
  cbn [set_values o_values]. apply array_at_insert.
Qed.

Lemma addValue_personality st (value : string) :
  is_Some (personality (addValue value st).2).
Proof.
  unfold addValue.
  destruct (ensure_personality st) as [Hp _].
  destruct (ensure st) as [p st0]. cbn [fst snd] in *.
  destruct (Array_includes _ _); cbn [snd]; [rewrite Hp; eauto | ].
  match goal with
  | |- context [save ?st1] => destruct (save_keeps st1) as (_ & _ & ->)
  end.
  destruct p; cbn; eauto.
Qed.

(** X20.  [addValue] adds a value once: the values afterwards are those
    of before, followed by the new value unless it is among them, and a
    second call with the same value changes nothing and saves nothing:
    it returns the state it found, that of the storage provider
    included. *)
Theorem X20_addValue_adds_once st (value : string) :
  current_values (addValue value st).2
  = (if Array_includes (current_values (ensure st).2) value
     then current_values (ensure st).2
     else (current_values (ensure st).2 ++ [value])%list)
  /\ value ∈ current_values (addValue value st).2
  /\ addValue value (addValue value st).2
     = (Resolved tt, (addValue value st).2).
Proof.
  assert (Hin : value ∈ current_values (addValue value st).2).
  { rewrite addValue_values.
    destruct (Array_includes _ _) eqn:E.
    - unfold Array_includes in E. apply bool_decide_eq_true in E. exact E.
    - apply elem_of_app. right. apply list_elem_of_singleton. reflexivity. }
  split; [apply addValue_values | ]. split; [exact Hin | ].
  destruct (addValue_personality st value) as [p Hp].
  set (st1 := (addValue value st).2) in *.
  unfold addValue at 1. rewrite (ensure_set st1 p Hp).
  assert (E : Array_includes (array_at (heap st1) (o_values (the_object st1 p)))
                             value = true).
  { unfold Array_includes. apply bool_decide_eq_true.
    unfold current_values, current in Hin. rewrite Hp in Hin. exact Hin. }
  rewrite E. reflexivity.
Qed.

Lemma filter_out_app_absent (value : string) (l : list string) :
  value ∉ l ->
  List.filter (fun v => negb (String.eqb v value)) (l ++ [value]) = l.
Proof.
  induction l as [ | x l IH]; cbn.
  - intros _. rewrite String.eqb_refl. reflexivity.
  - intros Hnot. apply not_elem_of_cons in Hnot as [Hne Hnot].
    destruct (String.eqb_spec x value); [congruence | ].
    cbn. rewrite IH by exact Hnot. reflexivity.
Qed.

(** X21.  [removeValue] undoes [addValue]: adding a value that is not
    among the values and removing it again leaves the values as they
    were, in their order. *)
Theorem X21_removeValue_undoes_addValue st (value : string) :
  value ∉ current_values (ensure st).2 ->
  current_values (removeValue value (addValue value st).2).2
  = current_values (ensure st).2.
Proof.
  intros Hnot. rewrite removeValue_values.
  destruct (addValue_personality st value) as [p Hp].
  rewrite (ensure_set _ p Hp). cbn [snd].
  rewrite addValue_values.
  assert (E : Array_includes (current_values (ensure st).2) value = false).
  { unfold Array_includes. apply bool_decide_eq_false. exact Hnot. }
  rewrite E. apply filter_out_app_absent, Hnot.
Qed.

End PersonalityFacts.

Lemma X17_agent_id_never_changes_witness :
  exists object',
    PersonalityStore.current
      (PersonalityStore.run (H := PersonalityStore.in_memory)
         [ PersonalityStore.UpdatePersonality PersonalityStore.another_agent;
           PersonalityStore.UpdateTrait "humor" (JS.decimal 3 (-1)) ]
         PersonalityStore.fresh_manager)
    = Some object'
    /\ Types.agent_id (PersonalityStore.o_agent object') = "default_agent"%string.
Proof.
  apply (X17_agent_id_never_changes (H := PersonalityStore.in_memory)
           [ PersonalityStore.UpdatePersonality PersonalityStore.another_agent;
             PersonalityStore.UpdateTrait "humor" (JS.decimal 3 (-1)) ]
           PersonalityStore.fresh_manager
           (PersonalityStore.ARIA_FROST_PERSONALITY
              PersonalityStore.fresh_manager)).
  vm_compute. reflexivity.
Defined.

Lemma X18_updateTrait_guards_and_stores_witness :
  PersonalityStore.lookup_property "patience"
    (PersonalityStore.current_traits
       (PersonalityStore.updateTrait (H := PersonalityStore.in_memory)
          "patience" JS.NaN PersonalityStore.fresh_manager).2)
  = Some JS.NaN.
Proof.
  destruct (X18_updateTrait_guards_and_stores (H := PersonalityStore.in_memory)
              PersonalityStore.fresh_manager "patience" JS.NaN
              ltac:(discriminate)) as [_ Hstored].
  exact (Hstored "patience"%string).
Defined.

Lemma X19_updateTrait_writes_to_the_exported_default_witness :
  PersonalityStore.lookup_property "humor"
    (PersonalityStore.default_traits
       (PersonalityStore.updateTrait (H := PersonalityStore.in_memory)
          "humor" (JS.decimal 3 (-1))
          (PersonalityStore.run (H := PersonalityStore.in_memory)
             [ PersonalityStore.UpdatePersonality
                 PersonalityStore.another_agent ]
             (PersonalityStore.construct (H := PersonalityStore.in_memory)
                None))).2)
  = Some (JS.decimal 3 (-1)).
Proof.
  apply (X19_updateTrait_writes_to_the_exported_default
           (H := PersonalityStore.in_memory) None
           [ PersonalityStore.UpdatePersonality PersonalityStore.another_agent ]
           "humor" (JS.decimal 3 (-1))).
  - vm_compute. reflexivity.
  - repeat constructor.
  - vm_compute. reflexivity.
  - discriminate.
Defined.

Lemma X21_removeValue_undoes_addValue_witness :
  PersonalityStore.current_values
    (PersonalityStore.removeValue (H := PersonalityStore.in_memory) "honesty"
       (PersonalityStore.addValue (H := PersonalityStore.in_memory) "honesty"
          PersonalityStore.fresh_manager).2).2
  = PersonalityStore.current_values
      (PersonalityStore.ensure (H := PersonalityStore.in_memory)
         PersonalityStore.fresh_manager).2.
Proof.
  apply (X21_removeValue_undoes_addValue (H := PersonalityStore.in_memory)
           PersonalityStore.fresh_manager "honesty").
  apply (bool_decide_eq_false_1 _). vm_compute. reflexivity.
Defined.

(** ** Arrays that two records share *)

Section SharingFacts.
Import JS Types MemoryStore MemoryGraph.

(** X22.  [updateMemory] stores the array it is handed, not a copy of
    it: a record updated with the linked memories of another record
    holds the same array, and a link made to the other record afterwards
    shows among its own linked memories as well. *)
Theorem X22_updateMemory_shares_the_array_it_is_given (s : Store)
    (a b c : string) (ma mc : Memory) (updates : Partial) (s1 : Store)
    (updated : Memory) :
  Map_get a (memories s) = Some ma ->
  a <> b ->
  u_linked_memories updates = Some (Existing (linked_memories ma)) ->
  updateMemory b updates s = Some (s1, updated) ->
  Map_get c (memories s1) = Some mc ->
  linked_memories updated = linked_memories ma
  /\ exists s2 mb',
       linkMemories a c s1 = Some s2
       /\ Map_get b (memories s2) = Some mb'
       /\ c ∈ linked s2 mb'.
Proof.
  intros Ha Hab Hupdates Hupdate Hc.
  unfold updateMemory in Hupdate.
  destruct (Map_get b (memories s)) as [mb | ] eqn:Eb; [ | discriminate].
  rewrite Hupdates in Hupdate. cbn [pass] in Hupdate.
  injection Hupdate as <- <-. cbn [linked_memories].
  split; [reflexivity | ].
  match goal with
  | |- context [Map_set b ?m (memories s)] => set (updated := m) in *
  end.
  set (s1 := {| arrays := arrays s; memories := Map_set b updated (memories s) |})
    in *.
  assert (Ha1 : Map_get a (memories s1) = Some ma).
  { unfold s1. cbn [memories]. rewrite Map_get_set.
    destruct (String.eqb_spec a b); [contradiction | exact Ha]. }
  assert (Hb1 : Map_get b (memories s1) = Some updated).
  { unfold s1. cbn [memories]. rewrite Map_get_set, String.eqb_refl.
    reflexivity. }
  rewrite (linkMemories_unfold s1 a c ma mc Ha1 Hc).
  eexists. exists updated. split; [reflexivity | ].
  cbn [memories]. split; [exact Hb1 | ].
  unfold linked. cbn [arrays].
  change (linked_memories updated) with (linked_memories ma).
  apply push_unless_included_mono, push_unless_included_elem.
Qed.

Lemma X22_updateMemory_shares_the_array_it_is_given_witness :
  exists ma s1 updated s2 mb',
    Map_get "m1" (memories Scenario.two_memories) = Some ma
    /\ updateMemory "m2" (with_array (linked_memories ma))
                    Scenario.two_memories = Some (s1, updated)
    /\ linkMemories "m1" "m2" s1 = Some s2
    /\ Map_get "m2" (memories s2) = Some mb'
    /\ "m2" ∈ linked s2 mb'.
Proof.
  destruct (Map_get "m1" (memories Scenario.two_memories)) as [ma | ] eqn:Ea;
    [ | vm_compute in Ea; discriminate].
  destruct (updateMemory "m2" (with_array (linked_memories ma))
                         Scenario.two_memories) as [[s1 updated] | ] eqn:E;
    [ | vm_compute in E; discriminate].
  assert (Hc : exists mc, Map_get "m2" (memories s1) = Some mc).
  { pose proof Ea as Ea'. vm_compute in Ea'. injection Ea' as <-.
    pose proof E as E'. vm_compute in E'. injection E' as <- <-.
    eexists. vm_compute. reflexivity. }
  destruct Hc as [mc Hc].
  destruct (X22_updateMemory_shares_the_array_it_is_given
              Scenario.two_memories "m1" "m2" "m2" ma mc
              (with_array (linked_memories ma)) s1 updated
              Ea ltac:(discriminate) eq_refl E Hc)
    as (_ & s2 & mb' & H1 & H2 & H3).
  exists ma, s1, updated, s2, mb'. repeat split; assumption.
Defined.

End SharingFacts.

(** ** The similarity, when it is a number *)

Section SimilarityFacts.
Import JS Classification.

(** X24.  [analyzeSimilarity] returns a number of [0,1] exactly when
    the completion fails, or its response starts with a number: for a
    response [parseFloat] takes for no number the result is [NaN]. *)
Theorem X24_similarity_in_range_iff_response_numeric (llm : LLMProvider)
    (text1 text2 : string) :
  in_range 0 1 (analyzeSimilarity llm text1 text2)
  <-> forall response,
        llm (similarityPrompt text1 text2) = Resolved response ->
        parseFloat response <> NaN.
Proof.
  unfold analyzeSimilarity.
  destruct (llm (similarityPrompt text1 text2)) as [ | response];
    cbn [try_catch await mbind option_bind].
  - split; [intros _ response [=] | intros _; split; discriminate].
  - split.
    + intros Hrange r [= <-] E. rewrite E, clamp_NaN in Hrange.
      exact (not_in_range_NaN _ _ Hrange).
    + intros Hnumber. apply (clamp_in_range 0 1); [discriminate | ].
      apply Hnumber. reflexivity.
Qed.

End SimilarityFacts.

(** ** A prompt over the memory manager *)

Section CompositionFacts.
Import JS Types Prompt.

Variable toLocaleDateString : number -> string.
Variable numberToString : number -> string.

Lemma slice0_at_most {A : Type} (l : list A) (z : Z) :
  0 <= z -> (length (slice0 l (num z)) <= Z.to_nat z)%nat.
Proof.
  intros Hz. unfold slice0, slice_end. cbn [ToIntegerOrInfinity num inject_Z Qnum Qden].
  rewrite Z.quot_1_r. destruct (Z.ltb_spec z 0) as [Hneg | _]; [lia | ].
  rewrite length_firstn. lia.
Qed.

(** X23.  A prompt built without search criteria over the memory
    manager shows the five most important memories of importance 0.5 or
    more, or fewer when fewer qualify, the most important first: the
    second segment is made of what the search with the default criteria
    [{limit: 5, importance_threshold: 0.5}] returns. *)
Theorem X23_default_prompt_shows_at_most_five_memories
    (s : MemoryStore.Store) (this : PromptBuilder) (userMessage : string)
    (context : option string) (personality : AgentPersonality) :
  searchMemories this default_params
    = Resolved (MemoryStore.searchMemories default_params s) ->
  getPersonality this = Resolved personality ->
  exists relevantMemories,
    buildPrompt toLocaleDateString numberToString this userMessage context None
    = Resolved
        [ systemMessage numberToString (template this) personality
                        (default "" context);
          contextMessage toLocaleDateString numberToString (template this)
                         relevantMemories personality (default "" context);
          userMessage ]
    /\ relevantMemories = MemoryStore.searchMemories default_params s
    /\ (length relevantMemories <= 5)%nat
    /\ Forall (fun memory => ge (importance memory) (Fin (1 # 2)) = true)
              relevantMemories
    /\ StronglySorted MemoryStore.ranked_before relevantMemories.
Proof.
  intros Hsearch Hpersonality.
  exists (MemoryStore.searchMemories default_params s).
  split.
  { unfold buildPrompt. cbn [default]. rewrite Hsearch.
    cbn [p_personality default_params]. rewrite Hpersonality. reflexivity. }
  split; [reflexivity | ].
  set (candidates := MemoryStore.filtered default_params
                       (MemoryStore.collection default_params s)).
  assert (Hresults : MemoryStore.searchMemories default_params s
                     = slice0 (sort MemoryStore.by_importance candidates)
                              (num 5)) by reflexivity.
  assert (Hcandidates :
            Forall (fun memory => ge (importance memory) (Fin (1 # 2)) = true)
                   candidates).
  { apply (filtered_importance default_params). reflexivity. }
  assert (Hsorted :
            Forall (fun memory => ge (importance memory) (Fin (1 # 2)) = true)
                   (sort MemoryStore.by_importance candidates)).
  { apply (Permutation_Forall
             (Permutation_sym (sort_Permutation _ candidates))), Hcandidates. }
  rewrite Hresults. split; [apply (slice0_at_most _ 5); lia | ].
  split; [unfold slice0; apply Forall_take, Hsorted | ].
  unfold slice0. apply StronglySorted_firstn, sort_ranked.
  eapply Forall_impl; [exact Hcandidates | ].
  intros memory Hm. apply (le_not_NaN _ _ Hm).
Qed.

End CompositionFacts.

Lemma X23_default_prompt_shows_at_most_five_memories_witness :
  exists relevantMemories,
    Prompt.buildPrompt (fun _ => "1/1/2024"%string) (fun _ => "0.9"%string)
      {| Prompt.template := Prompt.DEFAULT_TEMPLATE;
         Prompt.searchMemories :=
           fun params =>
             JS.Resolved (MemoryStore.searchMemories params Scenario.two_memories);
         Prompt.getPersonality := JS.Resolved Scenario.no_personality |}
      "hello" None None
    = JS.Resolved
        [ Prompt.systemMessage (fun _ => "0.9"%string) Prompt.DEFAULT_TEMPLATE
            Scenario.no_personality ""%string;
          Prompt.contextMessage (fun _ => "1/1/2024"%string)
            (fun _ => "0.9"%string) Prompt.DEFAULT_TEMPLATE relevantMemories
            Scenario.no_personality ""%string;
          "hello"%string ]
    /\ (length relevantMemories <= 5)%nat.
Proof.
  destruct (X23_default_prompt_shows_at_most_five_memories
              (fun _ => "1/1/2024"%string) (fun _ => "0.9"%string)
              Scenario.two_memories
              {| Prompt.template := Prompt.DEFAULT_TEMPLATE;
                 Prompt.searchMemories :=
                   fun params =>
                     JS.Resolved
                       (MemoryStore.searchMemories params Scenario.two_memories);
                 Prompt.getPersonality := JS.Resolved Scenario.no_personality |}
              "hello"%string None Scenario.no_personality eq_refl eq_refl)
    as (relevantMemories & H1 & _ & H3 & _).
  exists relevantMemories. split; assumption.
Defined.
